(* ===== verification/_CoqProject ===== *)
-Q . S2P
Prelude.v
Types.v
Scid.v
Index.v
Pipeline.v
PipelineProofs.v
Batch.v
Bincode.v
Json.v
JsonText.v
Csv.v
Artifact.v
Output.v
Run.v
