(* ===== verification/Prelude.v ===== *)
(** * A verification development of p2wsh-utxo

    The program has two crates.  The library ([src/src/lib.rs]) declares
    the output record [UTXO], packs (block height, position in block,
    output index) into a 64-bit short channel id ([UTXO::scid],
    [scid_from_parts]) and exposes [UTXOResults], which decodes an
    embedded bincode artifact.  The binary ([src/src/bin/main.rs]) reads a
    UTXO dump (CSV with headers) into a [HashMap] from txid to the outputs
    of that transaction, streams a position dump (CSV without headers)
    against it, builds one [UTXO] per (position row, matching output) and
    writes them as JSON parts of 10000 records or as one bincode file.
    The binary's file is meant to be the library's embedded artifact.

    Files, in dependency order, and what they model:
    - [Prelude] (this file): Rust's [Result] as [result] with [?] as
      [x <-? r ;; k]; the state-and-error monad [StE] in which [main] runs
      (an [Err] keeps the state reached, as parts written stay on disk);
      machine integers as [Z] with [fits]/[wrap]; the [i32] increment
      [i32_incr] with the build profile's overflow behaviour (panic with
      overflow checks, wrap-around without); the tactics [zlia], [run_ste];
      the hint databases [p2wsh] and [p2wsh_rw]; the equations of string
      append, which stdpp keeps folded under [simpl].
    - [Types]: [UTXO] (lib.rs 12-21), [UtxoDump.t] and [IterateDump.t]
      (main.rs 9-21) as Records over [Z] and [string], with their Rust
      field types as the boolean well-formedness [UTXO_wf], [UtxoDump.wf],
      [IterateDump.wf] (integer widths, and [string_wf]: a [String] is
      UTF-8 with a [usize] length); the run's error type.
    - [Scid]: [scid_from_parts] and [scid] (lib.rs 27-38) with [<<] as
      [Z.shiftl] truncated to 64 bits and [|] as [Z.lor]; [scid_bolt7],
      the BOLT #7 layout (3 bytes of height, 3 of position, 2 of output,
      big-endian), as the reference the bit operations are compared with.
    - [Index]: the loading loop of main.rs 46-67: [insert_utxo] (the
      lookup, clone, push and insert) and [load_utxo_dump] (the
      [for result in ... deserialize()] with its [result?]); the map is a
      stdpp [gmap string (list UtxoDump.t)].  The class [IndexOf] is the
      contract the pipeline relies on (grouping by txid, [index_spec]).
    - [Pipeline]: the rest of [main] (main.rs 37-150) in [StE State error]:
      [State] holds the locals [scrape_results], [i], [found], [part], the
      output directory [fs] and the printed lines; [push_result] is the
      body of the inner loop with its flush every [BATCH] = 10000 records,
      [count_row] the row counter and progress line, [analyze_row]/
      [analyze] the outer loop, [finish] the final write and
      reports, [main] the whole function with [args] indexing.  The CSV
      readers and [File::create] are Section variables, so every theorem
      holds for every input the readers may produce.
    - [PipelineProofs]: the specification of the run ([join_spec]: the
      records in order; [write_parts]: the directory of JSON parts) and
      the proofs about [main].
    - [Batch]: the emission loop as a state machine: the Inductive
      [reachable] closes the loop's start state under its two steps
      ([count_row], [push_result]) in either build profile; the batch
      invariant is proved by rule induction.  The Inductive [within] is a
      bounded eventually: a property holds now, or every next record can
      be pushed and leads to a state where it holds within one step less.
    - [Bincode]: bincode 1.x's default format for the types the program
      uses (fixed-width little-endian integers, [u64] lengths, [u8] option
      tags) as encoders to [list byte] and decoders in a reader [Dec];
      [serialize_UTXO]/[deserialize_UTXO] are the derives of lib.rs 12-21
      with [skip_serializing_if]; [serialize_results] is main.rs 139;
      [UTXOResults_new] is lib.rs 53-58.  The type classes [Codec] and
      [CodecLaws] state what an element codec promises a container; the
      [Vec] instance is proved once for every lawful element codec.  The
      unit test [returns_results] (lib.rs 84-96) is [returns_results].
    - [Json]: the JSON output at the level of serde's data model: the
      value [to_json_UTXO] the derived [Serialize] writes (absent options
      left out), and the derived [Deserialize] as [from_json_UTXO]:
      [visit_map] ([field_of_key] is the derive's [__Field] visitor, the
      [slots] its locals, duplicate and missing fields errors, unknown
      keys ignored) and [visit_seq].
    - [JsonText]: the text [serde_json::to_writer_pretty] writes for such
      a value: [json_print] is [PrettyFormatter] (two-space indentation,
      [,] and a new line between elements, [: ] after a key, [[]] and
      [{}] for empty containers), [escape_char] the [ESCAPE] table of
      [format_escaped_str], [print_Z] [itoa]; [json_text] is the text of
      a part file.  [parse_json] is a reader of the JSON grammar with
      fuel, the specification the text is read back with.
    - [Csv]: the [csv] crate as main.rs 48-52 and 69-80 use it.
      [CsvCore] is csv-core's record automaton for the default reader
      ([trans] over the states of [NfaState]; [records] over a text).
      [RustInt] is [from_str_radix] with csv's [0x] prefix ([parse_field]).
      [CsvRead] is the [Reader]: the header row, the equal-length and
      UTF-8 checks ([check_record]), and the derived [Deserialize] of
      [UtxoDump] by header name ([visit_map], [finish_utxo]) and of
      [IterateDump] by position.  [read_utxo_dump_csv] and
      [read_bitcoin_iterate_csv] read a directory of file contents; they
      are what [main] takes as its reader parameters.  [CsvWrite] (a
      writer that quotes every field) and [CsvRef] (splitting text without
      quotes) are the references the readers are checked against.
    - [Artifact]: the artifacts of a run read back: [bin_bytes] is the
      byte string of the binary file, [read_json_parts] reads the text of
      the parts in order with [parse_json] and decodes it; the theorems
      compose [main] with the codecs.
    - [Output]: what reaches the disk through the writes of main.rs
      114-118, 132-134 and 137-139.  [Disk] is a directory of byte files
      on a device with [free] bytes left: [file_create] ([File::create],
      truncating), [file_write] ([File::write], writing what fits, failing
      with [StorageFull] when nothing does) and [write_loop], std's retry
      loop; [disk_append] is the reference, an unbuffered append that
      keeps the bytes that fit.  [BufWriter] is std's buffered writer with
      [DEFAULT_BUF_SIZE] = 8192 as a state [W] (buffer, disk) in [StE]:
      [flush_buf], [write_all] with its fast path and [write_all_cold],
      and [drop], which flushes and ignores the result.  [Emit] is the
      serializer as a sequence of [write_all] calls over any
      fragmentation of its text ([write_pieces]), one call with its
      writer moved in and dropped ([to_writer]), the write of one artifact
      with its two [unwrap]s ([write_file]) and the parts of a run in
      order ([write_parts_disk]).
    - [Run]: [main] with the CSV readers of Csv.v, from the text of the
      two dumps to the text of the JSON parts.

    The theorems, by group:
    - the whole program, text to text ([Run]): on dumps holding the CSV
      text of well-formed rows, a JSON run succeeds and the text of its
      parts reads back as the join;
    - the CSV readers: the text a quoting writer writes reads back as the
      rows; every row read as [Ok] is a value of its Rust type; a row is
      read only when the header names each of the four fields once; on
      text without quotes the automaton is plain splitting;
    - the run: [main_refines] (main, on readable inputs with counters in
      range, succeeds and writes exactly the join, in parts of 10000 in
      JSON mode, one file in bin mode, nothing otherwise); the JSON part
      sizes; the minimization switch; row misses; the first malformed row
      of either dump ending the run with its error; the unknown-format and
      counter-overflow behaviours; unreadable inputs, an uncreatable output
      file, missing arguments and the type of every emitted record are
      lemmas of PipelineProofs.v (as are the three-row scenario and the
      10000/10001 boundary);
    - the batch: in JSON mode every reachable state holds fewer than
      10000 records (exactly [batch_len found]), in both profiles; in any
      other mode it holds every record counted; a release build past 2^31
      records writes a part of 7296; from every reachable JSON-mode state
      with the counters in range a flush is reached within 10000 pushes;
    - the index: [load_utxo_dump] refines grouping by key, stops at the
      first error, and keeps the invariant that no txid maps to an empty
      vector;
    - the locator: round trip of the three fields when the height is below
      2^24, the aliasing of heights 2^24 apart, the lexicographic order of
      the packed values, equality with the BOLT #7 byte layout, and the
      unit test of lib.rs (an Example, as is [returns_results_passes]);
    - the bincode artifact: the round trip of full records, the failure
      to decode any minimized artifact, and the mismatch between the [Vec]
      written by main.rs 139 and the [Option<Vec>] read by lib.rs 54
      (which does load the bytes of a [Some] vector); each also end to end,
      on the file [main] writes;
    - the JSON artifact: the round trip of every well-formed record with
      presence kept, independence of key order (a [Proper] instance for
      permutation of the fields), rejection of a field named twice; the
      text of every JSON value reads back as the value ([json_pretty_parse]);
      end to end the text of the parts of a run read back in order gives
      the join;
    - the disk ([Output]): the outcomes of [write_all] as an Inductive
      relation; a flush loses and duplicates no byte and fails exactly when
      the buffer outgrows the space left; a buffered write refines the
      unbuffered append
      (the disk once flushed), fails only when its data outgrow the room
      left, loses no byte when it succeeds, and keeps the buffer within
      its capacity; so one serializer call leaves in its file the first
      [free] bytes of its text, whatever the fragmentation; it succeeds
      when the text fits, and also whenever the text is shorter than 8192
      bytes (the error of the last buffer is dropped: the finding), and it
      fails, so [main] panics, when the text exceeds the free space by more
      than a buffer; composed with [main], a JSON run's parts written in
      order onto a disk with room for them leave exactly the bytes of the
      directory the run describes;
    - the push that takes [found] past [i32::MAX]: a panic with overflow
      checks, a wrap to [i32::MIN] without, the record kept and nothing
      written.  The fuel of the sequence decoder and of std's write loop is
      justified by lemmas ([read_seq_fuel], [write_loop_spec]), not listed
      as properties.

    Bounds and fuel.  The counters [i], [found], [part] are [i32]
    (Rust's default, nothing constrains them), so the theorems about a
    whole run assume fewer than 2^31 - 1 rows and matched records; the
    overflow itself is a theorem.  [BATCH] is the literal 10000 of main.rs
    113.  The sequence decoder [read_seq] takes fuel; [read_vec] gives it
    one more than the remaining input, which is enough because every
    element decode consumes a byte ([read_seq_fuel]).  Lengths are below
    2^64 where a [u64] length prefix is written.  The JSON reader
    [parse_value] takes fuel; [parse_json] gives it the length of the text,
    enough because the fuel a value needs ([json_size], one per node and
    per element) is at most the length of its text
    ([json_size_le_length]).  The CSV automaton and the
    integer parser recurse on the text, so they need no fuel; a field is
    a [String] only if its length fits a [usize], which holds for any
    dump shorter than [2^64] bytes, the hypothesis of
    [csv_rows_well_typed].

    The readers are Section variables of Pipeline.v, so the theorems
    about [main] hold for any reader; Csv.v supplies the [csv] crate's.
    The crate's version is not pinned in the sources: the model follows
    csv 1.x and csv-core 0.1 with the default [ReaderBuilder].

    Not modelled: a UTF-8 byte-order mark at the start of a dump; the
    record positions csv puts in its error messages (the messages name
    the kind of error only); read errors after a dump is opened;
    the [\u] escapes serde_json reads but never writes for these values
    (the reader takes them for ASCII code points only);
    the contents of [p2wsh-utxo.bin] (the decoder is applied to any byte
    string); [println!] failures (a closed stdout panics); interrupted
    writes, which std retries; the exact fragmentation serde_json and
    bincode give their text (every theorem holds for all of them).  The
    [fs] of Pipeline.v keeps the vector handed to the serializer; Output.v
    gives its bytes on a disk of finite space.

    Bounds on the disk.  [write_loop] takes fuel; [flush_buf] and
    [write_all] give it the length of the data, enough because every round
    writes a byte or stops ([write_loop_spec]).  The buffer capacity is
    [DEFAULT_BUF_SIZE] = 8 * 1024, std's value on every target but espidf. *)

From stdpp Require Export base list gmap strings pretty.
From Stdlib Require Export ZArith Lia.

Declare Scope p2wsh_scope.
Delimit Scope p2wsh_scope with p2wsh.
Open Scope p2wsh_scope.

(** ** Rust's [Result<T, E>] and the [?] operator *)

Inductive result (E A : Type) : Type :=
| Ok (a : A)
| Err (e : E).
Arguments Ok {E A} a.
Arguments Err {E A} e.

Definition rbind {E A B} (r : result E A) (k : A -> result E B) : result E B :=
  match r with
  | Ok a => k a
  | Err e => Err e
  end.

Notation "x <-? r ;; k" := (rbind r (fun x => k))
  (at level 100, r at next level, right associativity) : p2wsh_scope.

(** ** A state-and-error monad: on failure the state reached so far is kept,
    as files already written stay on disk when [main] returns [Err]. *)

Definition StE (S E A : Type) : Type := S -> S * result E A.

Definition sret {S E A} (a : A) : StE S E A := fun s => (s, Ok a).

Definition sbind {S E A B} (m : StE S E A) (k : A -> StE S E B) : StE S E B :=
  fun s =>
    match m s with
    | (s', Ok a) => k a s'
    | (s', Err e) => (s', Err e)
    end.

Definition sget {S E} : StE S E S := fun s => (s, Ok s).
Definition sput {S E} (s : S) : StE S E unit := fun _ => (s, Ok tt).
Definition smodify {S E} (f : S -> S) : StE S E unit := fun s => (f s, Ok tt).
Definition sthrow {S E A} (e : E) : StE S E A := fun s => (s, Err e).
Definition slift {S E A} (r : result E A) : StE S E A :=
  fun s => (s, r).

Notation "x <- m ;; k" := (sbind m (fun x => k))
  (at level 100, m at next level, right associativity) : p2wsh_scope.
Notation "m ;;; k" := (sbind m (fun _ => k))
  (at level 100, right associativity) : p2wsh_scope.

(** ** Machine integers *)

Open Scope Z_scope.

(** [fits w z]: [z] is a value of an unsigned [w]-bit type. *)
Definition fits (w z : Z) : bool := (0 <=? z) && (z <? 2 ^ w).

(** Unsigned wrap-around at width [w] (Rust's [<<] on [u64] drops the bits
    shifted out). *)
Definition wrap (w z : Z) : Z := z mod 2 ^ w.

Definition i32_MIN : Z := - 2 ^ 31.
Definition i32_MAX : Z := 2 ^ 31 - 1.

(** [x += 1] on an [i32]: with overflow checks (the debug profile) the
    addition panics at [i32::MAX]; without them (the release profile) it
    wraps to [i32::MIN]. *)
Definition i32_incr (overflow_checks : bool) (x : Z) : option Z :=
  if x =? i32_MAX then (if overflow_checks then None else Some i32_MIN)
  else Some (x + 1).

(** Constant powers of two, so that [lia] sees numerals. *)
Ltac zpow :=
  repeat match goal with
         | |- context [2 ^ ?n] =>
             let c := eval vm_compute in (2 ^ n) in change (2 ^ n) with c
         end;
  repeat match goal with
         | H : context [2 ^ ?n] |- _ =>
             let c := eval vm_compute in (2 ^ n) in change (2 ^ n) with c in H
         end.

(** Turn [fits] facts into ranges. *)
Ltac unfold_fits :=
  repeat match goal with
         | H : fits _ _ = true |- _ =>
             unfold fits in H; apply andb_prop in H as [?%Z.leb_le ?%Z.ltb_lt]
         | |- fits _ _ = true =>
             unfold fits; apply andb_true_intro; split; [apply Z.leb_le | apply Z.ltb_lt]
         end.

(** [lia] after unfolding the integer bounds, evaluating constant powers and
    turning [/], [mod], [Z.quot] and [Z.rem] into equations. *)
Ltac zlia :=
  unfold i32_MAX, i32_MIN in *; zpow;
  Z.quot_rem_to_equations; Z.div_mod_to_equations; lia.

(** Unfold the monad operations of [StE] and reduce. *)
Ltac run_ste := cbv [sbind sret sget sput smodify sthrow slift] in *.

Create HintDb p2wsh.
Create Rewrite HintDb p2wsh_rw.

Lemma fits_range w z : fits w z = true <-> 0 <= z < 2 ^ w.
Proof.
  unfold fits. rewrite andb_true_iff, Z.leb_le, Z.ltb_lt. tauto.
Qed.

Lemma wrap_small w z : 0 <= z < 2 ^ w -> wrap w z = z.
Proof. intros. unfold wrap. apply Z.mod_small. lia. Qed.

Lemma wrap_range w z : 0 <= w -> 0 <= wrap w z < 2 ^ w.
Proof. intros. unfold wrap. apply Z.mod_pos_bound, Z.pow_pos_nonneg; lia. Qed.

(** The bits of a value below [2^n] are the low [n] bits. *)
Lemma testbit_small_high c n i :
  0 <= c < 2 ^ n -> n <= i -> Z.testbit c i = false.
Proof.
  intros Hc Hi. destruct (Z.eq_dec c 0) as [->|Hc0]; [apply Z.bits_0|].
  apply Z.bits_above_log2; [lia|].
  pose proof (proj1 (Z.log2_lt_pow2 c n ltac:(lia)) (proj2 Hc)). lia.
Qed.

(** A value shifted above [n] and a value below [2^n] have disjoint bits,
    so their [lor] is their sum. *)
Lemma lor_mul_pow2_disjoint a c n :
  0 <= n -> 0 <= c < 2 ^ n -> Z.lor (a * 2 ^ n) c = a * 2 ^ n + c.
Proof.
  intros Hn Hc. symmetry. apply Z.add_nocarry_lor.
  apply Z.bits_inj_0. intros i. rewrite Z.land_spec.
  destruct (Z.lt_ge_cases i n).
  - rewrite Z.mul_pow2_bits_low by lia. reflexivity.
  - rewrite (testbit_small_high c n i) by lia. apply andb_false_r.
Qed.

(** ** Monad laws, used by rewriting *)

Lemma rbind_Ok {E A B} (a : A) (k : A -> result E B) : rbind (Ok a) k = k a.
Proof. reflexivity. Qed.

Lemma rbind_Err {E A B} (e : E) (k : A -> result E B) : rbind (Err e) k = Err e.
Proof. reflexivity. Qed.

Lemma sbind_run {S E A B} (m : StE S E A) (k : A -> StE S E B) s :
  sbind m k s = match m s with
                | (s', Ok a) => k a s'
                | (s', Err e) => (s', Err e)
                end.
Proof. reflexivity. Qed.

Lemma sbind_ok {S E A B} (m : StE S E A) (k : A -> StE S E B) s s' a :
  m s = (s', Ok a) -> sbind m k s = k a s'.
Proof. intros H. unfold sbind. rewrite H. reflexivity. Qed.

Lemma sbind_err {S E A B} (m : StE S E A) (k : A -> StE S E B) s s' e :
  m s = (s', Err e) -> sbind m k s = (s', Err e).
Proof. intros H. unfold sbind. rewrite H. reflexivity. Qed.

Lemma rbind_Ok_inv {E A B} (r : result E A) (k : A -> result E B) b :
  rbind r k = Ok b -> exists a, r = Ok a /\ k a = Ok b.
Proof. destruct r as [a|e]; cbn; [eauto | discriminate]. Qed.

#[export] Hint Rewrite @rbind_Ok @rbind_Err : p2wsh_rw.
#[export] Hint Resolve wrap_small wrap_range : p2wsh.

(** A value [hi * 2^n + lo] with [lo] below [2^n] splits back by division
    and remainder. *)
Lemma div_pow2_split hi lo n :
  0 <= n -> 0 <= lo < 2 ^ n -> (hi * 2 ^ n + lo) / 2 ^ n = hi.
Proof.
  intros Hn Hlo. symmetry. apply (Z.div_unique_pos _ _ _ lo); lia.
Qed.

Lemma mod_pow2_split hi lo n :
  0 <= n -> 0 <= lo < 2 ^ n -> (hi * 2 ^ n + lo) mod 2 ^ n = lo.
Proof.
  intros Hn Hlo. symmetry. apply (Z.mod_unique_pos _ _ hi); lia.
Qed.

#[export] Hint Rewrite div_pow2_split mod_pow2_split using (zpow; lia) : p2wsh_rw.

(** ** Strings *)

Lemma length_string_app (s t : string) :
  String.length (s +:+ t) = (String.length s + String.length t)%nat.
Proof. induction s; simpl; auto. Qed.

(** stdpp makes [simpl] leave [+:+] folded; these are its equations. *)
Lemma string_app_nil_l (t : string) : EmptyString +:+ t = t.
Proof. reflexivity. Qed.

Lemma string_app_cons a (s t : string) : String a s +:+ t = String a (s +:+ t).
Proof. reflexivity. Qed.

Lemma string_app_assoc (s t u : string) : (s +:+ t) +:+ u = s +:+ (t +:+ u).
Proof.
  induction s as [|a s IH]; [reflexivity|].
  rewrite !string_app_cons, IH. reflexivity.
Qed.

Lemma string_app_nil_r (s : string) : s +:+ EmptyString = s.
Proof. induction s as [|a s IH]; [reflexivity|]. rewrite string_app_cons, IH. reflexivity. Qed.

#[export] Hint Rewrite string_app_nil_l string_app_cons string_app_assoc string_app_nil_r : p2wsh_rw.

(** Appending the same suffix is injective. *)
Lemma string_app_inj_r (s1 s2 t : string) : s1 +:+ t = s2 +:+ t -> s1 = s2.
Proof.
  intros H. assert (Hl : String.length s1 = String.length s2).
  { apply (f_equal String.length) in H. rewrite !length_string_app in H. lia. }
  revert s2 H Hl. induction s1 as [|c s1 IH]; intros [|c' s2] H Hl; simpl in *;
    try discriminate; auto.
  injection H as -> H. f_equal. apply IH; auto.
Qed.
