(* ===== verification/Types.v ===== *)
(** * Types: the records of the program and their field widths

    [UTXO] is the output record of the library crate (lib.rs 12-21);
    [UtxoDump.t] and [IterateDump.t] are the rows of the two CSV dumps read
    by the binary (main.rs 9-21).  Integers are [Z] with their Rust width
    recorded by [fits]: [u16], [u32], and [usize], which is 64 bits on the
    targets the tool runs on.  Rust [String]s are [string]s whose bytes
    are valid UTF-8 ([string_wf]), which [String] guarantees. *)

From S2P Require Import Prelude.
From Stdlib Require Import Strings.Byte.

Open Scope Z_scope.

(** Widths of the Rust integer types used by the records. *)
Definition U16_BITS : Z := 16.
Definition U32_BITS : Z := 32.
Definition USIZE_BITS : Z := 64.

(** ** Rust strings *)

Definition byte_val (b : byte) : Z := Z.of_N (Byte.to_N b).

Definition in_range (lo hi : Z) (b : byte) : bool := (lo <=? byte_val b) && (byte_val b <=? hi).

(** The well-formed UTF-8 sequences of the Unicode standard (Table 3-7),
    which [String::from_utf8] accepts. *)
Fixpoint utf8_valid (bs : list byte) : bool :=
  match bs with
  | [] => true
  | b :: rest =>
      if byte_val b <? 128 then utf8_valid rest
      else if in_range 194 223 b then
        match rest with
        | c1 :: rest => in_range 128 191 c1 && utf8_valid rest
        | _ => false
        end
      else if in_range 224 239 b then
        match rest with
        | c1 :: c2 :: rest =>
            in_range (if byte_val b =? 224 then 160 else 128)
                     (if byte_val b =? 237 then 159 else 191) c1
            && in_range 128 191 c2 && utf8_valid rest
        | _ => false
        end
      else if in_range 240 244 b then
        match rest with
        | c1 :: c2 :: c3 :: rest =>
            in_range (if byte_val b =? 240 then 144 else 128)
                     (if byte_val b =? 244 then 143 else 191) c1
            && in_range 128 191 c2 && in_range 128 191 c3 && utf8_valid rest
        | _ => false
        end
      else false
  end.

Definition string_bytes (s : string) : list byte := String.list_byte_of_string s.

(** A value of Rust's [String]: UTF-8, with a [usize] length. *)
Definition string_wf (s : string) : bool :=
  utf8_valid (string_bytes s) && fits USIZE_BITS (Z.of_nat (length (string_bytes s))).

(** [MAX_SCID_VOUT_INDEX] (lib.rs 5). *)
Definition MAX_SCID_VOUT_INDEX : Z := 65535.

(** ** [pub struct UTXO] *)
Record UTXO := mkUTXO {
  block_height : Z;            (* u32 *)
  id : option string;          (* Option<String> *)
  block_index : Z;             (* u16 *)
  transaction_index : Z;       (* u16 *)
  amount : option Z            (* Option<usize> *)
}.

#[export] Instance UTXO_eq_dec : EqDecision UTXO.
Proof. solve_decision. Defined.

(** Every field holds a value of its Rust type. *)
Definition UTXO_wf (u : UTXO) : bool :=
  fits U32_BITS (block_height u) && fits U16_BITS (block_index u)
  && fits U16_BITS (transaction_index u)
  && match amount u with Some a => fits USIZE_BITS a | None => true end
  && match id u with Some s => string_wf s | None => true end.

(** ** [struct UtxoDump]: one row of the UTXO snapshot (with header row). *)
Module UtxoDump.
Record t := mk {
  txid : string;               (* String *)
  vout : Z;                    (* u16 *)
  height : Z;                  (* u32 *)
  amount : Z                   (* usize *)
}.

#[export] Instance eq_dec : EqDecision t.
Proof. solve_decision. Defined.

Definition wf (u : t) : bool :=
  string_wf (txid u) && fits U16_BITS (vout u) && fits U32_BITS (height u)
  && fits USIZE_BITS (amount u).
End UtxoDump.

(** ** [struct IterateDump]: one row of the position dump (no header row). *)
Module IterateDump.
Record t := mk {
  txid : string;               (* String *)
  tx_height : Z                (* u16: position of the transaction in its block *)
}.

#[export] Instance eq_dec : EqDecision t.
Proof. solve_decision. Defined.

Definition wf (r : t) : bool := string_wf (txid r) && fits U16_BITS (tx_height r).
End IterateDump.

(** ** Errors of the binary ([anyhow::Error] and panics)

    [CsvError]: a row of a dump that does not deserialize (the [result?] of
    main.rs 52 and 80); [IoError]: an input path that cannot be opened
    (main.rs 48 and 71); [Panic]: an [unwrap] on a failed file creation or
    write, an index out of range on the arguments, or an [i32] overflow
    with overflow checks on. *)
Inductive error :=
| CsvError (msg : string)
| IoError (path : string)
| Panic (msg : string).

#[export] Instance error_eq_dec : EqDecision error.
Proof. solve_decision. Defined.

(** ** Lemmas *)

(** The fields of a well-formed [UTXO] are within their widths. *)
Lemma UTXO_wf_ranges u :
  UTXO_wf u = true ->
  0 <= block_height u < 2 ^ 32 /\ 0 <= block_index u < 2 ^ 16 /\
  0 <= transaction_index u < 2 ^ 16 /\
  (forall a, amount u = Some a -> 0 <= a < 2 ^ 64).
Proof.
  unfold UTXO_wf. destruct (amount u) as [x|] eqn:E; intros H;
    repeat (apply andb_prop in H as [H ?]); unfold_fits;
    unfold U32_BITS, U16_BITS, USIZE_BITS in *;
    (split; [lia|]; split; [lia|]; split; [lia|]);
    intros y Hy; inversion Hy; subst; lia.
Qed.

Lemma UTXO_wf_id u s : UTXO_wf u = true -> id u = Some s -> string_wf s = true.
Proof.
  unfold UTXO_wf. intros H Hs. rewrite Hs in H.
  repeat (apply andb_prop in H as [H ?]). assumption.
Qed.

Lemma string_wf_spec s :
  string_wf s = true ->
  utf8_valid (string_bytes s) = true /\ Z.of_nat (length (string_bytes s)) < 2 ^ 64.
Proof.
  unfold string_wf. intros H. apply andb_prop in H as [H1 H2].
  unfold_fits. unfold USIZE_BITS in *. split; [exact H1 | lia].
Qed.
