(* ===== verification/Scid.v ===== *)
(** * Scid: the short-channel-id locator of lib.rs

    [scid_from_parts] is lib.rs 36-38, [(block << 40) | (tx_index << 16) |
    vout_index] on [u64]: the shifts drop the bits moved past bit 63, the
    [|] of two [u64] stays below [2^64].  [scid] is [UTXO::scid]
    (lib.rs 27-33); its [as u64] casts widen [u32]/[u16] values and do not
    change them.

    The decoders [scid_block], [scid_tx] and [scid_vout] are the
    specification's "bit-shifting back out" (BOLT #7 layout: 24 bits of
    block, 24 bits of position, 16 bits of output index); the code has no
    decoder.  The theorems show the packed form as arithmetic (a [u64]),
    the round trip for heights below [2^24], the truncation of larger
    heights, that the packing preserves the lexicographic order, and that
    for positions below [2^24] and outputs below [2^16] it is the BOLT #7
    byte layout [scid_bolt7] written with bytes, not shifts. *)

From S2P Require Import Prelude Types.

Open Scope Z_scope.

(** ** The code *)

Definition scid_from_parts (block tx_index vout_index : Z) : Z :=
  Z.lor (Z.lor (wrap 64 (Z.shiftl block 40)) (wrap 64 (Z.shiftl tx_index 16)))
        vout_index.

Definition scid (u : UTXO) : Z :=
  scid_from_parts (block_height u) (block_index u) (transaction_index u).

(** ** The specification's decoders *)

Definition scid_block (s : Z) : Z := Z.shiftr s 40.
Definition scid_tx (s : Z) : Z := Z.land (Z.shiftr s 16) (Z.ones 24).
Definition scid_vout (s : Z) : Z := Z.land s (Z.ones 16).

(** The BOLT #7 layout of a short channel id as bytes: three big-endian
    bytes of block height, three of position, two of output index, read as
    one big-endian number.  It is the reference the bit operations of
    [scid_from_parts] are checked against. *)
Fixpoint be_bytes (n : nat) (z : Z) : list Z :=
  match n with
  | O => []
  | S n => be_bytes n (z / 256) ++ [z mod 256]
  end.

Definition be_value (bs : list Z) : Z := fold_left (fun acc b => acc * 256 + b) bs 0.

Definition scid_bolt7 (block tx_index vout_index : Z) : Z :=
  be_value (be_bytes 3 block ++ be_bytes 3 tx_index ++ be_bytes 2 vout_index).

(** The record of the unit test [scid_test] (lib.rs 72-78). *)
Definition utxo_test : UTXO :=
  {| block_height := 691709; id := None; block_index := 1160;
     transaction_index := 1; amount := None |}.

(** The assertion of [scid_test] (lib.rs 70-82):
    [assert_eq!(760542088613330945, utxo1.scid())]. *)
Definition scid_test_assert : bool := Z.eqb 760542088613330945 (scid utxo_test).

(** The next output of the same transaction. *)
Definition utxo_test_next : UTXO :=
  {| block_height := 691709; id := None; block_index := 1160;
     transaction_index := 2; amount := None |}.

(** ** The packed value as arithmetic *)

Lemma wrap64_shiftl_40 b : wrap 64 (Z.shiftl b 40) = (b mod 2 ^ 24) * 2 ^ 40.
Proof.
  unfold wrap. rewrite Z.shiftl_mul_pow2 by lia.
  change (2 ^ 64) with (2 ^ 24 * 2 ^ 40).
  apply Z.mul_mod_distr_r; zpow; lia.
Qed.

(** For a position and an output index within their 24 and 16 bits, the
    packed value is [((block mod 2^24) * 2^24 + tx) * 2^16 + vout]: the
    three fields do not overlap and only the block height can lose bits. *)
Lemma scid_from_parts_arith b t v :
  0 <= t < 2 ^ 24 -> 0 <= v < 2 ^ 16 ->
  scid_from_parts b t v = ((b mod 2 ^ 24) * 2 ^ 24 + t) * 2 ^ 16 + v.
Proof.
  intros Ht Hv. unfold scid_from_parts.
  rewrite wrap64_shiftl_40, Z.shiftl_mul_pow2 by lia.
  rewrite wrap_small by (zpow; lia).
  assert (0 <= b mod 2 ^ 24 < 2 ^ 24) by (apply Z.mod_pos_bound; lia).
  rewrite lor_mul_pow2_disjoint by (zpow; lia).
  replace ((b mod 2 ^ 24) * 2 ^ 40 + t * 2 ^ 16)
    with (((b mod 2 ^ 24) * 2 ^ 24 + t) * 2 ^ 16) by (zpow; lia).
  apply lor_mul_pow2_disjoint; lia.
Qed.

Lemma scid_arith u :
  UTXO_wf u = true ->
  scid u = ((block_height u mod 2 ^ 24) * 2 ^ 24 + block_index u) * 2 ^ 16
           + transaction_index u.
Proof.
  intros Hwf. pose proof (UTXO_wf_ranges u Hwf).
  unfold scid. apply scid_from_parts_arith; zpow; lia.
Qed.

(** Decoding the arithmetic form. *)
Lemma scid_decode_arith hb t v :
  0 <= hb < 2 ^ 24 -> 0 <= t < 2 ^ 24 -> 0 <= v < 2 ^ 16 ->
  let s := (hb * 2 ^ 24 + t) * 2 ^ 16 + v in
  scid_block s = hb /\ scid_tx s = t /\ scid_vout s = v.
Proof.
  intros Hb Ht Hv s. subst s.
  unfold scid_block, scid_tx, scid_vout.
  rewrite !Z.shiftr_div_pow2, !Z.land_ones by lia.
  change (2 ^ 40) with (2 ^ 16 * 2 ^ 24).
  rewrite <- Z.div_div by lia.
  autorewrite with p2wsh_rw. auto.
Qed.

(** Only the low 24 bits of the block height reach the packed value. *)
Lemma scid_from_parts_block_mod b t v :
  scid_from_parts b t v = scid_from_parts (b mod 2 ^ 24) t v.
Proof.
  unfold scid_from_parts. rewrite !wrap64_shiftl_40, Z.mod_mod by lia.
  reflexivity.
Qed.

Lemma scid_fields_ranges u :
  UTXO_wf u = true ->
  0 <= block_height u mod 2 ^ 24 < 2 ^ 24 /\ 0 <= block_index u < 2 ^ 24 /\
  0 <= transaction_index u < 2 ^ 16.
Proof.
  intros Hwf. pose proof (UTXO_wf_ranges u Hwf).
  pose proof (Z.mod_pos_bound (block_height u) (2 ^ 24) ltac:(lia)).
  zpow. lia.
Qed.

(** ** The byte layout *)

Lemma be_value_acc bs acc :
  fold_left (fun acc b => acc * 256 + b) bs acc = acc * 256 ^ Z.of_nat (length bs) + be_value bs.
Proof.
  unfold be_value. revert acc. induction bs as [|b bs IH]; intros acc; simpl; [lia|].
  rewrite IH, (IH (0 * 256 + b)). rewrite Nat2Z.inj_succ, Z.pow_succ_r by lia. lia.
Qed.

Lemma be_value_app xs ys :
  be_value (xs ++ ys) = be_value xs * 256 ^ Z.of_nat (length ys) + be_value ys.
Proof. unfold be_value at 1. rewrite fold_left_app. apply be_value_acc. Qed.

Lemma length_be_bytes n z : length (be_bytes n z) = n.
Proof. revert z. induction n; intros z; simpl; [|rewrite length_app, IHn; simpl]; lia. Qed.

Lemma be_value_bytes n z : be_value (be_bytes n z) = z mod 256 ^ Z.of_nat n.
Proof.
  revert z. induction n as [|n IH]; intros z; [simpl; rewrite Z.mod_1_r; reflexivity|].
  cbn [be_bytes]. rewrite be_value_app, IH. simpl length. unfold be_value. simpl.
  replace (256 ^ Z.of_nat (S n)) with (256 * 256 ^ Z.of_nat n)
    by (rewrite Nat2Z.inj_succ, Z.pow_succ_r; lia).
  rewrite Z.rem_mul_r by lia. lia.
Qed.

(** ** Theorems *)

(** C4: decoding the packed value of a well-formed [UTXO] whose block height
    is below [2^24] by shifting the fields back out gives the height, the
    position and the output index back (the specification's round-trip
    law). *)
Theorem scid_roundtrip u :
  UTXO_wf u = true -> block_height u < 2 ^ 24 ->
  scid_block (scid u) = block_height u /\ scid_tx (scid u) = block_index u /\
  scid_vout (scid u) = transaction_index u.
Proof.
  intros Hwf Hh. rewrite scid_arith by exact Hwf.
  destruct (scid_fields_ranges u Hwf) as (Hb & Ht & Hv).
  rewrite (Z.mod_small (block_height u)) in * by (pose proof (UTXO_wf_ranges u Hwf); lia).
  apply scid_decode_arith; assumption.
Qed.

(** C35: a [u32] block height is packed into 24 bits: two outputs whose
    heights differ by [2^24] get the same short channel id, and the height
    decoded back is the height modulo [2^24]. *)
Theorem scid_height_alias u :
  scid {| block_height := block_height u + 2 ^ 24; id := id u;
          block_index := block_index u; transaction_index := transaction_index u;
          amount := amount u |} = scid u.
Proof.
  unfold scid. simpl. rewrite (scid_from_parts_block_mod (block_height u + _)).
  rewrite (scid_from_parts_block_mod (block_height u)).
  rewrite Z.add_mod, Z.mod_same, Z.add_0_r, Z.mod_mod by lia. reflexivity.
Qed.

(** C5: for well-formed outputs with heights below [2^24], comparing short
    channel ids compares (height, position, output index)
    lexicographically, which is what makes the value sortable. *)
Theorem scid_lex_order u1 u2 :
  UTXO_wf u1 = true -> UTXO_wf u2 = true ->
  block_height u1 < 2 ^ 24 -> block_height u2 < 2 ^ 24 ->
  (scid u1 < scid u2 <->
   block_height u1 < block_height u2 \/
   (block_height u1 = block_height u2 /\
    (block_index u1 < block_index u2 \/
     (block_index u1 = block_index u2 /\ transaction_index u1 < transaction_index u2)))).
Proof.
  intros Hw1 Hw2 Hh1 Hh2.
  rewrite (scid_arith u1 Hw1), (scid_arith u2 Hw2).
  pose proof (UTXO_wf_ranges u1 Hw1). pose proof (UTXO_wf_ranges u2 Hw2).
  rewrite !Z.mod_small by lia. zpow. lia.
Qed.

(** The unit test [scid_test] of lib.rs passes. *)
Example scid_test : scid_test_assert = true.
Proof. reflexivity. Qed.

(** C6: the bit operations of [scid_from_parts] compute the BOLT #7 byte
    layout: for a position below [2^24] and an output index below [2^16],
    the packed value is the big-endian reading of three bytes of block
    height, three of position and two of output index (so the block height
    keeps its low three bytes). *)
Theorem scid_from_parts_bolt7 b t v :
  0 <= t < 2 ^ 24 -> 0 <= v < 2 ^ 16 -> scid_from_parts b t v = scid_bolt7 b t v.
Proof.
  intros Ht Hv. rewrite scid_from_parts_arith by assumption. unfold scid_bolt7.
  rewrite !be_value_app, !length_app, !length_be_bytes, !be_value_bytes.
  replace (256 ^ Z.of_nat (3 + 2)) with (2 ^ 40) by reflexivity.
  replace (256 ^ Z.of_nat 2) with (2 ^ 16) by reflexivity.
  replace (256 ^ Z.of_nat 3) with (2 ^ 24) by reflexivity.
  rewrite (Z.mod_small t), (Z.mod_small v) by assumption. zpow. lia.
Qed.

(** ** Witnesses *)

Lemma scid_roundtrip_witness :
  UTXO_wf utxo_test = true /\ block_height utxo_test < 2 ^ 24 /\
  (scid_block (scid utxo_test) = block_height utxo_test /\
   scid_tx (scid utxo_test) = block_index utxo_test /\
   scid_vout (scid utxo_test) = transaction_index utxo_test).
Proof.
  split; [reflexivity|]. split; [vm_compute; reflexivity|].
  apply scid_roundtrip; [reflexivity | vm_compute; reflexivity].
Defined.

Lemma scid_lex_order_witness :
  UTXO_wf utxo_test = true /\ UTXO_wf utxo_test_next = true /\
  block_height utxo_test < 2 ^ 24 /\ block_height utxo_test_next < 2 ^ 24 /\
  (scid utxo_test < scid utxo_test_next <->
   block_height utxo_test < block_height utxo_test_next \/
   (block_height utxo_test = block_height utxo_test_next /\
    (block_index utxo_test < block_index utxo_test_next \/
     (block_index utxo_test = block_index utxo_test_next /\
      transaction_index utxo_test < transaction_index utxo_test_next)))).
Proof.
  split; [reflexivity|]. split; [reflexivity|].
  split; [vm_compute; reflexivity|]. split; [vm_compute; reflexivity|].
  apply scid_lex_order; [reflexivity | reflexivity | vm_compute; reflexivity ..].
Defined.

Lemma scid_from_parts_bolt7_witness :
  0 <= 1160 < 2 ^ 24 /\ 0 <= 1 < 2 ^ 16 /\
  scid_from_parts 691709 1160 1 = scid_bolt7 691709 1160 1.
Proof.
  split; [lia|]. split; [lia|]. apply scid_from_parts_bolt7; lia.
Defined.
