(* ===== verification/Index.v ===== *)
(** * Index: the UTXO index builder of main.rs 46-67

    [utxo_dump : HashMap<String, Vec<UtxoDump>>] is a stdpp
    [gmap string (list UtxoDump.t)].  [insert_utxo] is the body of the loop
    (main.rs 54-66: look the txid up, append to a copy of the vector found
    or start a one-element vector, insert under the txid); [load_utxo_dump]
    is the [for result in utxo_dump_reader.deserialize()] loop with its
    [result?] (main.rs 51-52), whose first failing row ends the run.

    The abstract specification [index_spec] groups the rows by txid in
    their order ([filter]); [IndexOf] is the contract the pipeline relies
    on, and [load_utxo_dump_index] discharges it for the code. *)

From S2P Require Import Prelude Types.

(** ** The code *)

Definition insert_utxo (utxo_dump : gmap string (list UtxoDump.t))
    (utxo : UtxoDump.t) : gmap string (list UtxoDump.t) :=
  match utxo_dump !! UtxoDump.txid utxo with
  | Some utxos => <[UtxoDump.txid utxo := utxos ++ [utxo]]> utxo_dump
  | None => <[UtxoDump.txid utxo := [utxo]]> utxo_dump
  end.

Fixpoint load_utxo_dump (utxo_dump : gmap string (list UtxoDump.t))
    (rows : list (result error UtxoDump.t))
    : result error (gmap string (list UtxoDump.t)) :=
  match rows with
  | [] => Ok utxo_dump
  | result :: rest =>
      utxo <-? result ;;
      load_utxo_dump (insert_utxo utxo_dump utxo) rest
  end.

(** ** The specification: rows grouped by txid, in input order *)

Definition group (rows : list UtxoDump.t) (k : string) : list UtxoDump.t :=
  filter (fun u => UtxoDump.txid u = k) rows.

Definition index_spec (rows : list UtxoDump.t) (k : string)
    : option (list UtxoDump.t) :=
  match group rows k with
  | [] => None
  | us => Some us
  end.

(** What the index promises to the pipeline. *)
Class IndexOf (m : gmap string (list UtxoDump.t)) (rows : list UtxoDump.t) : Prop :=
  index_of : forall k, m !! k = index_spec rows k.

(** The invariant of the map: no key holds an empty vector, and every
    record is stored under its own txid. *)
Definition index_wf (m : gmap string (list UtxoDump.t)) : Prop :=
  forall k us, m !! k = Some us -> us <> [] /\ Forall (fun u => UtxoDump.txid u = k) us.

(** [Some] prefix followed by more records. *)
Definition opt_app (o : option (list UtxoDump.t)) (l : list UtxoDump.t)
    : option (list UtxoDump.t) :=
  match o, l with
  | None, [] => None
  | None, _ => Some l
  | Some a, _ => Some (a ++ l)
  end.

(** ** Lemmas *)

Lemma opt_app_app o l1 l2 : opt_app (opt_app o l1) l2 = opt_app o (l1 ++ l2).
Proof. destruct o, l1, l2; simpl; rewrite ?app_nil_r, <- ?app_assoc; auto. Qed.

Lemma opt_app_nil o : opt_app o [] = o.
Proof. destruct o; simpl; rewrite ?app_nil_r; reflexivity. Qed.

Lemma lookup_insert_utxo m u k :
  insert_utxo m u !! k = opt_app (m !! k) (if decide (UtxoDump.txid u = k) then [u] else []).
Proof.
  unfold insert_utxo. case_decide as Hk.
  - subst k. destruct (m !! UtxoDump.txid u) eqn:E; simpl;
      rewrite lookup_insert_eq; reflexivity.
  - rewrite opt_app_nil.
    destruct (m !! UtxoDump.txid u); apply lookup_insert_ne; done.
Qed.

Lemma group_cons u rows k :
  group (u :: rows) k = (if decide (UtxoDump.txid u = k) then [u] else []) ++ group rows k.
Proof. unfold group. rewrite filter_cons. case_decide; reflexivity. Qed.

Lemma lookup_foldl_insert_utxo m rows k :
  foldl insert_utxo m rows !! k = opt_app (m !! k) (group rows k).
Proof.
  revert m. induction rows as [|u rows IH]; intros m; simpl.
  - symmetry. apply opt_app_nil.
  - rewrite IH, lookup_insert_utxo, opt_app_app, <- group_cons. reflexivity.
Qed.

Lemma load_utxo_dump_foldl m rows :
  load_utxo_dump m (map Ok rows) = Ok (foldl insert_utxo m rows).
Proof. revert m. induction rows; simpl; auto. Qed.

(** The load, on rows that all deserialize, is the fold of [insert_utxo]
    and meets the [IndexOf] contract. *)
Lemma load_utxo_dump_index rows :
  load_utxo_dump ∅ (map Ok rows) = Ok (foldl insert_utxo ∅ rows) /\
  IndexOf (foldl insert_utxo ∅ rows) rows.
Proof.
  split; [apply load_utxo_dump_foldl|].
  intros k. rewrite lookup_foldl_insert_utxo, lookup_empty.
  unfold index_spec. destruct (group rows k); reflexivity.
Qed.

(** Rows that deserialize are inserted and the load goes on. *)
Lemma load_utxo_dump_app m rows rest :
  load_utxo_dump m (map Ok rows ++ rest) = load_utxo_dump (foldl insert_utxo m rows) rest.
Proof. revert m. induction rows; simpl; auto. Qed.

Lemma group_txid rows k : Forall (fun u => UtxoDump.txid u = k) (group rows k).
Proof. apply Forall_forall. intros u Hu. unfold group in Hu. apply list_elem_of_filter in Hu. tauto. Qed.

Lemma index_spec_Some rows k us :
  index_spec rows k = Some us -> us = group rows k /\ us <> [].
Proof. unfold index_spec. destruct (group rows k); intros H; simplify_eq; done. Qed.

Lemma insert_utxo_wf m u : index_wf m -> index_wf (insert_utxo m u).
Proof.
  unfold index_wf. intros Hwf k us. rewrite lookup_insert_utxo.
  destruct (m !! k) as [a|] eqn:E; case_decide as Hk; simpl; intros H;
    try discriminate; injection H as <-.
  - destruct (Hwf k a E) as [Ha HF]. split.
    + destruct a; simpl; done.
    + apply Forall_app. auto.
  - rewrite app_nil_r. auto.
  - split; [done|]. constructor; auto.
Qed.

(** ** Theorems *)

(** C8: the loading loop, run on rows that all deserialize, returns a map
    in which every txid is bound to exactly the rows carrying it, in input
    order and with duplicates kept, and every other txid is absent: it
    refines grouping by key. *)
Theorem load_utxo_dump_refines rows :
  exists m, load_utxo_dump ∅ (map Ok rows) = Ok m /\ IndexOf m rows.
Proof.
  exists (foldl insert_utxo ∅ rows). apply load_utxo_dump_index.
Qed.

(** The first row that fails to deserialize ends the load with its
    error, whatever follows it. *)
Theorem load_utxo_dump_first_error m rows e rest :
  load_utxo_dump m (map Ok rows ++ Err e :: rest) = Err e.
Proof. rewrite load_utxo_dump_app. reflexivity. Qed.

(** C36: the index invariant (no txid bound to an empty vector, every
    record under its own txid) holds of the empty map and is preserved by
    every successful load: a lookup returns either nothing or a non-empty
    vector of records of that transaction. *)
Theorem load_utxo_dump_wf m rows m' :
  index_wf m -> load_utxo_dump m rows = Ok m' -> index_wf m'.
Proof.
  revert m. induction rows as [|r rows IH]; intros m Hwf H; simpl in H.
  - injection H as <-. exact Hwf.
  - destruct r as [u|e]; simpl in H; [|discriminate].
    eapply IH; [apply insert_utxo_wf|]; eauto.
Qed.

Lemma index_wf_empty : index_wf ∅.
Proof. unfold index_wf. intros k us. rewrite lookup_empty. discriminate. Qed.

(** ** Witnesses *)

Lemma load_utxo_dump_wf_witness :
  index_wf ∅ /\
  load_utxo_dump ∅ [Ok (UtxoDump.mk "abc" 2 100 5000)]
    = Ok (insert_utxo ∅ (UtxoDump.mk "abc" 2 100 5000)) /\
  index_wf (insert_utxo ∅ (UtxoDump.mk "abc" 2 100 5000)).
Proof.
  split; [apply index_wf_empty|]. split; [reflexivity|].
  apply (load_utxo_dump_wf ∅ [Ok (UtxoDump.mk "abc" 2 100 5000)]);
    [apply index_wf_empty | reflexivity].
Defined.
