(* ===== verification/Pipeline.v ===== *)
(** * Pipeline: the join-and-emit loop and [main] of main.rs

    The binary runs in the monad [StE State error] of the prelude: [State]
    holds the locals of [main] ([scrape_results], [i], [found], [part],
    main.rs 73-77), the output directory ([fs], path to artifact) and the
    lines printed ([stdout]).  An [Err] keeps the state reached, so parts
    already written stay in [fs], as on disk.

    The environment is a Section context: [overflow_checks] is the build
    profile (the three counters are [i32], Rust's default integer type,
    since nothing else constrains them); [can_create] says whether
    [File::create] on a path succeeds; [read_utxo_dump] and
    [read_bitcoin_iterate] are the [csv] readers (main.rs 48, 69-71, with
    their rows as the [deserialize()] iterators yield them).

    An artifact records the format and the vector handed to the serializer
    ([serde_json::to_writer_pretty], [bincode::serialize_into]). *)

From S2P Require Import Prelude Types Index.

Open Scope Z_scope.

Inductive artifact :=
| JsonFile (contents : list UTXO)
| BinFile (contents : list UTXO).

Record State := mkState {
  scrape_results : list UTXO;
  i : Z;
  found : Z;
  part : Z;
  fs : gmap string artifact;
  stdout : list string
}.

(** Field updates of [State]. *)
Definition set_scrape_results (l : list UTXO) (st : State) : State :=
  mkState l (i st) (found st) (part st) (fs st) (stdout st).
Definition set_i (x : Z) (st : State) : State :=
  mkState (scrape_results st) x (found st) (part st) (fs st) (stdout st).
Definition set_found (x : Z) (st : State) : State :=
  mkState (scrape_results st) (i st) x (part st) (fs st) (stdout st).
Definition set_part (x : Z) (st : State) : State :=
  mkState (scrape_results st) (i st) (found st) x (fs st) (stdout st).
Definition set_fs (m : gmap string artifact) (st : State) : State :=
  mkState (scrape_results st) (i st) (found st) (part st) m (stdout st).
Definition set_stdout (l : list string) (st : State) : State :=
  mkState (scrape_results st) (i st) (found st) (part st) (fs st) l.

(** The three positional arguments that configure the run. *)
Record Config := mkConfig {
  output_type : string;
  minimized_type : string;
  file_location : string
}.

(** The size of a JSON part: the [10000] of main.rs 113 and 119. *)
Definition BATCH : Z := 10000.

(** [format!("{}/part-{}.json", file_location, part)] and
    [format!("{}/p2wsh-utxo.bin", file_location)]. *)
Definition part_path (file_location : string) (part : Z) : string :=
  file_location +:+ "/part-" +:+ pretty part +:+ ".json".
Definition bin_path (file_location : string) : string :=
  file_location +:+ "/p2wsh-utxo.bin".

(** One output record (main.rs 89-105). *)
Definition make_result (minimized_type : string) (iterate : IterateDump.t)
    (utxo : UtxoDump.t) : UTXO :=
  let txid := if decide (minimized_type = "full") then Some (UtxoDump.txid utxo) else None in
  let amount := if decide (minimized_type = "full") then Some (UtxoDump.amount utxo) else None in
  {| block_height := UtxoDump.height utxo;
     id := txid;
     block_index := IterateDump.tx_height iterate;
     transaction_index := UtxoDump.vout utxo;
     amount := amount |}.

Section Pipeline.
Context (overflow_checks : bool).
Context (can_create : string -> bool).
Context (read_utxo_dump : string -> result error (list (result error UtxoDump.t))).
Context (read_bitcoin_iterate : string -> result error (list (result error IterateDump.t))).

Abbreviation M := (StE State error).

(** [x += 1] on an [i32] counter. *)
Definition incr (x : Z) : M Z :=
  match i32_incr overflow_checks x with
  | Some y => sret y
  | None => sthrow (Panic "attempt to add with overflow")
  end.

Definition println (msg : string) : M unit :=
  smodify (fun st => set_stdout (stdout st ++ [msg]) st).

(** [BufWriter::new(File::create(path).unwrap())] followed by the
    serializer's [.unwrap()]: a path that cannot be created panics. *)
Definition create_write (path : string) (a : artifact) : M unit :=
  if can_create path then smodify (fun st => set_fs (<[path := a]> (fs st)) st)
  else sthrow (Panic ("File::create failed: " +:+ path)).

(** The body of [for utxo in utxos.iter()] (main.rs 88-123). *)
Definition push_result (cfg : Config) (iterate : IterateDump.t)
    (utxo : UtxoDump.t) : M unit :=
  let new_result := make_result (minimized_type cfg) iterate utxo in
  smodify (fun st => set_scrape_results (scrape_results st ++ [new_result]) st) ;;;
  st <- sget ;;
  found' <- incr (found st) ;;
  smodify (set_found found') ;;;
  if decide (output_type cfg = "json") then
    if decide (Z.rem found' BATCH = 0) then
      st <- sget ;;
      create_write (part_path (file_location cfg) (part st))
                   (JsonFile (scrape_results st)) ;;;
      println ("Wrote 10000 transactions for part " +:+ pretty (part st) +:+ "...") ;;;
      part' <- incr (part st) ;;
      smodify (set_part part') ;;;
      smodify (set_scrape_results [])
    else sret tt
  else sret tt.

Fixpoint push_results (cfg : Config) (iterate : IterateDump.t)
    (utxos : list UtxoDump.t) : M unit :=
  match utxos with
  | [] => sret tt
  | utxo :: rest => push_result cfg iterate utxo ;;; push_results cfg iterate rest
  end.

(** [i += 1] and the progress line every 10 000 000 rows (main.rs 81-84). *)
Definition count_row : M unit :=
  st <- sget ;;
  i' <- incr (i st) ;;
  smodify (set_i i') ;;;
  if decide (Z.rem i' 10000000 = 0)
  then println ("Analyzed " +:+ pretty i' +:+ " utxos...") else sret tt.

(** One row of the position dump (main.rs 80-127). *)
Definition analyze_row (cfg : Config) (utxo_dump : gmap string (list UtxoDump.t))
    (iterate : IterateDump.t) : M unit :=
  count_row ;;;
  match utxo_dump !! IterateDump.txid iterate with
  | Some utxos => push_results cfg iterate utxos
  | None => sret tt
  end.

(** [for result in bitcoin_iterate_reader.deserialize()] with its
    [result?] (main.rs 79-128). *)
Fixpoint analyze (cfg : Config) (utxo_dump : gmap string (list UtxoDump.t))
    (rows : list (result error IterateDump.t)) : M unit :=
  match rows with
  | [] => sret tt
  | row :: rest =>
      iterate <- slift row ;;
      analyze_row cfg utxo_dump iterate ;;;
      analyze cfg utxo_dump rest
  end.

(** The final write and the two reports (main.rs 130-147). *)
Definition finish (cfg : Config) : M unit :=
  st <- sget ;;
  (if decide (output_type cfg = "json") then
     create_write (part_path (file_location cfg) (part st)) (JsonFile (scrape_results st))
   else if decide (output_type cfg = "bin") then
     create_write (bin_path (file_location cfg)) (BinFile (scrape_results st))
   else sret tt) ;;;
  println ("Wrote " +:+ pretty (Z.of_nat (length (scrape_results st)))
           +:+ " transactions for part " +:+ pretty (part st) +:+ "...") ;;;
  println ("Wrote " +:+ pretty (found st) +:+ " total transactions").

(** [&args[n]]: out of range panics. *)
Definition arg (args : list string) (n : nat) : M string :=
  match args !! n with
  | Some a => sret a
  | None => sthrow (Panic "index out of bounds")
  end.

(** [fn main] (main.rs 37-150). *)
Definition main (args : list string) : M unit :=
  utxo_dump_location <- arg args 1 ;;
  bitcoin_iterate_location <- arg args 2 ;;
  output_type <- arg args 3 ;;
  minimized_type <- arg args 4 ;;
  file_location <- arg args 5 ;;
  let cfg := mkConfig output_type minimized_type file_location in
  utxo_rows <- slift (read_utxo_dump utxo_dump_location) ;;
  println "Dumping p2wsh utxo set..." ;;;
  utxo_dump <- slift (load_utxo_dump ∅ utxo_rows) ;;
  iterate_rows <- slift (read_bitcoin_iterate bitcoin_iterate_location) ;;
  smodify (fun st => mkState [] 0 0 1 (fs st) (stdout st)) ;;;
  println "Analyzing all utxos..." ;;;
  analyze cfg utxo_dump iterate_rows ;;;
  finish cfg.
End Pipeline.
