(* ===== verification/PipelineProofs.v ===== *)
(** * PipelineProofs: what the join-and-emit pipeline writes

    The specification of the output of [main] (Pipeline.v): [join_spec]
    is the join of the two dumps (one record per UTXO of each position
    row's transaction, in order); [outputs_written] is the output directory
    it determines for each mode; [emit_inv] is the invariant of the
    emission loop (the records emitted are the parts flushed, each of
    exactly [BATCH] records, followed by the current batch, and the
    counters count them).  The lemmas run each operation of Pipeline.v
    under the invariant ([push_result_inv], [push_results_inv],
    [analyze_row_inv], [analyze_inv], [finish_run]) and the theorems of
    [Section Main] compose them into statements about [main]. *)

From S2P Require Import Prelude Types Index Pipeline.

Open Scope Z_scope.

(** ** The specification of the output *)


(** The JSON parts [part-p.json], [part-(p+1).json], ... holding [bs]. *)
Fixpoint write_parts (fs : gmap string artifact) (loc : string) (p : Z)
    (bs : list (list UTXO)) : gmap string artifact :=
  match bs with
  | [] => fs
  | b :: bs => write_parts (<[part_path loc p := JsonFile b]> fs) loc (p + 1) bs
  end.

(** The records the run emits: for each position row, one record per
    indexed output of its transaction, in order. *)
Definition join (mt : string) (utxo_dump : gmap string (list UtxoDump.t))
    (rows : list IterateDump.t) : list UTXO :=
  flat_map (fun it => match utxo_dump !! IterateDump.txid it with
                      | Some utxos => map (make_result mt it) utxos
                      | None => []
                      end) rows.

(** The same, stated on the UTXO rows through [group]. *)
Definition join_spec (mt : string) (utxo_rows : list UtxoDump.t)
    (rows : list IterateDump.t) : list UTXO :=
  flat_map (fun it => map (make_result mt it) (group utxo_rows (IterateDump.txid it))) rows.

(** The state of the emission loop after emitting [out] from an output
    directory [fs0]: [out] is the parts written so far, each of exactly
    [BATCH] records, followed by the records not yet written; the counters
    count them.  In any mode other than JSON nothing is flushed. *)
Definition emit_inv (cfg : Config) (fs0 : gmap string artifact) (out : list UTXO)
    (st : State) : Prop :=
  exists flushed : list (list UTXO),
    out = concat flushed ++ scrape_results st /\
    found st = Z.of_nat (length out) /\
    part st = 1 + Z.of_nat (length flushed) /\
    fs st = write_parts fs0 (file_location cfg) 1 flushed /\
    Forall (fun b => Z.of_nat (length b) = BATCH) flushed /\
    (if decide (output_type cfg = "json")
     then Z.of_nat (length (scrape_results st)) < BATCH else flushed = []).

(** Arithmetic on the counters, the batch size and the [i32] bounds. *)
Ltac plia := unfold BATCH in *; zlia.

(** The output directory after a successful run that emitted [out]: in
    JSON mode, parts [1..n+1] holding [n] full batches and the remainder;
    in binary mode one file with every record; otherwise nothing. *)
Definition outputs_written (cfg : Config) (fs0 : gmap string artifact)
    (out : list UTXO) (fs : gmap string artifact) : Prop :=
  if decide (output_type cfg = "json") then
    exists flushed last,
      out = concat flushed ++ last /\
      Forall (fun b => Z.of_nat (length b) = BATCH) flushed /\
      Z.of_nat (length last) < BATCH /\
      fs = write_parts fs0 (file_location cfg) 1 (flushed ++ [last])
  else if decide (output_type cfg = "bin") then
    fs = <[bin_path (file_location cfg) := BinFile out]> fs0
  else fs = fs0.

(** The last line printed reports the number of records. *)
Definition total_line (n : nat) : string :=
  "Wrote " +:+ pretty (Z.of_nat n) +:+ " total transactions".

(** ** Helpers describing single steps *)

(** The part written, and the line printed, when the record counter
    reaches a multiple of [BATCH] in JSON mode. *)
Definition flushes (cfg : Config) (found' : Z) : Prop :=
  output_type cfg = "json" /\ Z.rem found' BATCH = 0.

#[local] Instance flushes_dec cfg f : Decision (flushes cfg f).
Proof. unfold flushes. apply _. Defined.

(** The state after [push_result] when no counter overflows and the part
    file can be created. *)
Definition push_result_post (cfg : Config) (iterate : IterateDump.t)
    (utxo : UtxoDump.t) (st : State) : State :=
  let l := scrape_results st ++ [make_result (minimized_type cfg) iterate utxo] in
  if decide (flushes cfg (found st + 1)) then
    mkState [] (i st) (found st + 1) (part st + 1)
      (<[part_path (file_location cfg) (part st) := JsonFile l]> (fs st))
      (stdout st ++ ["Wrote 10000 transactions for part " +:+ pretty (part st) +:+ "..."])
  else mkState l (i st) (found st + 1) (part st) (fs st) (stdout st).

(** The state after the row counter of [analyze_row] is bumped. *)
Definition bump_i (st : State) : State :=
  if decide (Z.rem (i st + 1) 10000000 = 0)
  then set_stdout (stdout st ++ ["Analyzed " +:+ pretty (i st + 1) +:+ " utxos..."])
         (set_i (i st + 1) st)
  else set_i (i st + 1) st.

(** In JSON mode, every part path of the output directory can be
    created. *)
Definition parts_creatable (can_create : string -> bool) (cfg : Config) : Prop :=
  output_type cfg = "json" -> forall p, can_create (part_path (file_location cfg) p) = true.

(** The files the run needs to create can be created. *)
Definition outputs_creatable (can_create : string -> bool) (cfg : Config) : Prop :=
  parts_creatable can_create cfg /\
  (output_type cfg = "bin" -> can_create (bin_path (file_location cfg)) = true).

(** ** Fixtures: the end-to-end scenario of the specification and a dump
    of [n] outputs of one transaction, with readers that fail on any
    other path. *)

Definition fixture_utxos (n : nat) : list UtxoDump.t :=
  map (fun k => UtxoDump.mk "abc" (2 + Z.of_nat k) 100 5000) (seq 0 n).

Definition fixture_rows : list IterateDump.t := [IterateDump.mk "abc" 7].

Definition read_fixture_utxos (n : nat) (path : string)
    : result error (list (result error UtxoDump.t)) :=
  if decide (path = "utxo.csv") then Ok (map Ok (fixture_utxos n)) else Err (IoError path).

Definition read_fixture_rows (path : string)
    : result error (list (result error IterateDump.t)) :=
  if decide (path = "iterate.csv") then Ok (map Ok fixture_rows) else Err (IoError path).

(** The same dumps with a malformed row after the good ones. *)
Definition read_fixture_rows_err (path : string)
    : result error (list (result error IterateDump.t)) :=
  if decide (path = "iterate.csv")
  then Ok (map Ok fixture_rows ++ [Err (CsvError "bad row")]) else Err (IoError path).

Definition read_fixture_utxos_err (path : string)
    : result error (list (result error UtxoDump.t)) :=
  if decide (path = "utxo.csv")
  then Ok (map Ok (fixture_utxos 1) ++ [Err (CsvError "bad row")]) else Err (IoError path).

Definition fixture_args (output_type minimized_type : string) : list string :=
  ["p2wsh-utxo"; "utxo.csv"; "iterate.csv"; output_type; minimized_type; "out"].

Definition fixture_state : State := mkState [] 0 0 1 ∅ [].

(** Part sizes of an output directory, by path. *)
Definition part_sizes (fs : gmap string artifact) : list (string * nat) :=
  map (fun '(path, a) => (path, match a with JsonFile l | BinFile l => length l end))
      (map_to_list fs).

(** ** Lemmas on the specification *)

Lemma part_path_inj loc p q : part_path loc p = part_path loc q -> p = q.
Proof.
  unfold part_path. intros H.
  apply (inj (String.append loc)), (inj (String.append "/part-")) in H.
  apply string_app_inj_r in H. apply (inj pretty) in H. exact H.
Qed.

Lemma lookup_write_parts_ne fs loc p bs path :
  (forall q, p <= q -> path <> part_path loc q) ->
  write_parts fs loc p bs !! path = fs !! path.
Proof.
  revert fs p. induction bs as [|b bs IH]; intros fs p Hne; simpl; [reflexivity|].
  rewrite IH by (intros q Hq; apply Hne; lia).
  apply lookup_insert_ne. intros Heq. apply (Hne p); [lia|]. symmetry. exact Heq.
Qed.

Lemma Forall_join_spec (P : UTXO -> Prop) mt rows_u rows_i :
  (forall it u, P (make_result mt it u)) -> Forall P (join_spec mt rows_u rows_i).
Proof.
  intros HP. induction rows_i as [|it rows_i IH]; simpl; [constructor|].
  apply Forall_app. split; [|exact IH].
  apply Forall_forall. intros r Hr. apply list_elem_of_fmap in Hr as (u & -> & _). apply HP.
Qed.

(** The same, for a property of the records built from rows of the
    dumps. *)
Lemma Forall_join_spec_in (P : UTXO -> Prop) mt rows_u rows_i :
  (forall it u, it ∈ rows_i -> u ∈ rows_u -> P (make_result mt it u)) ->
  Forall P (join_spec mt rows_u rows_i).
Proof.
  intros HP. induction rows_i as [|it rows_i IH]; simpl; [constructor|].
  apply Forall_app. split.
  - apply Forall_forall. intros r Hr. apply list_elem_of_fmap in Hr as (u & -> & Hu).
    unfold group in Hu. apply list_elem_of_filter in Hu as [_ Hu].
    apply HP; [left | exact Hu].
  - apply IH. intros it' u Hit Hu. apply HP; [right; exact Hit | exact Hu].
Qed.

Lemma make_result_wf mt it u :
  IterateDump.wf it = true -> UtxoDump.wf u = true -> UTXO_wf (make_result mt it u) = true.
Proof.
  unfold IterateDump.wf, UtxoDump.wf, UTXO_wf, make_result. cbn [block_height id block_index transaction_index amount].
  intros Hit Hu. destruct (decide (mt = "full")); repeat rewrite andb_true_iff in *; intuition.
Qed.

Lemma Forall_join_spec_wf mt rows_u rows_i :
  Forall (fun u => UtxoDump.wf u = true) rows_u ->
  Forall (fun it => IterateDump.wf it = true) rows_i ->
  Forall (fun r => UTXO_wf r = true) (join_spec mt rows_u rows_i).
Proof.
  intros Hwu Hwi. apply Forall_join_spec_in. intros it u Hit Hu.
  apply make_result_wf; [exact (proj1 (Forall_forall _ _) Hwi it Hit)
                        | exact (proj1 (Forall_forall _ _) Hwu u Hu)].
Qed.

Lemma write_parts_snoc fs loc p bs b :
  write_parts fs loc p (bs ++ [b])
  = <[part_path loc (p + Z.of_nat (length bs)) := JsonFile b]> (write_parts fs loc p bs).
Proof.
  revert fs p. induction bs as [|b' bs IH]; intros fs p; simpl.
  - rewrite Z.add_0_r. reflexivity.
  - rewrite IH. do 2 f_equal. lia.
Qed.

Lemma length_concat_uniform {A} n (bs : list (list A)) :
  Forall (fun b => Z.of_nat (length b) = n) bs ->
  Z.of_nat (length (concat bs)) = n * Z.of_nat (length bs).
Proof.
  induction 1; simpl; [lia|]. rewrite length_app. lia.
Qed.

Lemma join_cons mt m it rows :
  join mt m (it :: rows) = join mt m [it] ++ join mt m rows.
Proof. unfold join. simpl. rewrite app_nil_r. reflexivity. Qed.

Lemma emit_inv_proj cfg fs0 out st st' :
  emit_inv cfg fs0 out st ->
  scrape_results st' = scrape_results st -> found st' = found st ->
  part st' = part st -> fs st' = fs st ->
  emit_inv cfg fs0 out st'.
Proof. unfold emit_inv. intros Hinv H1 H2 H3 H4. rewrite H1, H2, H3, H4. exact Hinv. Qed.

Lemma emit_inv_init cfg fs0 out :
  emit_inv cfg fs0 [] (mkState [] 0 0 1 fs0 out).
Proof.
  exists []. simpl. repeat split; auto. destruct (decide _); [unfold BATCH; lia|reflexivity].
Qed.

Lemma analyze_app oc cc cfg m rows1 rows2 st :
  analyze oc cc cfg m (rows1 ++ rows2) st
  = (analyze oc cc cfg m rows1 ;;; analyze oc cc cfg m rows2) st.
Proof.
  revert st. induction rows1 as [|r rows1 IH]; intros st; [reflexivity|].
  cbn [app analyze]. rewrite !sbind_run. destruct r as [it|e]; cbv [slift]; [|reflexivity].
  rewrite !sbind_run. destruct (analyze_row oc cc cfg m it st) as [st1 [[]|e]]; [|reflexivity].
  apply IH.
Qed.

Lemma join_index mt m rows_u rows :
  IndexOf m rows_u -> join mt m rows = join_spec mt rows_u rows.
Proof.
  intros Hidx. unfold join, join_spec. apply flat_map_ext. intros it.
  rewrite (index_of (IndexOf := Hidx)). unfold index_spec.
  destruct (group rows_u (IterateDump.txid it)); reflexivity.
Qed.


(** ** Theorems on the specification *)

(** The parts are written to distinct files: part [p + k] holds the
    [k]-th batch, and a later part never overwrites an earlier one. *)
Lemma write_parts_lookup fs loc p bs k b :
  bs !! k = Some b ->
  write_parts fs loc p bs !! part_path loc (p + Z.of_nat k) = Some (JsonFile b).
Proof.
  revert fs p k. induction bs as [|b' bs IH]; intros fs p k Hk; [discriminate|].
  destruct k as [|k]; simpl in *.
  - injection Hk as ->. rewrite Z.add_0_r, lookup_write_parts_ne.
    + apply lookup_insert_eq.
    + intros q Hq Heq. apply part_path_inj in Heq. lia.
  - rewrite <- (IH (<[part_path loc p := JsonFile b']> fs) (p + 1) k Hk). do 2 f_equal. lia.
Qed.

(** In JSON mode an output directory written for [n] records has
    [n / 10000 + 1] parts, all of exactly 10000 records but the last, which
    holds [n mod 10000]. *)
Lemma outputs_written_json_parts cfg fs0 out fs :
  output_type cfg = "json" -> outputs_written cfg fs0 out fs ->
  exists flushed last,
    fs = write_parts fs0 (file_location cfg) 1 (flushed ++ [last]) /\
    concat (flushed ++ [last]) = out /\
    Z.of_nat (length flushed) = Z.of_nat (length out) / BATCH /\
    Forall (fun b => Z.of_nat (length b) = BATCH) flushed /\
    Z.of_nat (length last) = Z.of_nat (length out) mod BATCH.
Proof.
  intros Hj. unfold outputs_written. rewrite decide_True by exact Hj.
  intros (fl & last & Hout & Hlen & Hlast & Hfs). exists fl, last.
  pose proof (length_concat_uniform _ _ Hlen) as Hcat.
  assert (Hn : length out = (length (concat fl) + length last)%nat)
    by (rewrite Hout, length_app; reflexivity).
  rewrite concat_app. simpl. rewrite app_nil_r.
  repeat split; auto; plia.
Qed.

(** C10: in [full] mode every record carries its transaction id and its
    amount; in any other mode both are left out. *)
Theorem join_spec_minimization mt rows_u rows_i :
  Forall (fun r => if decide (mt = "full") then is_Some (id r) /\ is_Some (amount r)
                   else id r = None /\ amount r = None)
         (join_spec mt rows_u rows_i).
Proof.
  apply Forall_join_spec. intros it u. unfold make_result. simpl.
  destruct (decide (mt = "full")); simpl; eauto.
Qed.

(** Every record the run emits is a value of Rust's [UTXO] type: on
    dumps whose rows hold values of their Rust types, each field of each
    record of the join fits its width ([u32], [u16], [usize]) and its id
    is a [String]. *)
Theorem join_spec_well_typed mt rows_u rows_i :
  Forall (fun u => UtxoDump.wf u = true) rows_u ->
  Forall (fun it => IterateDump.wf it = true) rows_i ->
  Forall (fun r => UTXO_wf r = true) (join_spec mt rows_u rows_i).
Proof. apply Forall_join_spec_wf. Qed.

(** ** Each operation under the invariant *)

Section Run.
Context (overflow_checks : bool) (can_create : string -> bool).


Lemma incr_run x st :
  x < i32_MAX -> incr overflow_checks x st = (st, Ok (x + 1)).
Proof.
  intros Hx. unfold incr, i32_incr.
  rewrite (proj2 (Z.eqb_neq _ _)) by lia. reflexivity.
Qed.

Lemma push_result_run cfg iterate utxo st :
  found st < i32_MAX ->
  (flushes cfg (found st + 1) ->
   part st < i32_MAX /\ can_create (part_path (file_location cfg) (part st)) = true) ->
  push_result overflow_checks can_create cfg iterate utxo st
  = (push_result_post cfg iterate utxo st, Ok tt).
Proof.
  intros Hf Hflush. unfold push_result, push_result_post.
  rewrite sbind_run. cbv [smodify]. rewrite sbind_run. cbv [sget].
  simpl. rewrite sbind_run, incr_run by exact Hf. run_ste.
  unfold flushes in *. destruct (decide (output_type cfg = "json")) as [Hj|Hj];
    [destruct (decide (Z.rem (found st + 1) BATCH = 0)) as [Hr|Hr]|].
  - destruct (Hflush (conj Hj Hr)) as [Hp Hc].
    rewrite decide_True by tauto. unfold create_write. simpl. rewrite Hc.
    unfold println. run_ste. simpl. rewrite incr_run by exact Hp. reflexivity.
  - rewrite decide_False by tauto. reflexivity.
  - rewrite decide_False by tauto. reflexivity.
Qed.


Lemma push_result_inv cfg fs0 out iterate utxo st :
  emit_inv cfg fs0 out st -> Z.of_nat (length out) < i32_MAX ->
  parts_creatable can_create cfg ->
  push_result overflow_checks can_create cfg iterate utxo st
    = (push_result_post cfg iterate utxo st, Ok tt) /\
  emit_inv cfg fs0 (out ++ [make_result (minimized_type cfg) iterate utxo])
    (push_result_post cfg iterate utxo st).
Proof.
  intros (fl & Hout & Hfound & Hpart & Hfs & Hlen & Hmode) Hmax Hcreate.
  pose proof (length_concat_uniform _ _ Hlen) as Hcat.
  assert (Hlout : length out = (length (concat fl) + length (scrape_results st))%nat)
    by (rewrite Hout, length_app; reflexivity).
  unfold BATCH in *. split.
  { apply push_result_run; [plia|]. intros [Hj _]. split; [|apply Hcreate, Hj]. plia. }
  unfold push_result_post, flushes. simpl.
  destruct (decide (output_type cfg = "json")) as [Hj|Hj].
  - destruct (decide (Z.rem (found st + 1) 10000 = 0)) as [Hr|Hr].
    + rewrite decide_True by (unfold BATCH; tauto).
      assert (Z.of_nat (length (scrape_results st)) + 1 = 10000) by plia.
      exists (fl ++ [scrape_results st ++ [make_result (minimized_type cfg) iterate utxo]]).
      simpl. rewrite decide_True by exact Hj.
      refine (conj _ (conj _ (conj _ (conj _ (conj _ _))))).
      * rewrite concat_app. simpl. rewrite !app_nil_r, Hout, app_assoc. reflexivity.
      * rewrite Hfound, length_app. simpl. plia.
      * rewrite Hpart, length_app. simpl. plia.
      * rewrite Hfs, write_parts_snoc, Hpart. reflexivity.
      * apply Forall_app. split; [exact Hlen|]. constructor; [|constructor].
        rewrite length_app. simpl. plia.
      * simpl. plia.
    + rewrite decide_False by (unfold BATCH; tauto).
      exists fl. simpl. rewrite decide_True by exact Hj.
      rewrite Hout, app_assoc, !length_app. simpl.
      repeat split; auto; plia.
  - rewrite decide_False by tauto. subst fl. exists []. simpl. rewrite decide_False by exact Hj.
    rewrite Hout, !length_app. simpl. repeat split; auto. simpl in *. plia.
Qed.

Lemma push_results_inv cfg fs0 out iterate utxos st :
  emit_inv cfg fs0 out st ->
  Z.of_nat (length out + length utxos) <= i32_MAX ->
  parts_creatable can_create cfg ->
  exists st',
    push_results overflow_checks can_create cfg iterate utxos st = (st', Ok tt) /\
    emit_inv cfg fs0 (out ++ map (make_result (minimized_type cfg) iterate) utxos) st' /\
    i st' = i st.
Proof.
  revert out st. induction utxos as [|u utxos IH]; intros out st Hinv Hmax Hc; simpl.
  - exists st. rewrite app_nil_r. auto.
  - simpl in Hmax.
    destruct (push_result_inv cfg fs0 out iterate u st Hinv ltac:(lia) Hc) as [Hrun Hinv'].
    rewrite sbind_run, Hrun.
    destruct (IH _ _ Hinv' ltac:(rewrite length_app; simpl; lia) Hc) as (st' & Hrun' & Hinv'' & Hi).
    exists st'. rewrite <- app_assoc in Hinv''. split; [exact Hrun'|]. split; [exact Hinv''|].
    rewrite Hi. unfold push_result_post. destruct (decide _); reflexivity.
Qed.


Lemma analyze_row_run cfg m iterate st :
  i st < i32_MAX ->
  analyze_row overflow_checks can_create cfg m iterate st
  = match m !! IterateDump.txid iterate with
    | Some utxos => push_results overflow_checks can_create cfg iterate utxos
    | None => sret tt
    end (bump_i st).
Proof.
  intros Hi. unfold analyze_row, count_row.
  rewrite !sbind_run. cbv [sget]. rewrite sbind_run, incr_run by exact Hi.
  run_ste. unfold bump_i. simpl. destruct (decide _); reflexivity.
Qed.

Lemma bump_i_fields st :
  scrape_results (bump_i st) = scrape_results st /\ found (bump_i st) = found st /\
  part (bump_i st) = part st /\ fs (bump_i st) = fs st /\ i (bump_i st) = i st + 1.
Proof. unfold bump_i. destruct (decide _); repeat split. Qed.

Lemma analyze_row_inv cfg fs0 m out iterate st :
  emit_inv cfg fs0 out st -> i st < i32_MAX ->
  Z.of_nat (length (out ++ join (minimized_type cfg) m [iterate])) <= i32_MAX ->
  parts_creatable can_create cfg ->
  exists st',
    analyze_row overflow_checks can_create cfg m iterate st = (st', Ok tt) /\
    emit_inv cfg fs0 (out ++ join (minimized_type cfg) m [iterate]) st' /\
    i st' = i st + 1.
Proof.
  intros Hinv Hi Hmax Hc. rewrite analyze_row_run by exact Hi.
  destruct (bump_i_fields st) as (H1 & H2 & H3 & H4 & H5).
  assert (Hinv1 : emit_inv cfg fs0 out (bump_i st)) by (eapply emit_inv_proj; eauto).
  unfold join in *. simpl in *. rewrite app_nil_r in *.
  destruct (m !! IterateDump.txid iterate) as [utxos|].
  - destruct (push_results_inv cfg fs0 out iterate utxos (bump_i st) Hinv1)
      as (st' & Hrun & Hinv' & Hi'); [rewrite length_app, length_map in Hmax; lia|exact Hc|].
    exists st'. rewrite Hi', H5. auto.
  - exists (bump_i st). rewrite app_nil_r. auto.
Qed.

Lemma analyze_inv cfg fs0 m out rows st :
  emit_inv cfg fs0 out st ->
  i st + Z.of_nat (length rows) <= i32_MAX ->
  Z.of_nat (length (out ++ join (minimized_type cfg) m rows)) <= i32_MAX ->
  parts_creatable can_create cfg ->
  exists st',
    analyze overflow_checks can_create cfg m (map Ok rows) st = (st', Ok tt) /\
    emit_inv cfg fs0 (out ++ join (minimized_type cfg) m rows) st' /\
    i st' = i st + Z.of_nat (length rows).
Proof.
  revert out st. induction rows as [|it rows IH]; intros out st Hinv Hi Hmax Hc;
    cbn [analyze map].
  - exists st. rewrite app_nil_r. split; [reflexivity|]. split; [exact Hinv|simpl; lia].
  - rewrite join_cons, app_assoc in *. rewrite length_app in Hmax. simpl length in Hi.
    destruct (analyze_row_inv cfg fs0 m out it st Hinv ltac:(lia)
                ltac:(rewrite length_app in *; lia) Hc) as (st1 & Hrun1 & Hinv1 & Hi1).
    rewrite sbind_run. cbv [slift]. rewrite sbind_run, Hrun1.
    destruct (IH _ st1 Hinv1 ltac:(lia) ltac:(rewrite !length_app in *; lia) Hc)
      as (st' & Hrun' & Hinv' & Hi').
    exists st'. split; [exact Hrun'|]. split; [exact Hinv'|simpl length; lia].
Qed.


Lemma finish_run cfg fs0 out st :
  emit_inv cfg fs0 out st -> outputs_creatable can_create cfg ->
  exists st',
    finish can_create cfg st = (st', Ok tt) /\
    outputs_written cfg fs0 out (fs st') /\
    last (stdout st') = Some (total_line (length out)).
Proof.
  intros (fl & Hout & Hfound & Hpart & Hfs & Hlen & Hmode) [Hcj Hcb].
  unfold finish, outputs_written, total_line. rewrite sbind_run. cbv [sget].
  destruct (decide (output_type cfg = "json")) as [Hj|Hj];
    [|destruct (decide (output_type cfg = "bin")) as [Hb|Hb]].
  - unfold create_write. rewrite (Hcj Hj). run_ste. simpl.
    eexists. split; [reflexivity|]. simpl. split; [|rewrite last_snoc, Hfound; reflexivity].
    exists fl, (scrape_results st). split; [exact Hout|]. split; [exact Hlen|].
    split; [exact Hmode|]. rewrite write_parts_snoc, Hfs, Hpart. reflexivity.
  - unfold create_write. rewrite (Hcb Hb). run_ste. simpl.
    eexists. split; [reflexivity|]. simpl. split; [|rewrite last_snoc, Hfound; reflexivity].
    subst fl. simpl in *. rewrite Hfs, Hout. reflexivity.
  - run_ste. simpl. eexists. split; [reflexivity|]. simpl.
    split; [|rewrite last_snoc, Hfound; reflexivity]. subst fl. exact Hfs.
Qed.

(** C32: a position row whose txid is not in the index is skipped: it
    produces no record, writes nothing and does not end the run; only the
    row counter moves. *)
Theorem analyze_row_miss cfg m iterate st :
  m !! IterateDump.txid iterate = None -> i st < i32_MAX ->
  exists st',
    analyze_row overflow_checks can_create cfg m iterate st = (st', Ok tt) /\
    scrape_results st' = scrape_results st /\ found st' = found st /\
    part st' = part st /\ fs st' = fs st /\ i st' = i st + 1.
Proof.
  intros Hm Hi. rewrite analyze_row_run, Hm by exact Hi.
  exists (bump_i st). split; [reflexivity|]. apply bump_i_fields.
Qed.

(** C37: the record counter is an [i32]: when [found] is [i32::MAX], the
    next matched record makes a build with overflow checks panic with
    [attempt to add with overflow]; a build without them wraps [found] to
    [i32::MIN] = [-2^31] (not [2^31]), keeps the record in the batch and
    writes no file. *)
Theorem push_result_found_overflow cfg iterate utxo st :
  found st = i32_MAX ->
  snd (push_result true can_create cfg iterate utxo st)
    = Err (Panic "attempt to add with overflow") /\
  exists st',
    push_result false can_create cfg iterate utxo st = (st', Ok tt) /\
    found st' = i32_MIN /\
    scrape_results st' = scrape_results st ++ [make_result (minimized_type cfg) iterate utxo] /\
    fs st' = fs st.
Proof.
  intros Hf. unfold push_result, incr, i32_incr. run_ste. simpl.
  rewrite Hf, Z.eqb_refl. simpl. split; [reflexivity|].
  destruct (decide (output_type cfg = "json")); eexists; repeat split.
Qed.
End Run.

Section Main.
Context (overflow_checks : bool) (can_create : string -> bool).
Context (read_utxo_dump : string -> result error (list (result error UtxoDump.t))).
Context (read_bitcoin_iterate : string -> result error (list (result error IterateDump.t))).

(** [main] up to the end of the loading phase and the reset of the
    counters, on readable inputs. *)
Lemma main_prefix prog pu pi ot mt loc extra rows_u iterate_rows st0 :
  read_utxo_dump pu = Ok (map Ok rows_u) ->
  read_bitcoin_iterate pi = Ok iterate_rows ->
  exists m,
    IndexOf m rows_u /\
    main overflow_checks can_create read_utxo_dump read_bitcoin_iterate
      (prog :: pu :: pi :: ot :: mt :: loc :: extra) st0
    = (analyze overflow_checks can_create (mkConfig ot mt loc) m iterate_rows ;;;
       finish can_create (mkConfig ot mt loc))
        (mkState [] 0 0 1 (fs st0)
           (stdout st0 ++ ["Dumping p2wsh utxo set..."; "Analyzing all utxos..."])).
Proof.
  intros Hu Hi. destruct (load_utxo_dump_index rows_u) as (Hload & Hidx).
  exists (foldl insert_utxo ∅ rows_u). split; [exact Hidx|].
  unfold main, arg. simpl. run_ste. rewrite Hu. simpl. rewrite Hload, Hi. simpl.
  rewrite <- app_assoc. reflexivity.
Qed.

(** The run of [main] on readable inputs with counters in range. *)
Lemma main_run prog pu pi ot mt loc extra rows_u rows_i st0 :
  read_utxo_dump pu = Ok (map Ok rows_u) ->
  read_bitcoin_iterate pi = Ok (map Ok rows_i) ->
  outputs_creatable can_create (mkConfig ot mt loc) ->
  Z.of_nat (length rows_i) <= i32_MAX ->
  Z.of_nat (length (join_spec mt rows_u rows_i)) <= i32_MAX ->
  exists st,
    main overflow_checks can_create read_utxo_dump read_bitcoin_iterate
      (prog :: pu :: pi :: ot :: mt :: loc :: extra) st0 = (st, Ok tt) /\
    outputs_written (mkConfig ot mt loc) (fs st0) (join_spec mt rows_u rows_i) (fs st) /\
    last (stdout st) = Some (total_line (length (join_spec mt rows_u rows_i))).
Proof.
  intros Hu Hi Hc Hn Hmax.
  destruct (main_prefix prog pu pi ot mt loc extra rows_u _ st0 Hu Hi) as (m & Hidx & ->).
  rewrite <- (join_index mt m rows_u rows_i Hidx) in *.
  destruct (analyze_inv overflow_checks can_create (mkConfig ot mt loc) (fs st0) m [] rows_i
              _ (emit_inv_init _ _ (stdout st0 ++ ["Dumping p2wsh utxo set...";
                                                   "Analyzing all utxos..."])))
    as (st2 & Hrun & Hinv & _); [simpl; lia|exact Hmax|apply Hc|].
  rewrite sbind_run, Hrun.
  destruct (finish_run can_create _ _ _ _ Hinv Hc) as (st3 & Hf & Hw & Hl).
  exists st3. auto.
Qed.

(** The JSON-mode run, with its parts. *)
Lemma main_json_run prog pu pi mt loc extra rows_u rows_i st0 :
  read_utxo_dump pu = Ok (map Ok rows_u) ->
  read_bitcoin_iterate pi = Ok (map Ok rows_i) ->
  (forall p, can_create (part_path loc p) = true) ->
  Z.of_nat (length rows_i) <= i32_MAX ->
  Z.of_nat (length (join_spec mt rows_u rows_i)) <= i32_MAX ->
  exists st flushed last,
    main overflow_checks can_create read_utxo_dump read_bitcoin_iterate
      (prog :: pu :: pi :: "json" :: mt :: loc :: extra) st0 = (st, Ok tt) /\
    fs st = write_parts (fs st0) loc 1 (flushed ++ [last]) /\
    concat (flushed ++ [last]) = join_spec mt rows_u rows_i /\
    Z.of_nat (length flushed) = Z.of_nat (length (join_spec mt rows_u rows_i)) / BATCH /\
    Forall (fun b => Z.of_nat (length b) = BATCH) flushed /\
    Z.of_nat (length last) = Z.of_nat (length (join_spec mt rows_u rows_i)) mod BATCH.
Proof.
  intros Hu Hi Hc Hn Hmax.
  destruct (main_run prog pu pi "json" mt loc extra rows_u rows_i st0 Hu Hi)
    as (st & Hrun & Hw & _); auto.
  - split; [intros _; exact Hc|discriminate].
  - destruct (outputs_written_json_parts (mkConfig "json" mt loc) _ _ _ eq_refl Hw)
      as (fl & last & H).
    exists st, fl, last. split; [exact Hrun|exact H].
Qed.

(** ** Theorems on [main] *)

(** C1: on inputs that read and deserialize, with fewer than [2^31]
    position rows and matched records (so that no [i32] counter
    overflows) and creatable output files, [main] succeeds; the output
    directory then holds exactly the join of the two dumps (for each
    position row, one record per UTXO of its transaction, in order): in
    JSON mode as parts [part-1 .. part-(n+1)] of which all but the last
    hold exactly 10000 records and the last fewer, in binary mode as the
    single file [p2wsh-utxo.bin], and in any other mode nothing is
    written; the last line printed reports the number of records. *)
Theorem main_refines prog pu pi ot mt loc extra rows_u rows_i st0 :
  read_utxo_dump pu = Ok (map Ok rows_u) ->
  read_bitcoin_iterate pi = Ok (map Ok rows_i) ->
  outputs_creatable can_create (mkConfig ot mt loc) ->
  Z.of_nat (length rows_i) <= i32_MAX ->
  Z.of_nat (length (join_spec mt rows_u rows_i)) <= i32_MAX ->
  exists st,
    main overflow_checks can_create read_utxo_dump read_bitcoin_iterate
      (prog :: pu :: pi :: ot :: mt :: loc :: extra) st0 = (st, Ok tt) /\
    outputs_written (mkConfig ot mt loc) (fs st0) (join_spec mt rows_u rows_i) (fs st) /\
    last (stdout st) = Some (total_line (length (join_spec mt rows_u rows_i))).
Proof. apply main_run. Qed.

(** C33: a row of the position dump that fails to deserialize ends the
    run with its error; the JSON parts flushed before it stay on disk
    (no clean-up), each of exactly 10000 records, holding a prefix of the
    join of the rows before it in order, and nothing else is written. *)
Theorem main_iterate_row_error prog pu pi ot mt loc extra rows_u pre e rest st0 :
  read_utxo_dump pu = Ok (map Ok rows_u) ->
  read_bitcoin_iterate pi = Ok (map Ok pre ++ Err e :: rest) ->
  outputs_creatable can_create (mkConfig ot mt loc) ->
  Z.of_nat (length pre) <= i32_MAX ->
  Z.of_nat (length (join_spec mt rows_u pre)) <= i32_MAX ->
  exists st flushed,
    main overflow_checks can_create read_utxo_dump read_bitcoin_iterate
      (prog :: pu :: pi :: ot :: mt :: loc :: extra) st0 = (st, Err e) /\
    Forall (fun b => Z.of_nat (length b) = BATCH) flushed /\
    concat flushed `prefix_of` join_spec mt rows_u pre /\
    fs st = write_parts (fs st0) loc 1 flushed.
Proof.
  intros Hu Hi [Hc _] Hn Hmax.
  destruct (main_prefix prog pu pi ot mt loc extra rows_u _ st0 Hu Hi) as (m & Hidx & ->).
  rewrite <- (join_index mt m rows_u pre Hidx) in *.
  rewrite sbind_run, analyze_app, sbind_run.
  destruct (analyze_inv overflow_checks can_create (mkConfig ot mt loc) (fs st0) m [] pre
              _ (emit_inv_init _ _ (stdout st0 ++ ["Dumping p2wsh utxo set...";
                                                   "Analyzing all utxos..."])))
    as (st2 & Hrun & Hinv & _); [simpl; lia|exact Hmax|exact Hc|].
  rewrite Hrun. simpl.
  destruct Hinv as (fl & Hout & _ & _ & Hfs & Hlen & _).
  exists st2, fl. split; [reflexivity|]. split; [exact Hlen|]. split; [|exact Hfs].
  exists (scrape_results st2). exact Hout.
Qed.

(** C9: in JSON mode, on inputs as in [main_refines], [main] writes
    [n / 10000 + 1] parts holding the [n] records of the join in order, all
    of exactly 10000 records but the last, which holds [n mod 10000]: 10000
    records give a full part and an empty one, 10001 a full part and a part
    of one. *)
Theorem main_json_parts prog pu pi mt loc extra rows_u rows_i st0 :
  read_utxo_dump pu = Ok (map Ok rows_u) ->
  read_bitcoin_iterate pi = Ok (map Ok rows_i) ->
  (forall p, can_create (part_path loc p) = true) ->
  Z.of_nat (length rows_i) <= i32_MAX ->
  Z.of_nat (length (join_spec mt rows_u rows_i)) <= i32_MAX ->
  exists st flushed last,
    main overflow_checks can_create read_utxo_dump read_bitcoin_iterate
      (prog :: pu :: pi :: "json" :: mt :: loc :: extra) st0 = (st, Ok tt) /\
    fs st = write_parts (fs st0) loc 1 (flushed ++ [last]) /\
    concat (flushed ++ [last]) = join_spec mt rows_u rows_i /\
    Z.of_nat (length flushed) = Z.of_nat (length (join_spec mt rows_u rows_i)) / BATCH /\
    Forall (fun b => Z.of_nat (length b) = BATCH) flushed /\
    Z.of_nat (length last) = Z.of_nat (length (join_spec mt rows_u rows_i)) mod BATCH.
Proof. apply main_json_run. Qed.

(** In JSON mode a run whose join has 10000 or 10001 records writes
    exactly two parts: [part-1] with the first 10000 records and [part-2]
    with the rest (none, or the one record left). *)
Theorem main_json_10000_10001 prog pu pi mt loc extra rows_u rows_i st0 :
  read_utxo_dump pu = Ok (map Ok rows_u) ->
  read_bitcoin_iterate pi = Ok (map Ok rows_i) ->
  (forall p, can_create (part_path loc p) = true) ->
  Z.of_nat (length rows_i) <= i32_MAX ->
  Z.of_nat (length (join_spec mt rows_u rows_i)) = 10000 \/
  Z.of_nat (length (join_spec mt rows_u rows_i)) = 10001 ->
  exists st part1 part2,
    main overflow_checks can_create read_utxo_dump read_bitcoin_iterate
      (prog :: pu :: pi :: "json" :: mt :: loc :: extra) st0 = (st, Ok tt) /\
    fs st = <[part_path loc 2 := JsonFile part2]> (<[part_path loc 1 := JsonFile part1]> (fs st0)) /\
    part1 ++ part2 = join_spec mt rows_u rows_i /\
    Z.of_nat (length part1) = 10000 /\
    Z.of_nat (length part2) = Z.of_nat (length (join_spec mt rows_u rows_i)) - 10000.
Proof.
  intros Hu Hi Hc Hn Hlen.
  destruct (main_json_run prog pu pi mt loc extra rows_u rows_i st0 Hu Hi Hc Hn)
    as (st & fl & last & Hrun & Hfs & Hcat & Hfl & Hall & Hlast); [plia|].
  assert (Hone : length fl = 1%nat) by plia.
  destruct fl as [|b1 [|b2 fl]]; simpl in Hone; try discriminate.
  inversion Hall as [|? ? Hb1 _]; subst.
  exists st, b1, last. split; [exact Hrun|]. split; [exact Hfs|].
  simpl in Hcat. rewrite app_nil_r in Hcat. split; [exact Hcat|].
  rewrite <- Hcat, length_app. plia.
Qed.

(** C39: an output format other than [json] and [bin] is not rejected: the
    run succeeds, prints its counters and writes no file at all. *)
Theorem main_unknown_format prog pu pi ot mt loc extra rows_u rows_i st0 :
  ot <> "json" -> ot <> "bin" ->
  read_utxo_dump pu = Ok (map Ok rows_u) ->
  read_bitcoin_iterate pi = Ok (map Ok rows_i) ->
  Z.of_nat (length rows_i) <= i32_MAX ->
  Z.of_nat (length (join_spec mt rows_u rows_i)) <= i32_MAX ->
  exists st,
    main overflow_checks can_create read_utxo_dump read_bitcoin_iterate
      (prog :: pu :: pi :: ot :: mt :: loc :: extra) st0 = (st, Ok tt) /\
    fs st = fs st0.
Proof.
  intros Hj Hb Hu Hi Hn Hmax.
  destruct (main_run prog pu pi ot mt loc extra rows_u rows_i st0 Hu Hi)
    as (st & Hrun & Hw & _); auto.
  - unfold outputs_creatable, parts_creatable. simpl. split; intros; contradiction.
  - exists st. split; [exact Hrun|]. unfold outputs_written in Hw. simpl in Hw.
    rewrite !decide_False in Hw by assumption. exact Hw.
Qed.

(** A row of the UTXO dump that fails to deserialize ends the run with
    its error before any output file is created. *)
Theorem main_utxo_row_error prog pu pi ot mt loc extra pre e rest st0 :
  read_utxo_dump pu = Ok (map Ok pre ++ Err e :: rest) ->
  exists st,
    main overflow_checks can_create read_utxo_dump read_bitcoin_iterate
      (prog :: pu :: pi :: ot :: mt :: loc :: extra) st0 = (st, Err e) /\
    fs st = fs st0.
Proof.
  intros Hu. unfold main, arg. simpl. run_ste. rewrite Hu. simpl.
  rewrite load_utxo_dump_app. eexists. split; reflexivity.
Qed.

(** Fewer than five positional arguments: [&args[n]] panics with an
    index out of bounds before anything is read, printed or written. *)
Theorem main_missing_args args st0 :
  (length args <= 5)%nat ->
  exists msg,
    main overflow_checks can_create read_utxo_dump read_bitcoin_iterate args st0
    = (st0, Err (Panic msg)).
Proof.
  intros Hlen. unfold main, arg.
  destruct args as [|a0 [|a1 [|a2 [|a3 [|a4 [|a5 rest]]]]]]; simpl in Hlen; try lia;
    run_ste; eexists; reflexivity.
Qed.

(** An input path that cannot be read is an I/O error that ends the
    run with that error and writes no file: the UTXO dump before anything
    is printed, the position dump after the index is built and only the
    first progress line printed. *)
Theorem main_io_error prog pu pi ot mt loc extra rows_u e st0 :
  (read_utxo_dump pu = Err e ->
   main overflow_checks can_create read_utxo_dump read_bitcoin_iterate
     (prog :: pu :: pi :: ot :: mt :: loc :: extra) st0 = (st0, Err e)) /\
  (read_utxo_dump pu = Ok (map Ok rows_u) -> read_bitcoin_iterate pi = Err e ->
   main overflow_checks can_create read_utxo_dump read_bitcoin_iterate
     (prog :: pu :: pi :: ot :: mt :: loc :: extra) st0
   = (set_stdout (stdout st0 ++ ["Dumping p2wsh utxo set..."]) st0, Err e)).
Proof.
  split.
  - intros Hu. unfold main, arg. simpl. run_ste. rewrite Hu. reflexivity.
  - intros Hu Hi. destruct (load_utxo_dump_index rows_u) as [Hload _].
    unfold main, arg. simpl. run_ste. rewrite Hu. simpl. rewrite Hload, Hi. reflexivity.
Qed.

(** An output file that cannot be created is fatal: in binary mode
    the run joins every row and then panics on [File::create], with no
    file written. *)
Theorem main_bin_unwritable prog pu pi mt loc extra rows_u rows_i st0 :
  read_utxo_dump pu = Ok (map Ok rows_u) ->
  read_bitcoin_iterate pi = Ok (map Ok rows_i) ->
  can_create (bin_path loc) = false ->
  Z.of_nat (length rows_i) <= i32_MAX ->
  Z.of_nat (length (join_spec mt rows_u rows_i)) <= i32_MAX ->
  exists st msg,
    main overflow_checks can_create read_utxo_dump read_bitcoin_iterate
      (prog :: pu :: pi :: "bin" :: mt :: loc :: extra) st0 = (st, Err (Panic msg)) /\
    fs st = fs st0.
Proof.
  intros Hu Hi Hc Hn Hmax.
  destruct (main_prefix prog pu pi "bin" mt loc extra rows_u _ st0 Hu Hi) as (m & Hidx & ->).
  rewrite <- (join_index mt m rows_u rows_i Hidx) in *.
  destruct (analyze_inv overflow_checks can_create (mkConfig "bin" mt loc) (fs st0) m [] rows_i
              _ (emit_inv_init _ _ (stdout st0 ++ ["Dumping p2wsh utxo set...";
                                                   "Analyzing all utxos..."])))
    as (st2 & Hrun & Hinv & _); [simpl; lia | exact Hmax | intros Hj; discriminate |].
  rewrite sbind_run, Hrun.
  destruct Hinv as (fl & _ & _ & _ & Hfs & _ & Hmode). simpl in Hmode. subst fl.
  unfold finish, create_write. run_ste. simpl. rewrite Hc.
  eexists _, _. split; [reflexivity|]. exact Hfs.
Qed.
End Main.

(** ** Concrete runs *)

(** The end-to-end scenario of the specification: one output
    ([abc], output 2, height 100, amount 5000) and one position row
    ([abc], position 7), in [full]/[json] mode, give the single part
    [out/part-1.json] with that one record. *)
Example main_scenario_abc :
  let '(st, r) := main true (fun _ => true) (read_fixture_utxos 1) read_fixture_rows
                    (fixture_args "json" "full") fixture_state in
  (map_to_list (fs st), r) =
  ([("out/part-1.json",
     JsonFile [{| block_height := 100; id := Some "abc"; block_index := 7;
                  transaction_index := 2; amount := Some 5000 |}])], Ok tt).
Proof. vm_compute. reflexivity. Qed.



(** ** Witnesses *)

Lemma main_refines_witness :
  read_fixture_utxos 1 "utxo.csv" = Ok (map Ok (fixture_utxos 1)) /\
  read_fixture_rows "iterate.csv" = Ok (map Ok fixture_rows) /\
  outputs_creatable (fun _ => true) (mkConfig "json" "full" "out") /\
  Z.of_nat (length fixture_rows) <= i32_MAX /\
  Z.of_nat (length (join_spec "full" (fixture_utxos 1) fixture_rows)) <= i32_MAX /\
  exists st,
    main true (fun _ => true) (read_fixture_utxos 1) read_fixture_rows
      (fixture_args "json" "full") fixture_state = (st, Ok tt) /\
    outputs_written (mkConfig "json" "full" "out") (fs fixture_state)
      (join_spec "full" (fixture_utxos 1) fixture_rows) (fs st) /\
    last (stdout st) = Some (total_line (length (join_spec "full" (fixture_utxos 1) fixture_rows))).
Proof.
  split; [reflexivity|]. split; [reflexivity|].
  split; [unfold outputs_creatable, parts_creatable; split; intros; reflexivity|]. split; [vm_compute; congruence|].
  split; [vm_compute; congruence|].
  apply main_refines; [reflexivity | reflexivity | unfold outputs_creatable, parts_creatable; split; intros; reflexivity
                      | vm_compute; congruence | vm_compute; congruence].
Defined.

Lemma main_iterate_row_error_witness :
  read_fixture_utxos 1 "utxo.csv" = Ok (map Ok (fixture_utxos 1)) /\
  read_fixture_rows_err "iterate.csv"
    = Ok (map Ok fixture_rows ++ Err (CsvError "bad row") :: []) /\
  outputs_creatable (fun _ => true) (mkConfig "json" "full" "out") /\
  Z.of_nat (length fixture_rows) <= i32_MAX /\
  Z.of_nat (length (join_spec "full" (fixture_utxos 1) fixture_rows)) <= i32_MAX /\
  exists st flushed,
    main true (fun _ => true) (read_fixture_utxos 1) read_fixture_rows_err
      (fixture_args "json" "full") fixture_state = (st, Err (CsvError "bad row")) /\
    Forall (fun b => Z.of_nat (length b) = BATCH) flushed /\
    concat flushed `prefix_of` join_spec "full" (fixture_utxos 1) fixture_rows /\
    fs st = write_parts (fs fixture_state) "out" 1 flushed.
Proof.
  split; [reflexivity|]. split; [reflexivity|].
  split; [unfold outputs_creatable, parts_creatable; split; intros; reflexivity|]. split; [vm_compute; congruence|].
  split; [vm_compute; congruence|].
  apply main_iterate_row_error with (rest := []); [reflexivity | reflexivity | unfold outputs_creatable, parts_creatable; split; intros; reflexivity
                                | vm_compute; congruence | vm_compute; congruence].
Defined.

Lemma main_json_parts_witness :
  read_fixture_utxos 1 "utxo.csv" = Ok (map Ok (fixture_utxos 1)) /\
  read_fixture_rows "iterate.csv" = Ok (map Ok fixture_rows) /\
  (forall p, (fun _ : string => true) (part_path "out" p) = true) /\
  Z.of_nat (length fixture_rows) <= i32_MAX /\
  Z.of_nat (length (join_spec "full" (fixture_utxos 1) fixture_rows)) <= i32_MAX /\
  exists st flushed last,
    main true (fun _ => true) (read_fixture_utxos 1) read_fixture_rows
      (fixture_args "json" "full") fixture_state = (st, Ok tt) /\
    fs st = write_parts (fs fixture_state) "out" 1 (flushed ++ [last]) /\
    concat (flushed ++ [last]) = join_spec "full" (fixture_utxos 1) fixture_rows /\
    Z.of_nat (length flushed)
      = Z.of_nat (length (join_spec "full" (fixture_utxos 1) fixture_rows)) / BATCH /\
    Forall (fun b => Z.of_nat (length b) = BATCH) flushed /\
    Z.of_nat (length last)
      = Z.of_nat (length (join_spec "full" (fixture_utxos 1) fixture_rows)) mod BATCH.
Proof.
  split; [reflexivity|]. split; [reflexivity|]. split; [intros; reflexivity|].
  split; [vm_compute; congruence|]. split; [vm_compute; congruence|].
  apply main_json_parts; [reflexivity | reflexivity | intros; reflexivity
                         | vm_compute; congruence | vm_compute; congruence].
Defined.

Lemma main_json_10000_10001_witness :
  read_fixture_utxos (Z.to_nat 10001) "utxo.csv" = Ok (map Ok (fixture_utxos (Z.to_nat 10001))) /\
  read_fixture_rows "iterate.csv" = Ok (map Ok fixture_rows) /\
  (forall p, (fun _ : string => true) (part_path "out" p) = true) /\
  Z.of_nat (length fixture_rows) <= i32_MAX /\
  (Z.of_nat (length (join_spec "min" (fixture_utxos (Z.to_nat 10001)) fixture_rows)) = 10000 \/
   Z.of_nat (length (join_spec "min" (fixture_utxos (Z.to_nat 10001)) fixture_rows)) = 10001) /\
  exists st part1 part2,
    main true (fun _ => true) (read_fixture_utxos (Z.to_nat 10001)) read_fixture_rows
      (fixture_args "json" "min") fixture_state = (st, Ok tt) /\
    fs st = <[part_path "out" 2 := JsonFile part2]>
              (<[part_path "out" 1 := JsonFile part1]> (fs fixture_state)) /\
    part1 ++ part2 = join_spec "min" (fixture_utxos (Z.to_nat 10001)) fixture_rows /\
    Z.of_nat (length part1) = 10000 /\
    Z.of_nat (length part2)
      = Z.of_nat (length (join_spec "min" (fixture_utxos (Z.to_nat 10001)) fixture_rows)) - 10000.
Proof.
  assert (H5 : Z.of_nat (length (join_spec "min" (fixture_utxos (Z.to_nat 10001)) fixture_rows))
               = 10001) by (vm_compute; reflexivity).
  split; [reflexivity|]. split; [reflexivity|]. split; [intros; reflexivity|].
  split; [vm_compute; congruence|]. split; [right; exact H5|].
  apply main_json_10000_10001; [reflexivity | reflexivity | intros; reflexivity
                               | vm_compute; congruence | right; exact H5].
Defined.

Lemma analyze_row_miss_witness :
  (∅ : gmap string (list UtxoDump.t)) !! IterateDump.txid (IterateDump.mk "xyz" 3) = None /\
  i fixture_state < i32_MAX /\
  exists st',
    analyze_row true (fun _ => true) (mkConfig "json" "full" "out") ∅ (IterateDump.mk "xyz" 3)
      fixture_state = (st', Ok tt) /\
    scrape_results st' = scrape_results fixture_state /\ found st' = found fixture_state /\
    part st' = part fixture_state /\ fs st' = fs fixture_state /\ i st' = i fixture_state + 1.
Proof.
  split; [reflexivity|]. split; [vm_compute; reflexivity|].
  apply analyze_row_miss; [reflexivity | vm_compute; reflexivity].
Defined.

Lemma push_result_found_overflow_witness :
  found (mkState [] 0 i32_MAX 1 ∅ []) = i32_MAX /\
  snd (push_result true (fun _ => true) (mkConfig "json" "full" "out")
         (IterateDump.mk "abc" 7) (UtxoDump.mk "abc" 2 100 5000) (mkState [] 0 i32_MAX 1 ∅ []))
    = Err (Panic "attempt to add with overflow") /\
  exists st',
    push_result false (fun _ => true) (mkConfig "json" "full" "out")
      (IterateDump.mk "abc" 7) (UtxoDump.mk "abc" 2 100 5000) (mkState [] 0 i32_MAX 1 ∅ [])
      = (st', Ok tt) /\
    found st' = i32_MIN /\
    scrape_results st' = [make_result "full" (IterateDump.mk "abc" 7) (UtxoDump.mk "abc" 2 100 5000)] /\
    fs st' = ∅.
Proof.
  split; [reflexivity|]. apply push_result_found_overflow. reflexivity.
Defined.

Lemma main_unknown_format_witness :
  "csv" <> "json" /\ "csv" <> "bin" /\
  read_fixture_utxos 1 "utxo.csv" = Ok (map Ok (fixture_utxos 1)) /\
  read_fixture_rows "iterate.csv" = Ok (map Ok fixture_rows) /\
  Z.of_nat (length fixture_rows) <= i32_MAX /\
  Z.of_nat (length (join_spec "full" (fixture_utxos 1) fixture_rows)) <= i32_MAX /\
  exists st,
    main true (fun _ => true) (read_fixture_utxos 1) read_fixture_rows
      (fixture_args "csv" "full") fixture_state = (st, Ok tt) /\
    fs st = fs fixture_state.
Proof.
  split; [discriminate|]. split; [discriminate|]. split; [reflexivity|]. split; [reflexivity|].
  split; [vm_compute; congruence|]. split; [vm_compute; congruence|].
  apply main_unknown_format with (rows_u := fixture_utxos 1) (rows_i := fixture_rows); [discriminate | discriminate | reflexivity | reflexivity
                             | vm_compute; congruence | vm_compute; congruence].
Defined.

Lemma main_utxo_row_error_witness :
  read_fixture_utxos_err "utxo.csv" = Ok (map Ok (fixture_utxos 1) ++ Err (CsvError "bad row") :: []) /\
  exists st,
    main true (fun _ => true) read_fixture_utxos_err read_fixture_rows
      (fixture_args "json" "full") fixture_state = (st, Err (CsvError "bad row")) /\
    fs st = fs fixture_state.
Proof.
  split; [reflexivity|]. apply main_utxo_row_error with (pre := fixture_utxos 1) (rest := []). reflexivity.
Defined.

Lemma main_missing_args_witness :
  (length ["p2wsh-utxo"; "utxo.csv"; "iterate.csv"] <= 5)%nat /\
  exists msg,
    main true (fun _ => true) (read_fixture_utxos 1) read_fixture_rows
      ["p2wsh-utxo"; "utxo.csv"; "iterate.csv"] fixture_state
    = (fixture_state, Err (Panic msg)).
Proof.
  split; [simpl; lia|].
  apply main_missing_args. simpl. lia.
Defined.

Lemma main_io_error_witness :
  (read_fixture_utxos 1 "missing.csv" = Err (IoError "missing.csv") /\
   main true (fun _ => true) (read_fixture_utxos 1) read_fixture_rows
     ["p2wsh-utxo"; "missing.csv"; "iterate.csv"; "json"; "full"; "out"] fixture_state
   = (fixture_state, Err (IoError "missing.csv"))) /\
  (read_fixture_utxos 1 "utxo.csv" = Ok (map Ok (fixture_utxos 1)) /\
   read_fixture_rows "missing.csv" = Err (IoError "missing.csv") /\
   main true (fun _ => true) (read_fixture_utxos 1) read_fixture_rows
     ["p2wsh-utxo"; "utxo.csv"; "missing.csv"; "json"; "full"; "out"] fixture_state
   = (set_stdout (stdout fixture_state ++ ["Dumping p2wsh utxo set..."]) fixture_state,
      Err (IoError "missing.csv"))).
Proof.
  split.
  - split; [reflexivity|].
    apply (proj1 (main_io_error true (fun _ => true) (read_fixture_utxos 1) read_fixture_rows
                    "p2wsh-utxo" "missing.csv" "iterate.csv" "json" "full" "out" []
                    (fixture_utxos 1) (IoError "missing.csv") fixture_state)).
    reflexivity.
  - split; [reflexivity|]. split; [reflexivity|].
    apply (proj2 (main_io_error true (fun _ => true) (read_fixture_utxos 1) read_fixture_rows
                    "p2wsh-utxo" "utxo.csv" "missing.csv" "json" "full" "out" []
                    (fixture_utxos 1) (IoError "missing.csv") fixture_state));
      reflexivity.
Defined.

Lemma main_bin_unwritable_witness :
  read_fixture_utxos 1 "utxo.csv" = Ok (map Ok (fixture_utxos 1)) /\
  read_fixture_rows "iterate.csv" = Ok (map Ok fixture_rows) /\
  (fun p => negb (bool_decide (p = bin_path "out"))) (bin_path "out") = false /\
  Z.of_nat (length fixture_rows) <= i32_MAX /\
  Z.of_nat (length (join_spec "full" (fixture_utxos 1) fixture_rows)) <= i32_MAX /\
  exists st msg,
    main true (fun p => negb (bool_decide (p = bin_path "out"))) (read_fixture_utxos 1)
      read_fixture_rows (fixture_args "bin" "full") fixture_state = (st, Err (Panic msg)) /\
    fs st = fs fixture_state.
Proof.
  split; [reflexivity|]. split; [reflexivity|]. split; [reflexivity|].
  split; [vm_compute; congruence|]. split; [vm_compute; congruence|].
  apply (main_bin_unwritable true (fun p => negb (bool_decide (p = bin_path "out")))
           (read_fixture_utxos 1) read_fixture_rows _ _ _ _ _ _ (fixture_utxos 1) fixture_rows);
    [reflexivity | reflexivity | reflexivity | vm_compute; congruence | vm_compute; congruence].
Defined.

Lemma join_spec_well_typed_witness :
  Forall (fun u => UtxoDump.wf u = true) (fixture_utxos 2) /\
  Forall (fun it => IterateDump.wf it = true) fixture_rows /\
  Forall (fun r => UTXO_wf r = true) (join_spec "full" (fixture_utxos 2) fixture_rows).
Proof.
  split; [simpl; repeat constructor|]. split; [simpl; repeat constructor|].
  apply join_spec_well_typed; simpl; repeat constructor.
Defined.
