(* ===== verification/Batch.v ===== *)
(** * Batch: the records held in memory by the emission loop

    The loop of main.rs 79-128 keeps the records not yet written in
    [scrape_results]; in JSON mode it writes them out whenever the [i32]
    counter [found] reaches a multiple of 10000 ([found % 10000 == 0]).
    Its states are the Inductive [reachable]: the state at the start of
    the loop (main.rs 73-77), then any sequence of the two steps the loop
    takes, the row count [count_row] and the record push [push_result],
    each as the monadic run of Pipeline.v that returns [Ok].

    [batch_len f] is the size of the batch when the counter reads [f].  It
    is [f mod 10000] except just after the wrap-around of a release build:
    at [i32::MAX] the batch holds [i32::MAX mod 10000 = 3647] records, the
    counter wraps to [i32::MIN], and the next multiple of 10000 is
    [i32::MIN + 3648], so the records pushed meanwhile join the old ones.
    In any other mode nothing is flushed and the batch holds every record
    counted.

    The Inductive [within P n st] is a bounded eventually over the push
    step: [P] holds at [st], or every next record can be pushed and each
    push leads to a state where [within P (n - 1)] holds.  In JSON mode an
    empty batch is [within] 10000 pushes of every reachable state. *)

From S2P Require Import Prelude Types Index Pipeline PipelineProofs.

Open Scope Z_scope.

Definition batch_len (f : Z) : Z :=
  if f <? i32_MIN + (- i32_MIN) mod BATCH
  then f - i32_MIN + i32_MAX mod BATCH + 1
  else f mod BATCH.

Section Reach.
Context (overflow_checks : bool) (can_create : string -> bool) (cfg : Config).

Inductive reachable : State -> Prop :=
| reach_init fs out : reachable (mkState [] 0 0 1 fs out)
| reach_count st st' :
    reachable st -> count_row overflow_checks st = (st', Ok tt) -> reachable st'
| reach_push st iterate utxo st' :
    reachable st -> push_result overflow_checks can_create cfg iterate utxo st = (st', Ok tt) ->
    reachable st'.

(** The invariant: the counter is an [i32]; in JSON mode the batch holds
    [batch_len found] records, in any other mode every record counted
    (modulo the wrap-around of the counter). *)
Definition batch_inv (st : State) : Prop :=
  i32_MIN <= found st <= i32_MAX /\
  (output_type cfg = "json" -> Z.of_nat (length (scrape_results st)) = batch_len (found st)) /\
  (output_type cfg <> "json" -> Z.of_nat (length (scrape_results st)) mod 2 ^ 32 = found st mod 2 ^ 32).

(** The states from which, whatever records are pushed next, every push
    succeeds and a state satisfying [P] is reached within [n] pushes. *)
Inductive within (P : State -> Prop) : nat -> State -> Prop :=
| within_done n st : P st -> within P n st
| within_step n st :
    (forall iterate utxo, exists st',
        push_result overflow_checks can_create cfg iterate utxo st = (st', Ok tt)) ->
    (forall iterate utxo st',
        push_result overflow_checks can_create cfg iterate utxo st = (st', Ok tt) ->
        within P n st') ->
    within P (S n) st.

(** ** Lemmas *)

Lemma i32_incr_range x y :
  i32_MIN <= x <= i32_MAX -> i32_incr overflow_checks x = Some y -> i32_MIN <= y <= i32_MAX.
Proof.
  unfold i32_incr. intros Hx H. destruct (Z.eqb_spec x i32_MAX).
  - destruct overflow_checks; [discriminate|]. injection H as <-. zlia.
  - injection H as <-. lia.
Qed.

Lemma count_row_ok st st' :
  count_row overflow_checks st = (st', Ok tt) ->
  scrape_results st' = scrape_results st /\ found st' = found st.
Proof.
  intros H. unfold count_row, incr, println in H. run_ste.
  destruct (i32_incr overflow_checks (i st)); [|discriminate].
  destruct (decide _); injection H as <-; split; reflexivity.
Qed.

(** What a successful push does to the batch and the counter. *)
Lemma push_result_ok iterate utxo st st' :
  push_result overflow_checks can_create cfg iterate utxo st = (st', Ok tt) ->
  exists f', i32_incr overflow_checks (found st) = Some f' /\ found st' = f' /\
    scrape_results st' =
      (if decide (output_type cfg = "json" /\ Z.rem f' BATCH = 0) then []
       else scrape_results st ++ [make_result (minimized_type cfg) iterate utxo]) /\
    (output_type cfg = "json" -> Z.rem f' BATCH = 0 ->
     fs st' !! part_path (file_location cfg) (part st)
     = Some (JsonFile (scrape_results st ++ [make_result (minimized_type cfg) iterate utxo]))).
Proof.
  intros H. unfold push_result, incr, create_write, println in H. run_ste. simpl in H.
  destruct (i32_incr overflow_checks (found st)) as [f'|]; [|discriminate].
  exists f'. split; [reflexivity|].
  destruct (decide (output_type cfg = "json")) as [Hj|Hj];
    [destruct (decide (Z.rem f' BATCH = 0)) as [Hr|Hr]|].
  - destruct (can_create _); [|discriminate]. simpl in H.
    destruct (i32_incr overflow_checks (part st)); [|discriminate].
    injection H as <-. rewrite decide_True by tauto. repeat split.
    intros _ _. apply lookup_insert_eq.
  - injection H as <-. rewrite decide_False by tauto. repeat split. intros _ Hz. contradiction.
  - injection H as <-. rewrite decide_False by tauto. repeat split. intros Hj'. contradiction.
Qed.

(** The counter steps the batch: a multiple of 10000 empties it, any
    other value adds the record, across the wrap-around as well. *)
Lemma batch_len_step f f' :
  i32_MIN <= f <= i32_MAX -> i32_incr overflow_checks f = Some f' ->
  batch_len f' = if decide (Z.rem f' BATCH = 0) then 0 else batch_len f + 1.
Proof.
  unfold i32_incr, batch_len. intros Hf H. destruct (Z.eqb_spec f i32_MAX) as [->|Hne].
  - destruct overflow_checks; [discriminate|]. injection H as <-. reflexivity.
  - injection H as <-. destruct (decide _) as [Hr|Hr];
      destruct (Z.ltb_spec (f + 1) (i32_MIN + (- i32_MIN) mod BATCH));
      destruct (Z.ltb_spec f (i32_MIN + (- i32_MIN) mod BATCH)); plia.
Qed.

Lemma batch_len_bound f : i32_MIN <= f <= i32_MAX -> 0 <= batch_len f < BATCH.
Proof. unfold batch_len. intros Hf. destruct (Z.ltb_spec f (i32_MIN + (- i32_MIN) mod BATCH)); plia. Qed.

Lemma reachable_inv st : reachable st -> batch_inv st.
Proof.
  unfold batch_inv. induction 1 as [fs out|st st' _ (Hr & IH & IHb) Hc|st it u st' _ (Hr & IH & IHb) Hp].
  - simpl. split; [zlia|]. split; intros _; reflexivity.
  - destruct (count_row_ok st st' Hc) as [-> ->]. auto.
  - destruct (push_result_ok it u st st' Hp) as (f' & Hf' & -> & -> & _).
    split; [eapply i32_incr_range; eauto|]. split; intros Hj.
    + rewrite (batch_len_step (found st) f' Hr Hf').
      destruct (decide (Z.rem f' BATCH = 0)) as [Hz|Hz].
      * rewrite decide_True by tauto. reflexivity.
      * rewrite decide_False by tauto. rewrite length_app. simpl. rewrite <- IH by exact Hj. lia.
    + rewrite decide_False by tauto. rewrite length_app. simpl.
      specialize (IHb Hj). revert Hf'. unfold i32_incr.
      destruct (Z.eqb_spec (found st) i32_MAX); [destruct overflow_checks|]; intros Hf';
        injection Hf' as <- || discriminate; zlia.
Qed.
Lemma within_mono P n m st : within P n st -> (n <= m)%nat -> within P m st.
Proof.
  intros H. revert m. induction H as [n st HP|n st Hex Hnext IH]; intros m Hm.
  - apply within_done, HP.
  - destruct m as [|m]; [lia|]. apply within_step; [exact Hex|].
    intros it u st' Hp. apply (IH it u st' Hp). lia.
Qed.

End Reach.

(** In a release build with every file creatable, a push always succeeds. *)
Lemma push_result_release cfg iterate utxo st :
  exists st', push_result false (fun _ => true) cfg iterate utxo st = (st', Ok tt).
Proof.
  unfold push_result, incr, create_write, println, i32_incr. run_ste. simpl.
  repeat first [progress simplify_eq/= | case_match]; eauto.
Qed.

Lemma reachable_release_step cfg st :
  reachable false (fun _ => true) cfg st ->
  exists st', reachable false (fun _ => true) cfg st' /\
    i32_incr false (found st) = Some (found st').
Proof.
  intros Hr.
  destruct (push_result_release cfg (IterateDump.mk "" 0) (UtxoDump.mk "" 0 0 0) st) as [st' Hp].
  exists st'. split; [eapply reach_push; eauto|].
  destruct (push_result_ok false _ cfg _ _ _ _ Hp) as (f' & Hi & -> & _). exact Hi.
Qed.

(** Every [i32] value of the counter is reached by a release build. *)
Lemma reachable_release_count cfg x :
  i32_MIN <= x <= i32_MAX ->
  exists st, reachable false (fun _ => true) cfg st /\ found st = x.
Proof.
  assert (Hup : forall st0 (k : nat), reachable false (fun _ => true) cfg st0 ->
            found st0 + Z.of_nat k <= i32_MAX ->
            exists st, reachable false (fun _ => true) cfg st /\ found st = found st0 + Z.of_nat k).
  { intros st0 k Hr0. induction k as [|k IH]; intros Hle.
    - exists st0. split; [exact Hr0 | lia].
    - destruct IH as (st & Hr & Hf); [lia|].
      destruct (reachable_release_step cfg st Hr) as (st' & Hr' & Hi).
      exists st'. split; [exact Hr'|]. unfold i32_incr in Hi.
      rewrite (proj2 (Z.eqb_neq _ _)) in Hi by lia. injection Hi as <-. lia. }
  intros Hx. destruct (Z.leb_spec 0 x).
  - destruct (Hup (mkState [] 0 0 1 ∅ []) (Z.to_nat x) (reach_init _ _ _ _ _) ltac:(simpl; lia))
      as (st & Hr & Hf). exists st. split; [exact Hr | simpl in Hf; lia].
  - destruct (Hup (mkState [] 0 0 1 ∅ []) (Z.to_nat i32_MAX) (reach_init _ _ _ _ _)
                  ltac:(simpl; zlia)) as (st & Hr & Hf).
    destruct (reachable_release_step cfg st Hr) as (st1 & Hr1 & Hi).
    rewrite Hf, Z2Nat.id in Hi by zlia. simpl in Hi. unfold i32_incr in Hi.
    rewrite Z.eqb_refl in Hi. injection Hi as Hmin.
    destruct (Hup st1 (Z.to_nat (x - i32_MIN)) Hr1 ltac:(rewrite <- Hmin; zlia)) as (st2 & Hr2 & Hf2).
    exists st2. split; [exact Hr2|]. rewrite Hf2, <- Hmin. zlia.
Qed.

(** A push that neither overflows nor meets an uncreatable file. *)
Lemma push_flush_within overflow_checks can_create cfg (n : nat) st :
  reachable overflow_checks can_create cfg st -> output_type cfg = "json" ->
  (forall p, can_create (part_path (file_location cfg) p) = true) ->
  0 <= found st -> part st < i32_MAX ->
  Z.of_nat n = BATCH - Z.of_nat (length (scrape_results st)) ->
  found st + Z.of_nat n <= i32_MAX ->
  within overflow_checks can_create cfg (fun st' => scrape_results st' = []) n st.
Proof.
  revert st. induction n as [|n IH]; intros st Hr Hj Hc Hf Hp Hn Hmax.
  - exfalso. destruct (reachable_inv _ _ _ _ Hr) as (Hrange & Hl & _).
    pose proof (batch_len_bound _ Hrange). rewrite <- (Hl Hj) in *. lia.
  - destruct (scrape_results st) as [|r rs] eqn:E; [apply within_done, E|].
    assert (Hrun : forall it u, push_result overflow_checks can_create cfg it u st
                                = (push_result_post cfg it u st, Ok tt))
      by (intros it u; apply push_result_run; [lia | intros _; split; auto]).
    apply within_step; [intros it u; eexists; apply Hrun|].
    intros it u st' Hpush. rewrite Hrun in Hpush. injection Hpush as <-.
    unfold push_result_post. destruct (decide (flushes cfg (found st + 1))).
    + apply within_done. reflexivity.
    + apply IH; simpl; try lia.
      * eapply reach_push; [exact Hr|]. rewrite Hrun. unfold push_result_post.
        rewrite decide_False by assumption. reflexivity.
      * exact Hj.
      * exact Hc.
      * rewrite E, length_app in *. simpl in *. lia.
Qed.

(** ** Theorems *)

(** C13: flushing bounds the memory of the run, in either build profile:
    in JSON mode every state the emission loop reaches holds exactly
    [batch_len found] records in [scrape_results], fewer than 10000, also
    after a release build's counter wraps around. *)
Theorem reachable_batch_bounded overflow_checks can_create cfg st :
  reachable overflow_checks can_create cfg st -> output_type cfg = "json" ->
  Z.of_nat (length (scrape_results st)) = batch_len (found st) /\ batch_len (found st) < BATCH.
Proof.
  intros Hr Hj. destruct (reachable_inv _ _ _ _ Hr) as (Hf & Hl & _).
  split; [exact (Hl Hj)|]. apply batch_len_bound, Hf.
Qed.

(** C38: a release build does write a JSON part of other than 10000
    records before its end: once [found] has wrapped to [i32::MIN], the
    next multiple of 10000 is reached after 3648 more records, and the
    part then written holds those and the 3648 left from before the wrap,
    7296 records. *)
Theorem release_short_part cfg :
  output_type cfg = "json" ->
  exists st iterate utxo st' l,
    reachable false (fun _ => true) cfg st /\
    push_result false (fun _ => true) cfg iterate utxo st = (st', Ok tt) /\
    fs st' !! part_path (file_location cfg) (part st) = Some (JsonFile l) /\
    Z.of_nat (length l) = 7296.
Proof.
  intros Hj. destruct (reachable_release_count cfg (i32_MIN + 3647)) as (st & Hr & Hf); [zlia|].
  destruct (push_result_release cfg (IterateDump.mk "" 0) (UtxoDump.mk "" 0 0 0) st) as [st' Hp].
  destruct (push_result_ok false _ cfg _ _ _ _ Hp) as (f' & Hi & _ & _ & Hfs).
  rewrite Hf in Hi. vm_compute in Hi. injection Hi as <-.
  destruct (reachable_inv _ _ _ _ Hr) as (_ & Hl & _).
  eexists st, _, _, st', _. split; [exact Hr|]. split; [exact Hp|].
  split; [apply Hfs; [exact Hj | reflexivity]|].
  assert (E : batch_len (i32_MIN + 3647) = 7295) by reflexivity.
  rewrite length_app. simpl. specialize (Hl Hj). rewrite Hf, E in Hl. lia.
Qed.

(** C14: in any mode but JSON the batch is never flushed: every state the
    loop reaches holds every record counted so far, as many as [found]
    reads (modulo 2^32, where a release build's counter wraps), so the
    memory of a binary run grows with its output. *)
Theorem reachable_bin_unbounded overflow_checks can_create cfg st :
  reachable overflow_checks can_create cfg st -> output_type cfg <> "json" ->
  Z.of_nat (length (scrape_results st)) mod 2 ^ 32 = found st mod 2 ^ 32.
Proof.
  intros Hr Hj. destruct (reachable_inv _ _ _ _ Hr) as (_ & _ & Hb). exact (Hb Hj).
Qed.

(** C15: in JSON mode a flush is never more than 10000 records away: from
    every reachable state whose counters leave room for 10000 more records,
    whatever records are pushed next, each push succeeds and within 10000
    of them the batch is written out and emptied. *)
Theorem reachable_flush_within overflow_checks can_create cfg st :
  reachable overflow_checks can_create cfg st -> output_type cfg = "json" ->
  (forall p, can_create (part_path (file_location cfg) p) = true) ->
  0 <= found st -> found st + BATCH <= i32_MAX -> part st < i32_MAX ->
  within overflow_checks can_create cfg (fun st' => scrape_results st' = [])
    (Z.to_nat BATCH) st.
Proof.
  intros Hr Hj Hc Hf Hmax Hp.
  destruct (reachable_inv _ _ _ _ Hr) as (Hrange & Hl & _).
  pose proof (batch_len_bound _ Hrange). specialize (Hl Hj).
  apply (within_mono _ _ _ _ (Z.to_nat (BATCH - Z.of_nat (length (scrape_results st))))).
  - apply push_flush_within; try assumption; lia.
  - lia.
Qed.

(** ** Witnesses *)

Lemma reachable_batch_bounded_witness :
  reachable true (fun _ => true) (mkConfig "json" "full" "out")
    (fst (push_result true (fun _ => true) (mkConfig "json" "full" "out")
            (IterateDump.mk "abc" 7) (UtxoDump.mk "abc" 2 100 5000) fixture_state)) /\
  output_type (mkConfig "json" "full" "out") = "json" /\
  (Z.of_nat (length (scrape_results
     (fst (push_result true (fun _ => true) (mkConfig "json" "full" "out")
            (IterateDump.mk "abc" 7) (UtxoDump.mk "abc" 2 100 5000) fixture_state))))
   = batch_len (found (fst (push_result true (fun _ => true) (mkConfig "json" "full" "out")
            (IterateDump.mk "abc" 7) (UtxoDump.mk "abc" 2 100 5000) fixture_state))) /\
   batch_len (found (fst (push_result true (fun _ => true) (mkConfig "json" "full" "out")
            (IterateDump.mk "abc" 7) (UtxoDump.mk "abc" 2 100 5000) fixture_state))) < BATCH).
Proof.
  assert (Hr : reachable true (fun _ => true) (mkConfig "json" "full" "out")
    (fst (push_result true (fun _ => true) (mkConfig "json" "full" "out")
            (IterateDump.mk "abc" 7) (UtxoDump.mk "abc" 2 100 5000) fixture_state)))
    by (eapply reach_push; [apply (reach_init _ _ _ ∅ []) | reflexivity]).
  split; [exact Hr|]. split; [reflexivity|].
  exact (reachable_batch_bounded _ _ _ _ Hr eq_refl).
Defined.

Lemma release_short_part_witness :
  output_type (mkConfig "json" "full" "out") = "json" /\
  exists st iterate utxo st' l,
    reachable false (fun _ => true) (mkConfig "json" "full" "out") st /\
    push_result false (fun _ => true) (mkConfig "json" "full" "out") iterate utxo st = (st', Ok tt) /\
    fs st' !! part_path (file_location (mkConfig "json" "full" "out")) (part st) = Some (JsonFile l) /\
    Z.of_nat (length l) = 7296.
Proof. split; [reflexivity|]. apply release_short_part. reflexivity. Defined.

Lemma reachable_bin_unbounded_witness :
  reachable true (fun _ => true) (mkConfig "bin" "full" "out")
    (fst (push_result true (fun _ => true) (mkConfig "bin" "full" "out")
            (IterateDump.mk "abc" 7) (UtxoDump.mk "abc" 2 100 5000) fixture_state)) /\
  output_type (mkConfig "bin" "full" "out") <> "json" /\
  Z.of_nat (length (scrape_results
     (fst (push_result true (fun _ => true) (mkConfig "bin" "full" "out")
            (IterateDump.mk "abc" 7) (UtxoDump.mk "abc" 2 100 5000) fixture_state)))) mod 2 ^ 32
  = found (fst (push_result true (fun _ => true) (mkConfig "bin" "full" "out")
            (IterateDump.mk "abc" 7) (UtxoDump.mk "abc" 2 100 5000) fixture_state)) mod 2 ^ 32.
Proof.
  assert (Hr : reachable true (fun _ => true) (mkConfig "bin" "full" "out")
    (fst (push_result true (fun _ => true) (mkConfig "bin" "full" "out")
            (IterateDump.mk "abc" 7) (UtxoDump.mk "abc" 2 100 5000) fixture_state)))
    by (eapply reach_push; [apply (reach_init _ _ _ ∅ []) | reflexivity]).
  split; [exact Hr|]. split; [discriminate|].
  exact (reachable_bin_unbounded _ _ _ _ Hr ltac:(discriminate)).
Defined.

Lemma reachable_flush_within_witness :
  reachable true (fun _ => true) (mkConfig "json" "full" "out") fixture_state /\
  output_type (mkConfig "json" "full" "out") = "json" /\
  (forall p, (fun _ : string => true) (part_path (file_location (mkConfig "json" "full" "out")) p) = true) /\
  0 <= found fixture_state /\ found fixture_state + BATCH <= i32_MAX /\ part fixture_state < i32_MAX /\
  within true (fun _ => true) (mkConfig "json" "full" "out") (fun st' => scrape_results st' = [])
    (Z.to_nat BATCH) fixture_state.
Proof.
  assert (Hr : reachable true (fun _ => true) (mkConfig "json" "full" "out") fixture_state)
    by apply (reach_init _ _ _ ∅ []).
  split; [exact Hr|]. split; [reflexivity|]. split; [intros; reflexivity|].
  split; [simpl; lia|]. split; [unfold BATCH; simpl; zlia|]. split; [simpl; zlia|].
  apply reachable_flush_within; [exact Hr | reflexivity | intros; reflexivity
    | simpl; lia | unfold BATCH; simpl; zlia | simpl; zlia].
Defined.
