(* ===== verification/Bincode.v ===== *)
(** * Bincode: the binary artifact and the library's embedded dataset

    [bincode::serialize_into(writer, &scrape_results)] (main.rs 139) writes
    a [Vec<UTXO>]; [UTXOResults::new] (lib.rs 53-58) reads the embedded
    [P2WSH_BIN] with [bincode::deserialize] as an [Option<Vec<UTXO>>] and
    unwraps twice.  Both use bincode 1.x's default options: fixed-width
    little-endian integers, a [u64] length before a sequence or a string,
    a [u8] tag 0/1 before an [Option], no size limit, trailing bytes
    allowed.  The [UTXO] codec follows the [#[derive(Serialize,
    Deserialize)]] of lib.rs 12-21: fields in declaration order, and the
    [skip_serializing_if = "Option::is_none"] attribute drops an absent
    [id] or [amount] from the output entirely, while the derived
    deserializer still reads every field in order.

    Bytes are [Init.Byte.byte]; the decoders run in the reader [Dec]
    (input bytes to a value and the rest, or a [decode_error]).  The
    sequence decoder takes fuel, one more than the input length, which is
    enough since every element consumes a byte ([read_seq_fuel]). *)

From S2P Require Import Prelude Types.
From Stdlib Require Import Strings.Byte.

Open Scope Z_scope.

(** ** Bytes and little-endian integers *)

(** The low 8 bits of [z] as a byte. *)
Definition byte_of (z : Z) : byte :=
  match Byte.of_N (Z.to_N (z mod 256)) with
  | Some b => b
  | None => Byte.x00
  end.

(** [n] bytes of [z], least significant first ([to_le_bytes]). *)
Fixpoint le_encode (n : nat) (z : Z) : list byte :=
  match n with
  | O => []
  | S n => byte_of z :: le_encode n (Z.shiftr z 8)
  end.

(** [from_le_bytes]. *)
Fixpoint le_decode (bs : list byte) : Z :=
  match bs with
  | [] => 0
  | b :: bs => byte_val b + 256 * le_decode bs
  end.

(** ** Errors and the reader *)

(** The [bincode::ErrorKind]s a slice decode of these types can raise. *)
Inductive decode_error :=
| UnexpectedEof
| InvalidTagEncoding (tag : Z)
| InvalidUtf8Encoding.

Definition Dec (A : Type) : Type := list byte -> result decode_error (A * list byte).

Definition dret {A} (a : A) : Dec A := fun bs => Ok (a, bs).
Definition dfail {A} (e : decode_error) : Dec A := fun _ => Err e.
Definition dbind {A B} (d : Dec A) (k : A -> Dec B) : Dec B :=
  fun bs => match d bs with
            | Ok (a, bs') => k a bs'
            | Err e => Err e
            end.

Notation "x <~ d ;; k" := (dbind d (fun x => k))
  (at level 100, d at next level, right associativity) : p2wsh_scope.

(** A decoder that never reads backwards, and one that reads at least one
    byte whenever it succeeds. *)
Definition shrinks {A} (d : Dec A) : Prop :=
  forall bs a r, d bs = Ok (a, r) -> (length r <= length bs)%nat.
Definition consumes {A} (d : Dec A) : Prop :=
  forall bs a r, d bs = Ok (a, r) -> (length r < length bs)%nat.
(** A decoder that reads at least [k] bytes whenever it succeeds. *)
Definition takes {A} (k : nat) (d : Dec A) : Prop :=
  forall bs a r, d bs = Ok (a, r) -> (length r + k <= length bs)%nat.

(** ** Decoders of bincode's primitive types *)

(** [n] raw bytes, or [UnexpectedEof] when fewer remain. *)
Definition read_bytes (n : Z) : Dec (list byte) :=
  fun bs => if Z.of_nat (length bs) <? n then Err UnexpectedEof
            else Ok (take (Z.to_nat n) bs, drop (Z.to_nat n) bs).

Definition read_uint (n : nat) : Dec Z :=
  bs <~ read_bytes (Z.of_nat n) ;; dret (le_decode bs).

Definition read_u8 : Dec Z := read_uint 1.
Definition read_u16 : Dec Z := read_uint 2.
Definition read_u32 : Dec Z := read_uint 4.
Definition read_u64 : Dec Z := read_uint 8.

(** [deserialize_option]: tag 0 is [None], 1 is [Some], any other byte an
    [InvalidTagEncoding]. *)
Definition read_option {A} (d : Dec A) : Dec (option A) :=
  tag <~ read_u8 ;;
  if tag =? 0 then dret None
  else if tag =? 1 then (a <~ d ;; dret (Some a))
  else dfail (InvalidTagEncoding tag).

(** [deserialize_string]: a [u64] length, the bytes, [String::from_utf8]. *)
Definition read_string : Dec string :=
  len <~ read_u64 ;;
  bs <~ read_bytes len ;;
  if utf8_valid bs then dret (String.string_of_list_byte bs) else dfail InvalidUtf8Encoding.

(** [n] elements in a row ([SeqAccess::next_element] until the announced
    length is consumed), with fuel. *)
Fixpoint read_seq {A} (fuel : nat) (d : Dec A) (n : Z) : Dec (list A) :=
  fun bs =>
    if n <=? 0 then Ok ([], bs)
    else match fuel with
         | O => Err UnexpectedEof
         | S fuel =>
             match d bs with
             | Ok (a, bs') =>
                 match read_seq fuel d (n - 1) bs' with
                 | Ok (l, bs'') => Ok (a :: l, bs'')
                 | Err e => Err e
                 end
             | Err e => Err e
             end
         end.

(** [deserialize_seq] for a [Vec<T>]: a [u64] length, then the elements. *)
Definition read_vec {A} (d : Dec A) : Dec (list A) :=
  fun bs => match read_u64 bs with
            | Ok (n, bs') => read_seq (S (length bs')) d n bs'
            | Err e => Err e
            end.

(** ** Encoders *)

Definition enc_string (s : string) : list byte :=
  le_encode 8 (Z.of_nat (length (string_bytes s))) ++ string_bytes s.

Definition enc_option {A} (e : A -> list byte) (o : option A) : list byte :=
  match o with
  | None => [byte_of 0]
  | Some a => byte_of 1 :: e a
  end.

Definition enc_vec {A} (e : A -> list byte) (l : list A) : list byte :=
  le_encode 8 (Z.of_nat (length l)) ++ concat (map e l).

(** ** The [UTXO] codec of the derives (lib.rs 12-21) *)

(** [Serialize]: [id] and [amount] are written, tagged [Some], only when
    present; [skip_serializing_if] leaves an absent one out. *)
Definition serialize_UTXO (u : UTXO) : list byte :=
  le_encode 4 (block_height u) ++
  match id u with Some s => enc_option enc_string (Some s) | None => [] end ++
  le_encode 2 (block_index u) ++ le_encode 2 (transaction_index u) ++
  match amount u with Some a => enc_option (le_encode 8) (Some a) | None => [] end.

(** [Deserialize]: the five fields in order, each [Option] with its tag. *)
Definition deserialize_UTXO : Dec UTXO :=
  block_height <~ read_u32 ;;
  id <~ read_option read_string ;;
  block_index <~ read_u16 ;;
  transaction_index <~ read_u16 ;;
  amount <~ read_option read_u64 ;;
  dret (mkUTXO block_height id block_index transaction_index amount).

(** [bincode::serialize_into(writer, &scrape_results)] (main.rs 139). *)
Definition serialize_results (scrape_results : list UTXO) : list byte :=
  enc_vec serialize_UTXO scrape_results.

(** ** [UTXOResults] (lib.rs 46-64) *)

Record UTXOResults := mkUTXOResults { results : list UTXO }.

(** [UTXOResults::new]: [bincode::deserialize::<Option<Vec<UTXO>>>] of the
    embedded bytes, then [unwrap] of the result and of the option; [None]
    stands for the panic of either unwrap. *)
Definition UTXOResults_new (p2wsh_bin : list byte) : option UTXOResults :=
  match read_option (read_vec deserialize_UTXO) p2wsh_bin with
  | Ok (Some decoded, _) => Some (mkUTXOResults decoded)
  | Ok (None, _) => None
  | Err _ => None
  end.

(** Two records of a run at block 691709, as [full] and as [minimized]
    mode writes them. *)
Definition utxo_full : UTXO :=
  {| block_height := 691709; id := Some "abc"; block_index := 1160;
     transaction_index := 1; amount := Some 5000 |}.
Definition utxo_minimized : UTXO :=
  {| block_height := 691709; id := None; block_index := 1160;
     transaction_index := 1; amount := None |}.

(** [UTXOResults::results]: a clone of the vector, which as a value is
    the vector itself. *)
Definition UTXOResults_results (r : UTXOResults) : list UTXO := results r.

(** The unit test [returns_results] (lib.rs 84-96): [results()[0]] of a
    [UTXOResults] holding the one record [utxo1] is [utxo1]; indexing an
    empty vector panics, [None] here, and the assertion is the [bool]. *)
Definition returns_results_utxo1 : UTXO :=
  {| block_height := 1; id := None; block_index := 1;
     transaction_index := 0; amount := None |}.

Definition returns_results : option bool :=
  let utxo_results := mkUTXOResults [returns_results_utxo1] in
  match UTXOResults_results utxo_results !! 0%nat with
  | Some u => Some (bool_decide (u = returns_results_utxo1))
  | None => None
  end.

(** ** The codec interface *)

(** A serde type under bincode: its encoder, its decoder and the values
    the encoder is meant for. *)
Class Codec (A : Type) := {
  encode : A -> list byte;
  decode : Dec A;
  encodable : A -> Prop
}.

(** What a codec promises a container of it: decoding what was encoded,
    followed by anything, gives the value and leaves the rest; and a
    successful decode consumes input. *)
Class CodecLaws (A : Type) {C : Codec A} : Prop := {
  decode_encode : forall a rest, encodable a -> decode (encode a ++ rest) = Ok (a, rest);
  decode_consumes : forall bs a rest, decode bs = Ok (a, rest) -> (length rest < length bs)%nat
}.

(** The records the pipeline writes in [full] mode: well-formed, with an
    id and an amount. *)
Definition full_record (u : UTXO) : Prop :=
  UTXO_wf u = true /\ is_Some (id u) /\ is_Some (amount u).

#[export] Instance UTXO_codec : Codec UTXO := {
  encode := serialize_UTXO;
  decode := deserialize_UTXO;
  encodable := full_record
}.

#[export] Instance vec_codec {A} {C : Codec A} : Codec (list A) := {
  encode := enc_vec encode;
  decode := read_vec decode;
  encodable l := Forall encodable l /\ Z.of_nat (length l) < 2 ^ 64
}.

(** ** Lemmas on bytes and integers *)

Lemma byte_val_range b : 0 <= byte_val b < 256.
Proof. unfold byte_val. pose proof (Byte.to_N_bounded b). lia. Qed.

Lemma byte_val_byte_of z : byte_val (byte_of z) = z mod 256.
Proof.
  unfold byte_val, byte_of. pose proof (Z.mod_pos_bound z 256 ltac:(lia)).
  destruct (Byte.of_N (Z.to_N (z mod 256))) eqn:E.
  - apply Byte.to_of_N in E. rewrite E. apply Z2N.id. lia.
  - apply Byte.of_N_None_iff in E. lia.
Qed.

Lemma length_le_encode n z : length (le_encode n z) = n.
Proof. revert z. induction n; simpl; auto. Qed.

Lemma le_decode_encode n z : le_decode (le_encode n z) = z mod 2 ^ (8 * Z.of_nat n).
Proof.
  revert z. induction n as [|n IH]; intros z; simpl le_encode; simpl le_decode.
  - rewrite Z.mul_0_r, Z.pow_0_r, Z.mod_1_r. reflexivity.
  - rewrite IH, byte_val_byte_of, Z.shiftr_div_pow2 by lia.
    replace (8 * Z.of_nat (S n)) with (8 + 8 * Z.of_nat n) by lia.
    rewrite Z.pow_add_r, Z.rem_mul_r by lia. reflexivity.
Qed.

Lemma le_decode_range bs : 0 <= le_decode bs < 2 ^ (8 * Z.of_nat (length bs)).
Proof.
  induction bs as [|b bs IH]; simpl; [lia|].
  pose proof (byte_val_range b).
  replace (8 * Z.of_nat (S (length bs))) with (8 + 8 * Z.of_nat (length bs)) by lia.
  rewrite Z.pow_add_r by lia. lia.
Qed.

Lemma le_decode_app bs1 bs2 :
  le_decode (bs1 ++ bs2) = le_decode bs1 + 2 ^ (8 * Z.of_nat (length bs1)) * le_decode bs2.
Proof.
  induction bs1 as [|b bs1 IH]; simpl; [lia|]. rewrite IH.
  replace (8 * Z.of_nat (S (length bs1))) with (8 + 8 * Z.of_nat (length bs1)) by lia.
  rewrite Z.pow_add_r by lia. lia.
Qed.

(** ** Lemmas on the reader *)

Lemma dbind_Ok {A B} (d : Dec A) (k : A -> Dec B) bs a bs' :
  d bs = Ok (a, bs') -> dbind d k bs = k a bs'.
Proof. intros H. unfold dbind. rewrite H. reflexivity. Qed.

Lemma dbind_Err {A B} (d : Dec A) (k : A -> Dec B) bs e :
  d bs = Err e -> dbind d k bs = Err e.
Proof. intros H. unfold dbind. rewrite H. reflexivity. Qed.

Lemma read_bytes_app l rest : read_bytes (Z.of_nat (length l)) (l ++ rest) = Ok (l, rest).
Proof.
  unfold read_bytes. rewrite length_app.
  destruct (Z.ltb_spec (Z.of_nat (length l + length rest)) (Z.of_nat (length l))); [lia|].
  rewrite Nat2Z.id, take_app_length, drop_app_length. reflexivity.
Qed.

Lemma read_uint_encode n z rest :
  0 <= z < 2 ^ (8 * Z.of_nat n) -> read_uint n (le_encode n z ++ rest) = Ok (z, rest).
Proof.
  intros Hz. unfold read_uint.
  rewrite (dbind_Ok _ _ _ (le_encode n z) rest).
  - unfold dret. rewrite le_decode_encode, Z.mod_small by exact Hz. reflexivity.
  - rewrite <- (length_le_encode n z) at 1. apply read_bytes_app.
Qed.

Lemma read_u8_tag z bs : 0 <= z < 256 -> read_u8 (byte_of z :: bs) = Ok (z, bs).
Proof. intros Hz. apply (read_uint_encode 1 z bs). simpl. lia. Qed.

Lemma read_option_Some {A} (d : Dec A) bs a rest :
  d bs = Ok (a, rest) -> read_option d (byte_of 1 :: bs) = Ok (Some a, rest).
Proof.
  intros Hd. unfold read_option. rewrite (dbind_Ok _ _ _ 1 bs) by (apply read_u8_tag; lia).
  simpl. rewrite (dbind_Ok _ _ _ a rest Hd). reflexivity.
Qed.

Lemma read_string_encode s rest :
  utf8_valid (string_bytes s) = true -> Z.of_nat (length (string_bytes s)) < 2 ^ 64 ->
  read_string (enc_string s ++ rest) = Ok (s, rest).
Proof.
  intros Hu Hl. unfold read_string, enc_string. rewrite <- app_assoc.
  rewrite (dbind_Ok _ _ _ (Z.of_nat (length (string_bytes s))) (string_bytes s ++ rest))
    by (apply read_uint_encode; simpl; lia).
  rewrite (dbind_Ok _ _ _ (string_bytes s) rest) by apply read_bytes_app.
  rewrite Hu. unfold dret, string_bytes. rewrite String.string_of_list_byte_of_string.
  reflexivity.
Qed.

Lemma read_bytes_Ok n bs x r :
  read_bytes n bs = Ok (x, r) ->
  Z.of_nat (length r) = Z.of_nat (length bs) - Z.max 0 n /\ n <= Z.of_nat (length bs).
Proof.
  unfold read_bytes. destruct (Z.ltb_spec (Z.of_nat (length bs)) n); [discriminate|].
  intros Hr. injection Hr as <- <-. rewrite length_drop. lia.
Qed.

Lemma read_bytes_shrinks n : shrinks (read_bytes n).
Proof. unfold shrinks. intros bs x r H. apply read_bytes_Ok in H. lia. Qed.

Lemma read_uint_consumes n : consumes (read_uint (S n)).
Proof.
  unfold consumes. intros bs z r H. unfold read_uint, dbind in H.
  destruct (read_bytes _ bs) as [[x r']|] eqn:E; [|discriminate].
  injection H as _ <-. apply read_bytes_Ok in E. lia.
Qed.

Lemma dret_shrinks {A} (a : A) : shrinks (dret a).
Proof. unfold shrinks. intros bs x r H. injection H as _ <-. lia. Qed.

Lemma dfail_shrinks {A} e : shrinks (@dfail A e).
Proof. unfold shrinks. intros bs x r H. discriminate. Qed.

Lemma dbind_shrinks {A B} (d : Dec A) (k : A -> Dec B) :
  shrinks d -> (forall a, shrinks (k a)) -> shrinks (dbind d k).
Proof.
  unfold shrinks, consumes. intros Hd Hk bs b r H. unfold dbind in H.
  destruct (d bs) as [[a bs']|] eqn:E; [|discriminate].
  apply Hk in H. apply Hd in E. lia.
Qed.

Lemma dbind_consumes {A B} (d : Dec A) (k : A -> Dec B) :
  consumes d -> (forall a, shrinks (k a)) -> consumes (dbind d k).
Proof.
  unfold shrinks, consumes. intros Hd Hk bs b r H. unfold dbind in H.
  destruct (d bs) as [[a bs']|] eqn:E; [|discriminate].
  apply Hk in H. apply Hd in E. lia.
Qed.

Lemma consumes_shrinks {A} (d : Dec A) : consumes d -> shrinks d.
Proof. unfold shrinks, consumes. intros Hd bs a r H. apply Hd in H. lia. Qed.

#[export] Hint Resolve read_bytes_shrinks read_uint_consumes dret_shrinks dfail_shrinks
  consumes_shrinks : p2wsh.

Lemma read_option_shrinks {A} (d : Dec A) : shrinks d -> shrinks (read_option d).
Proof.
  intros Hd. apply consumes_shrinks, dbind_consumes; [apply read_uint_consumes|].
  intros tag. destruct (tag =? 0); [auto with p2wsh|].
  destruct (tag =? 1); [apply dbind_shrinks; auto with p2wsh | auto with p2wsh].
Qed.

Lemma read_string_shrinks : shrinks read_string.
Proof.
  apply consumes_shrinks, dbind_consumes; [apply read_uint_consumes|]. intros len.
  apply dbind_shrinks; [auto with p2wsh|]. intros bs. destruct (utf8_valid bs); auto with p2wsh.
Qed.

Lemma deserialize_UTXO_consumes : consumes deserialize_UTXO.
Proof.
  apply dbind_consumes; [apply read_uint_consumes|]. intros bh.
  apply dbind_shrinks; [apply read_option_shrinks, read_string_shrinks|]. intros i'.
  apply dbind_shrinks; [apply consumes_shrinks, read_uint_consumes|]. intros bi.
  apply dbind_shrinks; [apply consumes_shrinks, read_uint_consumes|]. intros ti.
  apply dbind_shrinks; [apply read_option_shrinks, consumes_shrinks, read_uint_consumes|].
  intros a. apply dret_shrinks.
Qed.

(** A full record decodes back from its encoding. *)
Lemma deserialize_serialize_UTXO u rest :
  full_record u -> deserialize_UTXO (serialize_UTXO u ++ rest) = Ok (u, rest).
Proof.
  intros (Hwf & [s Hs] & [a Ham]).
  destruct (UTXO_wf_ranges u Hwf) as (Hbh & Hbi & Hti & Ha).
  destruct (string_wf_spec s (UTXO_wf_id u s Hwf Hs)) as [Hu Hl].
  specialize (Ha a Ham). destruct u as [bh id0 bi ti am];
    cbn [id amount block_height block_index transaction_index] in *; subst.
  unfold serialize_UTXO, deserialize_UTXO. cbn [id amount enc_option].
  rewrite <- !app_assoc. cbn [app].
  erewrite (dbind_Ok _ _ _ bh) by (apply read_uint_encode; simpl; lia).
  erewrite (dbind_Ok _ _ _ (Some s))
    by (apply read_option_Some; apply read_string_encode; assumption).
  erewrite (dbind_Ok _ _ _ bi) by (apply read_uint_encode; simpl; lia).
  erewrite (dbind_Ok _ _ _ ti) by (apply read_uint_encode; simpl; lia).
  erewrite (dbind_Ok _ _ _ (Some a))
    by (apply read_option_Some; apply read_uint_encode; simpl; lia).
  reflexivity.
Qed.

#[export] Instance UTXO_codec_laws : CodecLaws UTXO.
Proof.
  split.
  - intros u rest Hu. apply deserialize_serialize_UTXO, Hu.
  - apply deserialize_UTXO_consumes.
Qed.

(** ** Sequences, over any element codec *)

Section Seq.
Context {A : Type}.

Lemma read_seq_unfold fuel (d : Dec A) n bs :
  read_seq (S fuel) d n bs =
  if n <=? 0 then Ok ([], bs)
  else match d bs with
       | Ok (a, bs') =>
           match read_seq fuel d (n - 1) bs' with
           | Ok (l, bs'') => Ok (a :: l, bs'')
           | Err e => Err e
           end
       | Err e => Err e
       end.
Proof. reflexivity. Qed.

(** A successful sequence decode returns as many elements as announced. *)
Lemma read_seq_length fuel (d : Dec A) n bs l r :
  read_seq fuel d n bs = Ok (l, r) -> Z.of_nat (length l) = Z.max 0 n.
Proof.
  revert n bs l r. induction fuel as [|fuel IH]; intros n bs l r H.
  - simpl in H. destruct (Z.leb_spec n 0); [injection H as <- _; simpl; lia|discriminate].
  - rewrite read_seq_unfold in H. destruct (Z.leb_spec n 0); [injection H as <- _; simpl; lia|].
    destruct (d bs) as [[a bs']|e]; [|discriminate].
    destruct (read_seq fuel d (n - 1) bs') as [[l' r']|e] eqn:E; [|discriminate].
    injection H as <- _. apply IH in E. simpl. lia.
Qed.

(** Fuel beyond the input length does not change the result: with a
    decoder that consumes input, [S (length bs)] is as good as unbounded. *)
Lemma read_seq_fuel (d : Dec A) fuel1 fuel2 n bs :
  consumes d -> (length bs < fuel1)%nat -> (length bs < fuel2)%nat ->
  read_seq fuel1 d n bs = read_seq fuel2 d n bs.
Proof.
  intros Hd. revert fuel2 n bs. induction fuel1 as [|f1 IH]; intros fuel2 n bs H1 H2; [lia|].
  destruct fuel2 as [|f2]; [lia|]. rewrite !read_seq_unfold.
  destruct (n <=? 0); [reflexivity|].
  destruct (d bs) as [[a bs']|e] eqn:E; [|reflexivity].
  apply Hd in E. rewrite (IH f2); [reflexivity | lia | lia].
Qed.

Lemma read_seq_shrinks fuel (d : Dec A) n : shrinks d -> shrinks (read_seq fuel d n).
Proof.
  unfold shrinks. intros Hd. revert n. induction fuel as [|fuel IH]; intros n bs l r H.
  - simpl in H. destruct (n <=? 0); [injection H as _ <-; lia|discriminate].
  - rewrite read_seq_unfold in H. destruct (n <=? 0); [injection H as _ <-; lia|].
    destruct (d bs) as [[a bs']|e] eqn:E; [|discriminate].
    destruct (read_seq fuel d (n - 1) bs') as [[l' r']|e] eqn:E'; [|discriminate].
    injection H as _ <-. apply Hd in E. apply IH in E'. lia.
Qed.

Context {C : Codec A} {L : CodecLaws A}.

Lemma encode_nonempty a : encodable a -> (1 <= length (encode a))%nat.
Proof.
  intros Ha. pose proof (decode_encode a [] Ha) as E.
  apply decode_consumes in E. rewrite length_app in E. simpl in E. lia.
Qed.

Lemma length_concat_encode l :
  Forall encodable l -> (length l <= length (concat (map encode l)))%nat.
Proof.
  induction 1 as [|a l Ha _ IH]; simpl; [lia|].
  rewrite length_app. pose proof (encode_nonempty a Ha). lia.
Qed.

Lemma read_seq_encode fuel l rest :
  Forall encodable l -> (length l < fuel)%nat ->
  read_seq fuel decode (Z.of_nat (length l)) (concat (map encode l) ++ rest) = Ok (l, rest).
Proof.
  intros Hl. revert fuel. induction Hl as [|a l Ha Hl IH]; intros fuel Hf.
  - destruct fuel; reflexivity.
  - destruct fuel as [|fuel]; [simpl in Hf; lia|]. rewrite read_seq_unfold.
    simpl length. destruct (Z.leb_spec (Z.of_nat (S (length l))) 0); [lia|].
    simpl. rewrite <- app_assoc, decode_encode by exact Ha.
    replace (Z.of_nat (S (length l)) - 1) with (Z.of_nat (length l)) by lia.
    rewrite IH by (simpl in Hf; lia). reflexivity.
Qed.
End Seq.

#[export] Instance vec_codec_laws {A} {C : Codec A} {L : CodecLaws A} : CodecLaws (list A).
Proof.
  split.
  - intros l rest [Hl Hlen]. cbn [encode decode vec_codec]. unfold read_vec, enc_vec.
    rewrite <- app_assoc.
    rewrite (read_uint_encode 8 (Z.of_nat (length l))) by (simpl; lia).
    apply read_seq_encode; [exact Hl|]. rewrite length_app.
    pose proof (length_concat_encode l Hl). lia.
  - intros bs l r. cbn [decode vec_codec]. unfold read_vec.
    destruct (read_u64 bs) as [[n bs']|e] eqn:E; [|discriminate]. intros H.
    apply read_uint_consumes in E. apply read_seq_shrinks in H; [lia|].
    apply consumes_shrinks. exact (fun bs a r H => decode_consumes bs a r H).
Qed.

(** ** Minimum lengths *)

Lemma takes_fail {A} k (d : Dec A) bs :
  takes k d -> (length bs < k)%nat -> exists e, d bs = Err e.
Proof.
  intros Hd Hlt. destruct (d bs) as [[a r]|e] eqn:E; [|eauto].
  apply Hd in E. lia.
Qed.

Lemma read_uint_takes n : takes n (read_uint n).
Proof.
  unfold takes. intros bs z r H. unfold read_uint, dbind in H.
  destruct (read_bytes _ bs) as [[x r']|] eqn:E; [|discriminate].
  injection H as _ <-. apply read_bytes_Ok in E. lia.
Qed.

Lemma dret_takes {A} (a : A) : takes 0 (dret a).
Proof. unfold takes. intros bs x r H. injection H as _ <-. lia. Qed.

Lemma dbind_takes {A B} k1 k2 (d : Dec A) (k : A -> Dec B) :
  takes k1 d -> (forall a, takes k2 (k a)) -> takes (k1 + k2) (dbind d k).
Proof.
  unfold takes. intros Hd Hk bs b r H. unfold dbind in H.
  destruct (d bs) as [[a bs']|] eqn:E; [|discriminate].
  apply Hk in H. apply Hd in E. lia.
Qed.

Lemma shrinks_takes {A} (d : Dec A) : shrinks d -> takes 0 d.
Proof. unfold shrinks, takes. intros Hd bs a r H. apply Hd in H. lia. Qed.

Lemma read_option_takes {A} (d : Dec A) : shrinks d -> takes 1 (read_option d).
Proof.
  intros Hd. apply (dbind_takes 1 0); [apply read_uint_takes|]. intros tag.
  apply shrinks_takes. destruct (tag =? 0); [auto with p2wsh|].
  destruct (tag =? 1); [apply dbind_shrinks; auto with p2wsh | auto with p2wsh].
Qed.

(** Whatever the input, a record decode reads at least ten bytes: the
    [u32], two tags and two [u16]s. *)
Lemma deserialize_UTXO_takes : takes 10 deserialize_UTXO.
Proof.
  apply (dbind_takes 4 6); [apply read_uint_takes|]. intros bh.
  apply (dbind_takes 1 5); [apply read_option_takes, read_string_shrinks|]. intros i'.
  apply (dbind_takes 2 3); [apply read_uint_takes|]. intros bi.
  apply (dbind_takes 2 1); [apply read_uint_takes|]. intros ti.
  apply (dbind_takes 1 0);
    [apply read_option_takes, consumes_shrinks, read_uint_consumes|].
  intros a. apply dret_takes.
Qed.

(** [n] elements of a decoder that reads [k] bytes each read [n * k]. *)
Lemma read_seq_takes {A} k fuel (d : Dec A) n bs l r :
  takes k d -> read_seq fuel d n bs = Ok (l, r) -> (length r + k * length l <= length bs)%nat.
Proof.
  unfold takes. intros Hd. revert n bs l r.
  induction fuel as [|fuel IH]; intros n bs l r H.
  - simpl in H. destruct (n <=? 0); [injection H as <- <-; simpl; lia|discriminate].
  - rewrite read_seq_unfold in H. destruct (n <=? 0); [injection H as <- <-; simpl; lia|].
    destruct (d bs) as [[a bs']|e] eqn:E; [|discriminate].
    destruct (read_seq fuel d (n - 1) bs') as [[l' r']|e] eqn:E'; [|discriminate].
    injection H as <- <-. apply Hd in E. apply IH in E'. simpl. lia.
Qed.

(** The minimized encoding of a record: eight bytes. *)
Lemma length_serialize_minimized u :
  id u = None -> amount u = None -> length (serialize_UTXO u) = 8%nat.
Proof.
  intros Hid Ham. unfold serialize_UTXO. rewrite Hid, Ham.
  rewrite !length_app, !length_le_encode. reflexivity.
Qed.

Lemma length_concat_minimized l :
  Forall (fun u => id u = None /\ amount u = None) l ->
  length (concat (map serialize_UTXO l)) = (8 * length l)%nat.
Proof.
  induction 1 as [|u l [Hid Ham] _ IH]; cbn [map concat length]; [lia|].
  rewrite length_app, length_serialize_minimized by assumption. lia.
Qed.

Lemma read_u8_cons b bs : read_u8 (b :: bs) = Ok (byte_val b, bs).
Proof.
  unfold read_u8, read_uint. rewrite (dbind_Ok _ _ _ [b] bs); [unfold dret; simpl; rewrite Z.add_0_r; reflexivity|].
  exact (read_bytes_app [b] bs).
Qed.

(** The first eight bytes after the tag of a [Vec] written without its
    [Option] tag: the seven high bytes of the length and the first byte of
    the first record. *)
Lemma read_u64_shifted x b rest :
  read_u64 (le_encode 7 x ++ b :: rest) = Ok (x mod 2 ^ 56 + 2 ^ 56 * byte_val b, rest).
Proof.
  unfold read_u64, read_uint. replace (le_encode 7 x ++ b :: rest) with
    ((le_encode 7 x ++ [b]) ++ rest) by (rewrite <- app_assoc; reflexivity).
  rewrite (dbind_Ok _ _ _ (le_encode 7 x ++ [b]) rest).
  - unfold dret. rewrite le_decode_app, le_decode_encode, length_le_encode. simpl. do 3 f_equal. lia.
  - replace (Z.of_nat 8) with (Z.of_nat (length (le_encode 7 x ++ [b]))).
    + apply read_bytes_app.
    + rewrite length_app, length_le_encode. reflexivity.
Qed.

Lemma serialize_results_cons u l :
  serialize_results (u :: l) =
  byte_of (Z.of_nat (S (length l))) :: le_encode 7 (Z.shiftr (Z.of_nat (S (length l))) 8) ++
  byte_of (block_height u) :: (le_encode 3 (Z.shiftr (block_height u) 8) ++
     skipn 4 (serialize_UTXO u) ++ concat (map serialize_UTXO l)).
Proof. reflexivity. Qed.

(** Minimized records do not decode as a vector. *)
Lemma read_vec_serialize_minimized l :
  l <> [] -> Forall (fun u => id u = None /\ amount u = None) l ->
  Z.of_nat (length l) < 2 ^ 64 ->
  exists e, read_vec deserialize_UTXO (serialize_results l) = Err e.
Proof.
  intros Hne Hmin Hn. unfold read_vec, serialize_results, enc_vec.
  rewrite (read_uint_encode 8) by (simpl; lia).
  destruct (read_seq _ _ _ _) as [[l' r]|e] eqn:E; [exfalso|eauto].
  pose proof (read_seq_length _ _ _ _ _ _ E) as Hlen.
  apply (read_seq_takes 10) in E; [|exact deserialize_UTXO_takes].
  rewrite length_concat_minimized in E by exact Hmin.
  destruct l; [done|]. simpl length in *. lia.
Qed.

(** The [Option<Vec>] decoder never returns a serialized [Vec]. *)
Lemma UTXOResults_new_serialize_results l :
  Z.of_nat (length l) < 2 ^ 56 ->
  UTXOResults_new (serialize_results l) <> Some (mkUTXOResults l).
Proof.
  intros Hn. unfold UTXOResults_new.
  destruct (read_option _ _) as [[[d|] r]|e] eqn:E; try discriminate.
  intros [= ->]. destruct l as [|u l]; [discriminate|].
  rewrite serialize_results_cons in E. unfold read_option in E.
  rewrite (dbind_Ok _ _ _ _ _ (read_u8_cons _ _)), byte_val_byte_of in E.
  destruct (Z.eqb_spec (Z.of_nat (S (length l)) mod 256) 0); [discriminate|].
  destruct (Z.eqb_spec (Z.of_nat (S (length l)) mod 256) 1) as [Htag|]; [|discriminate].
  unfold dbind, read_vec in E. rewrite read_u64_shifted in E.
  destruct (read_seq _ _ _ _) as [[l' r']|e] eqn:Es; [|discriminate].
  injection E as -> _. apply read_seq_length in Es.
  rewrite byte_val_byte_of, Z.shiftr_div_pow2 in Es by lia. simpl length in *.
  pose proof (Z.mod_pos_bound (block_height u) 256 ltac:(lia)). zlia.
Qed.

(** ** Theorems *)

(** C18: the binary artifact of a full run reads back: a vector of full
    records (each with an id and an amount, as [minimized_type = "full"]
    writes them) serialized as [main] does decodes with the derived
    deserializer to the same vector, with no bytes left over. *)
Theorem serialize_results_roundtrip l :
  Forall full_record l -> Z.of_nat (length l) < 2 ^ 64 ->
  read_vec deserialize_UTXO (serialize_results l) = Ok (l, []).
Proof.
  intros Hl Hn. pose proof (decode_encode (A := list UTXO) l [] (conj Hl Hn)) as H.
  rewrite app_nil_r in H. exact H.
Qed.

(** C19: the minimized binary artifact does not read back at all:
    [skip_serializing_if] drops the absent [id] and [amount], leaving eight
    bytes per record, while the derived deserializer reads at least ten
    (the two [Option] tags included), so any non-empty vector of minimized
    records fails to decode. *)
Theorem serialize_minimized_unreadable l :
  l <> [] -> Forall (fun u => id u = None /\ amount u = None) l ->
  Z.of_nat (length l) < 2 ^ 64 ->
  exists e, read_vec deserialize_UTXO (serialize_results l) = Err e.
Proof. apply read_vec_serialize_minimized. Qed.

(** C20: [UTXOResults::new] cannot load the artifact [main] writes:
    main.rs 139 serializes a [Vec<UTXO>] while lib.rs 55 deserializes an
    [Option<Vec<UTXO>>], so the low byte of the length is read as the
    option tag and the remaining bytes are misaligned; whatever the records,
    the vector is never returned. *)
Theorem UTXOResults_new_rejects_serialized l :
  Z.of_nat (length l) < 2 ^ 56 ->
  UTXOResults_new (serialize_results l) <> Some (mkUTXOResults l).
Proof. apply UTXOResults_new_serialize_results. Qed.

(** C21: what [UTXOResults::new] does accept: the bytes of an
    [Option<Vec<UTXO>>] holding [Some] vector of full records load as that
    vector, and [results()] returns it. *)
Theorem UTXOResults_new_option l :
  Forall full_record l -> Z.of_nat (length l) < 2 ^ 64 ->
  option_map UTXOResults_results (UTXOResults_new (enc_option serialize_results (Some l))) = Some l.
Proof.
  intros Hl Hn. unfold UTXOResults_new. cbn [enc_option].
  rewrite (read_option_Some _ _ l []); [reflexivity|].
  pose proof (decode_encode (A := list UTXO) l [] (conj Hl Hn)) as H.
  rewrite app_nil_r in H. exact H.
Qed.

(** ** Witnesses *)

Lemma full_record_utxo_full : full_record utxo_full.
Proof. split; [reflexivity|]. split; eexists; reflexivity. Qed.

Lemma serialize_results_roundtrip_witness :
  Forall full_record [utxo_full] /\ Z.of_nat (length [utxo_full]) < 2 ^ 64 /\
  read_vec deserialize_UTXO (serialize_results [utxo_full]) = Ok ([utxo_full], []).
Proof.
  split; [repeat constructor; apply full_record_utxo_full|]. split; [simpl; lia|].
  apply serialize_results_roundtrip; [repeat constructor; apply full_record_utxo_full | simpl; lia].
Defined.

Lemma serialize_minimized_unreadable_witness :
  [utxo_minimized] <> [] /\
  Forall (fun u => id u = None /\ amount u = None) [utxo_minimized] /\
  Z.of_nat (length [utxo_minimized]) < 2 ^ 64 /\
  exists e, read_vec deserialize_UTXO (serialize_results [utxo_minimized]) = Err e.
Proof.
  split; [discriminate|]. split; [repeat constructor|]. split; [simpl; lia|].
  apply serialize_minimized_unreadable; [discriminate | repeat constructor | simpl; lia].
Defined.

Lemma UTXOResults_new_rejects_serialized_witness :
  Z.of_nat (length [utxo_full; utxo_minimized]) < 2 ^ 56 /\
  UTXOResults_new (serialize_results [utxo_full; utxo_minimized])
    <> Some (mkUTXOResults [utxo_full; utxo_minimized]).
Proof.
  split; [simpl; lia|]. apply UTXOResults_new_rejects_serialized. simpl; lia.
Defined.

Lemma UTXOResults_new_option_witness :
  Forall full_record [utxo_full] /\ Z.of_nat (length [utxo_full]) < 2 ^ 64 /\
  option_map UTXOResults_results (UTXOResults_new (enc_option serialize_results (Some [utxo_full])))
    = Some [utxo_full].
Proof.
  split; [repeat constructor; apply full_record_utxo_full|]. split; [simpl; lia|].
  apply UTXOResults_new_option; [repeat constructor; apply full_record_utxo_full | simpl; lia].
Defined.

(** The unit test [returns_results] passes. *)
Example returns_results_passes : returns_results = Some true.
Proof. reflexivity. Qed.
