(* ===== verification/Json.v ===== *)
(** * Json: the JSON artifact as serde's data model

    [serde_json::to_writer_pretty(writer, &scrape_results)] (main.rs 118,
    134) writes a JSON array of objects produced by the derived
    [Serialize] of [UTXO] (lib.rs 12-21): fields in declaration order, an
    absent [id] or [amount] left out by [skip_serializing_if].  The derived
    [Deserialize] reads such an object with [visit_map] (each known key
    once, its value parsed at once, unknown keys ignored, a missing
    [Option] field [None], a missing other field an error) or an array
    with [visit_seq] (the five fields in order).  JSON values are the
    [json] type; the printed text (indentation, escaping) is not
    modelled. *)

From S2P Require Import Prelude Types.

Open Scope Z_scope.

Unset Elimination Schemes.
Inductive json :=
| JNull
| JBool (b : bool)
| JNum (n : Z)
| JStr (s : string)
| JArr (l : list json)
| JObj (fields : list (string * json)).
Set Elimination Schemes.

(** Induction over [json] with the hypothesis for every element of an
    array and every member of an object. *)
Definition json_ind (P : json -> Prop)
    (fnull : P JNull) (fbool : forall b, P (JBool b)) (fnum : forall n, P (JNum n))
    (fstr : forall s, P (JStr s))
    (farr : forall l, Forall P l -> P (JArr l))
    (fobj : forall fs, Forall (fun kv => P (snd kv)) fs -> P (JObj fs)) : forall v, P v :=
  fix F (v : json) : P v :=
    match v as v0 return P v0 with
    | JNull => fnull
    | JBool b => fbool b
    | JNum n => fnum n
    | JStr s => fstr s
    | JArr l =>
        farr l ((fix G (l : list json) : Forall P l :=
                   match l with
                   | [] => List.Forall_nil P
                   | x :: xs => List.Forall_cons P x xs (F x) (G xs)
                   end) l)
    | JObj fs =>
        fobj fs ((fix G (fs : list (string * json)) : Forall (fun kv => P (snd kv)) fs :=
                    match fs with
                    | [] => List.Forall_nil _
                    | kv :: gs => List.Forall_cons (fun kv => P (snd kv)) kv gs (F (snd kv)) (G gs)
                    end) fs)
    end.

(** The errors of serde's derived visitors. *)
Inductive json_error :=
| InvalidType
| InvalidValue
| InvalidLength (n : nat)
| MissingField (name : string)
| DuplicateField (name : string)
| TrailingElements.

(** ** [Serialize] *)

Definition to_json_UTXO (u : UTXO) : json :=
  JObj ([("block_height", JNum (block_height u))] ++
        match id u with Some s => [("id", JStr s)] | None => [] end ++
        [("block_index", JNum (block_index u));
         ("transaction_index", JNum (transaction_index u))] ++
        match amount u with Some a => [("amount", JNum a)] | None => [] end).

Definition to_json_results (l : list UTXO) : json := JArr (map to_json_UTXO l).

(** ** [Deserialize] *)

(** An unsigned integer of [w] bits; out of range is [invalid_value]. *)
Definition de_uint (w : Z) (v : json) : result json_error Z :=
  match v with
  | JNum n => if fits w n then Ok n else Err InvalidValue
  | _ => Err InvalidType
  end.

Definition de_string (v : json) : result json_error string :=
  match v with
  | JStr s => Ok s
  | _ => Err InvalidType
  end.

(** [deserialize_option]: [null] is [None], anything else [Some]. *)
Definition de_option {A} (d : json -> result json_error A) (v : json)
    : result json_error (option A) :=
  match v with
  | JNull => Ok None
  | _ => a <-? d v ;; Ok (Some a)
  end.

(** The locals [__field0 .. __field4] of the derived [visit_map]. *)
Record slots := mkSlots {
  s_block_height : option Z;
  s_id : option (option string);
  s_block_index : option Z;
  s_transaction_index : option Z;
  s_amount : option (option Z)
}.

Definition no_slots : slots := mkSlots None None None None None.

(** A known key seen a second time is [duplicate_field]; otherwise its
    value is parsed. *)
Definition set_slot {A} (name : string) (slot : option A) (r : result json_error A)
    : result json_error (option A) :=
  match slot with
  | Some _ => Err (DuplicateField name)
  | None => a <-? r ;; Ok (Some a)
  end.

(** The derive's [__Field] enum: the five fields and [__ignore]. *)
Inductive field :=
| F_block_height
| F_id
| F_block_index
| F_transaction_index
| F_amount
| F_ignore.

(** [__FieldVisitor::visit_str]: a key names a field or is ignored. *)
Definition field_of_key (k : string) : field :=
  if decide (k = "block_height") then F_block_height
  else if decide (k = "id") then F_id
  else if decide (k = "block_index") then F_block_index
  else if decide (k = "transaction_index") then F_transaction_index
  else if decide (k = "amount") then F_amount
  else F_ignore.

(** One iteration of [while let Some(key) = map.next_key()?]; the value
    of an ignored key is skipped as [IgnoredAny], which accepts any JSON
    value. *)
Definition visit_field (k : string) (v : json) (st : slots) : result json_error slots :=
  match field_of_key k with
  | F_block_height =>
      x <-? set_slot "block_height" (s_block_height st) (de_uint U32_BITS v) ;;
      Ok (mkSlots x (s_id st) (s_block_index st) (s_transaction_index st) (s_amount st))
  | F_id =>
      x <-? set_slot "id" (s_id st) (de_option de_string v) ;;
      Ok (mkSlots (s_block_height st) x (s_block_index st) (s_transaction_index st) (s_amount st))
  | F_block_index =>
      x <-? set_slot "block_index" (s_block_index st) (de_uint U16_BITS v) ;;
      Ok (mkSlots (s_block_height st) (s_id st) x (s_transaction_index st) (s_amount st))
  | F_transaction_index =>
      x <-? set_slot "transaction_index" (s_transaction_index st) (de_uint U16_BITS v) ;;
      Ok (mkSlots (s_block_height st) (s_id st) (s_block_index st) x (s_amount st))
  | F_amount =>
      x <-? set_slot "amount" (s_amount st) (de_option (de_uint USIZE_BITS) v) ;;
      Ok (mkSlots (s_block_height st) (s_id st) (s_block_index st) (s_transaction_index st) x)
  | F_ignore => Ok st
  end.

Fixpoint visit_fields (fs : list (string * json)) (st : slots) : result json_error slots :=
  match fs with
  | [] => Ok st
  | (k, v) :: rest => st' <-? visit_field k v st ;; visit_fields rest st'
  end.

Definition required {A} (name : string) (slot : option A) : result json_error A :=
  match slot with
  | Some a => Ok a
  | None => Err (MissingField name)
  end.

(** After the loop: a missing field is [missing_field], except an
    [Option], which is [None]. *)
Definition finish_map (st : slots) : result json_error UTXO :=
  block_height <-? required "block_height" (s_block_height st) ;;
  let id := match s_id st with Some o => o | None => None end in
  block_index <-? required "block_index" (s_block_index st) ;;
  transaction_index <-? required "transaction_index" (s_transaction_index st) ;;
  let amount := match s_amount st with Some o => o | None => None end in
  Ok (mkUTXO block_height id block_index transaction_index amount).

(** [seq.next_element()?] at index [i]: the end of the array is
    [invalid_length(i)]. *)
Definition next_element {A} (d : json -> result json_error A) (i : nat) (l : list json)
    : result json_error (A * list json) :=
  match l with
  | [] => Err (InvalidLength i)
  | v :: rest => a <-? d v ;; Ok (a, rest)
  end.

(** [visit_seq]: the five fields in order; elements left after them are
    rejected by [end_seq] once the struct is read. *)
Definition visit_seq (l : list json) : result json_error UTXO :=
  p0 <-? next_element (de_uint U32_BITS) 0 l ;; let '(block_height, l) := p0 in
  p1 <-? next_element (de_option de_string) 1 l ;; let '(id, l) := p1 in
  p2 <-? next_element (de_uint U16_BITS) 2 l ;; let '(block_index, l) := p2 in
  p3 <-? next_element (de_uint U16_BITS) 3 l ;; let '(transaction_index, l) := p3 in
  p4 <-? next_element (de_option (de_uint USIZE_BITS)) 4 l ;; let '(amount, l) := p4 in
  match l with
  | [] => Ok (mkUTXO block_height id block_index transaction_index amount)
  | _ => Err TrailingElements
  end.

Definition from_json_UTXO (v : json) : result json_error UTXO :=
  match v with
  | JObj fs => st <-? visit_fields fs no_slots ;; finish_map st
  | JArr l => visit_seq l
  | _ => Err InvalidType
  end.

Fixpoint from_json_list (l : list json) : result json_error (list UTXO) :=
  match l with
  | [] => Ok []
  | v :: rest => u <-? from_json_UTXO v ;; us <-? from_json_list rest ;; Ok (u :: us)
  end.

(** [Vec<UTXO>]: an array of records. *)
Definition from_json_results (v : json) : result json_error (list UTXO) :=
  match v with
  | JArr l => from_json_list l
  | _ => Err InvalidType
  end.

#[export] Instance field_eq_dec : EqDecision field.
Proof. solve_decision. Defined.

(** Whether the visitor's local for a field is already set. *)
Definition slot_filled (f : field) (st : slots) : bool :=
  match f with
  | F_block_height => bool_decide (is_Some (s_block_height st))
  | F_id => bool_decide (is_Some (s_id st))
  | F_block_index => bool_decide (is_Some (s_block_index st))
  | F_transaction_index => bool_decide (is_Some (s_transaction_index st))
  | F_amount => bool_decide (is_Some (s_amount st))
  | F_ignore => false
  end.

(** The keys of an object that name a field of [UTXO]. *)
Definition known_keys (fs : list (string * json)) : list string :=
  filter (fun k => field_of_key k <> F_ignore) (map fst fs).

(** The objects that decode to [u]. *)
Definition decodes_to (u : UTXO) (fs : list (string * json)) : Prop :=
  from_json_UTXO (JObj fs) = Ok u.

(** A record of a minimized run. *)
Definition utxo_json_minimized : UTXO :=
  {| block_height := 691709; id := None; block_index := 1160;
     transaction_index := 1; amount := None |}.

(** ** Lemmas *)

(** Runs the derived visitor on an object whose values are known to be in
    range. *)
Ltac run_visitor :=
  repeat progress (cbn [app visit_fields]; unfold visit_field;
    cbv [rbind set_slot de_uint de_option de_string finish_map required no_slots]; simpl;
    try match goal with H : fits _ _ = true |- _ => rewrite H; clear H end).

Lemma from_to_json_UTXO u : UTXO_wf u = true -> from_json_UTXO (to_json_UTXO u) = Ok u.
Proof.
  unfold UTXO_wf. destruct u as [bh [s|] bi ti [a|]];
    cbn [block_height id block_index transaction_index amount]; intros H;
    repeat rewrite andb_true_iff in H; destruct_and! H;
    unfold from_json_UTXO, to_json_UTXO; run_visitor; reflexivity.
Qed.

(** Two fields of an object that are both accepted can be visited in the
    other order: they fill different slots. *)
Lemma visit_field_comm k1 v1 k2 v2 st s1 s2 :
  visit_field k1 v1 st = Ok s1 -> visit_field k2 v2 s1 = Ok s2 ->
  exists s1', visit_field k2 v2 st = Ok s1' /\ visit_field k1 v1 s1' = Ok s2.
Proof.
  unfold visit_field. destruct st as [a b c d e]. intros H1 H2.
  destruct (field_of_key k1), (field_of_key k2); cbv [rbind set_slot] in *; cbn in *;
    repeat first [progress simplify_eq/= | case_match];
    eexists; (split; [reflexivity|]); cbn;
    repeat first [progress simplify_eq/= | case_match]; try reflexivity.
Qed.

Lemma visit_fields_cons k v fs st :
  visit_fields ((k, v) :: fs) st = (st' <-? visit_field k v st ;; visit_fields fs st').
Proof. reflexivity. Qed.

Lemma visit_fields_perm fs fs' st s :
  fs ≡ₚ fs' -> visit_fields fs st = Ok s -> visit_fields fs' st = Ok s.
Proof.
  intros Hp. revert st s.
  induction Hp as [|[k v] l l' Hp IH|[k1 v1] [k2 v2] l|l l' l'' H1 IH1 H2 IH2];
    intros st s H; rewrite ?visit_fields_cons in *.
  - exact H.
  - destruct (visit_field k v st) as [st'|e]; [apply IH, H | discriminate].
  - destruct (visit_field k2 v2 st) as [s1|] eqn:E1; [|discriminate]. simpl in H.
    destruct (visit_field k1 v1 s1) as [s2|] eqn:E2; [|discriminate]. simpl in H.
    destruct (visit_field_comm _ _ _ _ _ _ _ E1 E2) as (s1' & E3 & E4).
    rewrite E3. simpl. rewrite E4. exact H.
  - eauto.
Qed.

Lemma from_to_json_list l :
  Forall (fun u => UTXO_wf u = true) l -> from_json_list (map to_json_UTXO l) = Ok l.
Proof.
  induction 1 as [|u l Hu _ IH]; [reflexivity|]. cbn [map from_json_list].
  rewrite from_to_json_UTXO by exact Hu. simpl. rewrite IH. reflexivity.
Qed.

Lemma from_json_obj_perm fs fs' u :
  fs ≡ₚ fs' -> decodes_to u fs -> decodes_to u fs'.
Proof.
  unfold decodes_to. simpl. intros Hp H.
  destruct (visit_fields fs no_slots) as [st|] eqn:E; [|discriminate].
  rewrite (visit_fields_perm fs fs' _ _ Hp E). exact H.
Qed.

(** Decoding respects permutation of the fields, as a setoid morphism. *)
#[export] Instance decodes_to_proper u : Proper ((≡ₚ) ==> iff) (decodes_to u).
Proof.
  intros fs fs' Hp. split; apply from_json_obj_perm; [exact Hp | symmetry; exact Hp].
Qed.

Lemma visit_field_slots k v st st' :
  visit_field k v st = Ok st' ->
  (field_of_key k <> F_ignore ->
   slot_filled (field_of_key k) st = false /\ slot_filled (field_of_key k) st' = true) /\
  (forall f, slot_filled f st = true -> slot_filled f st' = true).
Proof.
  unfold visit_field. destruct st as [a b c d e]. intros H.
  destruct (field_of_key k); cbv [rbind set_slot] in H; cbn in *;
    repeat first [progress simplify_eq/= | case_match];
    (split; [intros Hne; (split; reflexivity) || (exfalso; apply Hne; reflexivity)
            | intros [] Hf; cbn in *; first [reflexivity | exact Hf | discriminate]]).
Qed.

Lemma visit_fields_known fs st s :
  visit_fields fs st = Ok s ->
  NoDup (map field_of_key (known_keys fs)) /\
  Forall (fun k => slot_filled (field_of_key k) st = false) (known_keys fs).
Proof.
  revert st. induction fs as [|[k v] fs IH]; intros st H; [split; constructor|].
  rewrite visit_fields_cons in H. destruct (visit_field k v st) as [st1|] eqn:E; [|discriminate].
  simpl in H. destruct (IH st1 H) as [Hnd Hfree].
  destruct (visit_field_slots k v st st1 E) as [Hk Hmono].
  unfold known_keys in *. simpl. rewrite filter_cons.
  destruct (decide (field_of_key k <> F_ignore)) as [Hkn|Hkn].
  - destruct (Hk Hkn) as [Hst Hst1]. split.
    + constructor; [|exact Hnd]. intros Hin. apply list_elem_of_fmap in Hin as (k' & Heq & Hk').
      rewrite Forall_forall in Hfree. specialize (Hfree k' Hk'). rewrite <- Heq, Hst1 in Hfree.
      discriminate.
    + constructor; [exact Hst|]. eapply Forall_impl; [exact Hfree|]. simpl. intros k' Hk'.
      destruct (slot_filled (field_of_key k') st) eqn:F; [|reflexivity].
      rewrite (Hmono _ F) in Hk'. discriminate.
  - split; [exact Hnd|]. eapply Forall_impl; [exact Hfree|]. simpl. intros k' Hk'.
    destruct (slot_filled (field_of_key k') st) eqn:F; [|reflexivity].
    rewrite (Hmono _ F) in Hk'. discriminate.
Qed.

(** ** Theorems *)

(** C29: the JSON artifact reads back with presence kept: the object the
    derived [Serialize] writes for a well-formed record, with an absent
    [id] or [amount] left out, decodes with the derived [Deserialize] to
    the same record, the missing keys giving [None]. *)
Theorem json_roundtrip u : UTXO_wf u = true -> from_json_UTXO (to_json_UTXO u) = Ok u.
Proof. apply from_to_json_UTXO. Qed.

(** C30: decoding a JSON object does not depend on the order of its keys:
    an object that decodes to a record decodes to the same record with its
    fields in any order. *)
Theorem from_json_UTXO_perm fs fs' u :
  from_json_UTXO (JObj fs) = Ok u -> fs ≡ₚ fs' -> from_json_UTXO (JObj fs') = Ok u.
Proof.
  intros H Hp. change (decodes_to u fs'). rewrite <- Hp. exact H.
Qed.

(** C31: the derived [Deserialize] rejects an object that names a field
    twice ([duplicate_field]): in every object that decodes, the keys that
    name fields of [UTXO] name pairwise different fields. *)
Theorem from_json_UTXO_no_duplicates fs u :
  from_json_UTXO (JObj fs) = Ok u -> NoDup (map field_of_key (known_keys fs)).
Proof.
  simpl. intros H. destruct (visit_fields fs no_slots) as [st|] eqn:E; [|discriminate].
  exact (proj1 (visit_fields_known fs no_slots st E)).
Qed.

(** ** Witnesses *)

Lemma json_roundtrip_witness :
  UTXO_wf utxo_json_minimized = true /\
  from_json_UTXO (to_json_UTXO utxo_json_minimized) = Ok utxo_json_minimized.
Proof. split; [reflexivity|]. apply json_roundtrip. reflexivity. Defined.

Lemma from_json_UTXO_perm_witness :
  from_json_UTXO (JObj [("block_index", JNum 1160); ("block_height", JNum 691709);
                        ("transaction_index", JNum 1)])
    = Ok utxo_json_minimized /\
  [("block_index", JNum 1160); ("block_height", JNum 691709); ("transaction_index", JNum 1)]
    ≡ₚ [("block_height", JNum 691709); ("block_index", JNum 1160); ("transaction_index", JNum 1)] /\
  from_json_UTXO (JObj [("block_height", JNum 691709); ("block_index", JNum 1160);
                        ("transaction_index", JNum 1)])
    = Ok utxo_json_minimized.
Proof.
  split; [reflexivity|]. split; [apply perm_swap|].
  apply (from_json_UTXO_perm [("block_index", JNum 1160); ("block_height", JNum 691709);
                              ("transaction_index", JNum 1)]); [reflexivity | apply perm_swap].
Defined.

Lemma from_json_UTXO_no_duplicates_witness :
  from_json_UTXO (JObj [("block_height", JNum 691709); ("block_index", JNum 1160);
                        ("note", JStr "x"); ("transaction_index", JNum 1)])
    = Ok utxo_json_minimized /\
  NoDup (map field_of_key (known_keys [("block_height", JNum 691709); ("block_index", JNum 1160);
                                       ("note", JStr "x"); ("transaction_index", JNum 1)])).
Proof.
  split; [reflexivity|].
  apply (from_json_UTXO_no_duplicates _ utxo_json_minimized). reflexivity.
Defined.
