(* ===== verification/JsonText.v ===== *)
(** * JsonText: the text [serde_json::to_writer_pretty] writes

    main.rs 118 and 134 write each JSON part with
    [serde_json::to_writer_pretty], whose [PrettyFormatter] lays a value
    out with two-space indentation: an array or object opens with [[] or
    [{], each element or member goes on its own line indented one level
    deeper and is separated from the next by [,], the closing bracket goes
    on a line of its own at the outer level, an empty array is [[]]; a
    member is the key, [: ] and the value.  Strings are escaped by the
    [ESCAPE] table of serde_json (the quote and the backslash behind a
    backslash, [\b], [\t], [\n], [\f], [\r], any other byte below [0x20]
    as [\u00xx] with lowercase hex digits; every other byte as is); integers are written in decimal ([itoa]).
    [json_pretty] is that layout for the values of Json.v.

    [parse_json] is a reader of JSON text (the grammar of RFC 8259, with
    [\u] escapes limited to ASCII), the specification the printed text is
    checked against: [json_pretty_parse] shows that reading the text back
    gives the value printed. *)

From S2P Require Import Prelude Types Pipeline Json.
From Stdlib Require Import Ascii.

Open Scope Z_scope.

(** ** Characters *)

Definition quote_c : ascii := ascii_of_nat 34.
Definition bslash_c : ascii := ascii_of_nat 92.
Definition nl_c : ascii := ascii_of_nat 10.

Definition str1 (c : ascii) : string := String c EmptyString.

Definition hex_digit (n : nat) : ascii :=
  ascii_of_nat (if (n <? 10)%nat then 48 + n else 87 + n).

(** ** The printer *)

(** One byte of a string under serde_json's [ESCAPE] table. *)
Definition escape_char (c : ascii) : string :=
  let n := nat_of_ascii c in
  if (n =? 34)%nat then String bslash_c (str1 quote_c)
  else if (n =? 92)%nat then String bslash_c (str1 bslash_c)
  else if (n =? 8)%nat then String bslash_c (str1 "b")
  else if (n =? 9)%nat then String bslash_c (str1 "t")
  else if (n =? 10)%nat then String bslash_c (str1 "n")
  else if (n =? 12)%nat then String bslash_c (str1 "f")
  else if (n =? 13)%nat then String bslash_c (str1 "r")
  else if (n <? 32)%nat then
    String bslash_c ("u00" +:+ String (hex_digit (n / 16)) (str1 (hex_digit (n mod 16))))
  else str1 c.

Fixpoint escape (s : string) : string :=
  match s with
  | EmptyString => EmptyString
  | String c s => escape_char c +:+ escape s
  end.

(** [format_escaped_str]. *)
Definition print_str (s : string) : string := String quote_c (escape s +:+ str1 quote_c).

(** Decimal digits of [n], most significant first; [fuel] bounds their
    number. *)
Fixpoint dec_digits (fuel : nat) (n : N) (acc : string) : string :=
  match fuel with
  | O => acc
  | S f =>
      let acc' := String (ascii_of_N (48 + n mod 10)) acc in
      if (n <? 10)%N then acc' else dec_digits f (n / 10) acc'
  end.

Definition print_N (n : N) : string := dec_digits (S (N.size_nat n)) n EmptyString.

(** [itoa] of an integer. *)
Definition print_Z (z : Z) : string :=
  match z with
  | Zneg p => "-" +:+ print_N (Npos p)
  | _ => print_N (Z.to_N z)
  end.

Fixpoint indent (k : nat) : string :=
  match k with
  | O => EmptyString
  | S k => "  " +:+ indent k
  end.

(** A new line at indentation level [k]. *)
Definition nl_indent (k : nat) : string := String nl_c (indent k).

(** The elements after the first, and the members after the first, each
    behind [,] on a new line at level [k]. *)
Fixpoint print_items (pr : json -> string) (k : nat) (xs : list json) : string :=
  match xs with
  | [] => EmptyString
  | y :: ys => "," +:+ nl_indent k +:+ pr y +:+ print_items pr k ys
  end.

Definition print_member (pr : json -> string) (kv : string * json) : string :=
  print_str (fst kv) +:+ ": " +:+ pr (snd kv).

Fixpoint print_members (pr : json -> string) (k : nat) (fs : list (string * json)) : string :=
  match fs with
  | [] => EmptyString
  | kv :: gs => "," +:+ nl_indent k +:+ print_member pr kv +:+ print_members pr k gs
  end.

(** [PrettyFormatter] at nesting level [lvl]. *)
Fixpoint json_print (lvl : nat) (v : json) : string :=
  match v with
  | JNull => "null"
  | JBool b => if b then "true" else "false"
  | JNum n => print_Z n
  | JStr s => print_str s
  | JArr [] => "[]"
  | JArr (x :: xs) =>
      "[" +:+ nl_indent (S lvl) +:+ json_print (S lvl) x +:+
      print_items (json_print (S lvl)) (S lvl) xs +:+ nl_indent lvl +:+ "]"
  | JObj [] => "{}"
  | JObj (kv :: fs) =>
      "{" +:+ nl_indent (S lvl) +:+ print_member (json_print (S lvl)) kv +:+
      print_members (json_print (S lvl)) (S lvl) fs +:+ nl_indent lvl +:+ "}"
  end.

(** The nodes and elements of a value: the fuel its reading needs. *)
Fixpoint json_size (v : json) : nat :=
  match v with
  | JArr l => S (fold_right (fun x acc => S (json_size x + acc)) 0%nat l)
  | JObj fs => S (fold_right (fun kv acc => S (json_size (snd kv) + acc)) 0%nat fs)
  | _ => 1%nat
  end.

Definition json_pretty (v : json) : string := json_print 0 v.

(** The text of a JSON artifact. *)
Definition json_text (a : Pipeline.artifact) : option string :=
  match a with
  | Pipeline.JsonFile l => Some (json_pretty (to_json_results l))
  | Pipeline.BinFile _ => None
  end.

(** ** The reader *)

Definition is_ws (c : ascii) : bool :=
  let n := nat_of_ascii c in ((n =? 32) || (n =? 10) || (n =? 9) || (n =? 13))%nat.

Fixpoint skip_ws (s : string) : string :=
  match s with
  | String c s' => if is_ws c then skip_ws s' else s
  | EmptyString => EmptyString
  end.

Definition digit_val (c : ascii) : option N :=
  let n := nat_of_ascii c in
  if ((48 <=? n) && (n <=? 57))%nat then Some (N.of_nat (n - 48)) else None.

(** The longest run of digits, at least one, as a number. *)
Fixpoint read_digits (s : string) (acc : N) (seen : bool) : option (N * string) :=
  match s with
  | String c s' =>
      match digit_val c with
      | Some d => read_digits s' (acc * 10 + d)%N true
      | None => if seen then Some (acc, s) else None
      end
  | EmptyString => if seen then Some (acc, EmptyString) else None
  end.

Definition read_number (s : string) : option (json * string) :=
  match s with
  | String c s' =>
      if (nat_of_ascii c =? 45)%nat then
        match read_digits s' 0 false with
        | Some (n, r) => Some (JNum (- Z.of_N n), r)
        | None => None
        end
      else
        match read_digits s 0 false with
        | Some (n, r) => Some (JNum (Z.of_N n), r)
        | None => None
        end
  | EmptyString => None
  end.

Definition hex_val (c : ascii) : option nat :=
  let n := nat_of_ascii c in
  if ((48 <=? n) && (n <=? 57))%nat then Some (n - 48)%nat
  else if ((97 <=? n) && (n <=? 102))%nat then Some (n - 87)%nat
  else if ((65 <=? n) && (n <=? 70))%nat then Some (n - 55)%nat
  else None.

(** The character a one-letter escape stands for. *)
Definition unescape1 (e : ascii) : option ascii :=
  let n := nat_of_ascii e in
  if (n =? 34)%nat then Some quote_c
  else if (n =? 92)%nat then Some bslash_c
  else if (n =? 47)%nat then Some (ascii_of_nat 47)
  else if (n =? 98)%nat then Some (ascii_of_nat 8)
  else if (n =? 102)%nat then Some (ascii_of_nat 12)
  else if (n =? 110)%nat then Some (ascii_of_nat 10)
  else if (n =? 114)%nat then Some (ascii_of_nat 13)
  else if (n =? 116)%nat then Some (ascii_of_nat 9)
  else None.

(** The body of a string after its opening quote, up to and including the
    closing quote: unescaped control characters are refused, [\u] escapes
    are read for ASCII code points. *)
Fixpoint read_str (s : string) : option (string * string) :=
  match s with
  | EmptyString => None
  | String c s' =>
      let n := nat_of_ascii c in
      if (n =? 34)%nat then Some (EmptyString, s')
      else if (n <? 32)%nat then None
      else if (n =? 92)%nat then
        match s' with
        | String e s'' =>
            if (nat_of_ascii e =? 117)%nat then
              match s'' with
              | String h1 (String h2 (String h3 (String h4 s5))) =>
                  match hex_val h1, hex_val h2, hex_val h3, hex_val h4 with
                  | Some 0%nat, Some 0%nat, Some d3, Some d4 =>
                      if (d3 <? 8)%nat then
                        match read_str s5 with
                        | Some (r, rest) => Some (String (ascii_of_nat (16 * d3 + d4)) r, rest)
                        | None => None
                        end
                      else None
                  | _, _, _, _ => None
                  end
              | _ => None
              end
            else
              match unescape1 e, read_str s'' with
              | Some c', Some (r, rest) => Some (String c' r, rest)
              | _, _ => None
              end
        | EmptyString => None
        end
      else
        match read_str s' with
        | Some (r, rest) => Some (String c r, rest)
        | None => None
        end
  end.

(** A literal word. *)
Fixpoint read_word (w s : string) : option string :=
  match w, s with
  | EmptyString, _ => Some s
  | String c w', String d s' => if Ascii.eqb c d then read_word w' s' else None
  | String _ _, EmptyString => None
  end.

(** A value, the elements of an array and the members of an object, with
    [fuel] bounding the nesting and the number of elements. *)
Fixpoint parse_value (fuel : nat) (s : string) : option (json * string) :=
  match fuel with
  | O => None
  | S f =>
      match skip_ws s with
      | EmptyString => None
      | String c r =>
          let n := nat_of_ascii c in
          if (n =? 110)%nat then option_map (fun r' => (JNull, r')) (read_word "ull" r)
          else if (n =? 116)%nat then option_map (fun r' => (JBool true, r')) (read_word "rue" r)
          else if (n =? 102)%nat then option_map (fun r' => (JBool false, r')) (read_word "alse" r)
          else if (n =? 34)%nat then
            match read_str r with
            | Some (str, r') => Some (JStr str, r')
            | None => None
            end
          else if (n =? 91)%nat then
            match skip_ws r with
            | String c' r' =>
                if (nat_of_ascii c' =? 93)%nat then Some (JArr [], r')
                else match parse_elems f r with
                     | Some (l, r'') => Some (JArr l, r'')
                     | None => None
                     end
            | EmptyString => None
            end
          else if (n =? 123)%nat then
            match skip_ws r with
            | String c' r' =>
                if (nat_of_ascii c' =? 125)%nat then Some (JObj [], r')
                else match parse_members f r with
                     | Some (l, r'') => Some (JObj l, r'')
                     | None => None
                     end
            | EmptyString => None
            end
          else read_number (String c r)
      end
  end
with parse_elems (fuel : nat) (s : string) : option (list json * string) :=
  match fuel with
  | O => None
  | S f =>
      match parse_value f s with
      | Some (v, r) =>
          match skip_ws r with
          | String c r' =>
              if (nat_of_ascii c =? 44)%nat then
                match parse_elems f r' with
                | Some (vs, r'') => Some (v :: vs, r'')
                | None => None
                end
              else if (nat_of_ascii c =? 93)%nat then Some ([v], r')
              else None
          | EmptyString => None
          end
      | None => None
      end
  end
with parse_members (fuel : nat) (s : string) : option (list (string * json) * string) :=
  match fuel with
  | O => None
  | S f =>
      match skip_ws s with
      | String q r =>
          if (nat_of_ascii q =? 34)%nat then
            match read_str r with
            | Some (k, r1) =>
                match skip_ws r1 with
                | String col r2 =>
                    if (nat_of_ascii col =? 58)%nat then
                      match parse_value f r2 with
                      | Some (v, r3) =>
                          match skip_ws r3 with
                          | String c r4 =>
                              if (nat_of_ascii c =? 44)%nat then
                                match parse_members f r4 with
                                | Some (ms, r5) => Some ((k, v) :: ms, r5)
                                | None => None
                                end
                              else if (nat_of_ascii c =? 125)%nat then Some ([(k, v)], r4)
                              else None
                          | EmptyString => None
                          end
                      | None => None
                      end
                    else None
                | EmptyString => None
                end
            | None => None
            end
          else None
      | EmptyString => None
      end
  end.

(** A whole text: one value and nothing but white space after it. *)
Definition parse_json (s : string) : option json :=
  match parse_value (String.length s) s with
  | Some (v, r) => match skip_ws r with EmptyString => Some v | _ => None end
  | None => None
  end.

(** Whether a text starts with a digit: a number printed before it would
    read on into it. *)
Definition starts_digit (s : string) : bool :=
  match s with String c _ => bool_decide (is_Some (digit_val c)) | EmptyString => false end.

(** A value is read back from its text at any level, with enough fuel,
    followed by any text that does not continue a number. *)
Definition parses (v : json) : Prop :=
  forall lvl f s, (json_size v <= f)%nat -> starts_digit s = false ->
    parse_value f (json_print lvl v +:+ s) = Some (v, s).

(** ** Reading back what is printed *)

(** Reading one escaped byte gives the byte back. *)
Lemma read_str_escape_char c s :
  read_str (escape_char c +:+ s) =
  match read_str s with Some (r, rest) => Some (String c r, rest) | None => None end.
Proof. destruct c as [[] [] [] [] [] [] [] []]; reflexivity. Qed.

Lemma read_str_escape s rest :
  read_str (escape s +:+ String quote_c rest) = Some (s, rest).
Proof.
  induction s as [|c s IH]; [reflexivity|].
  change (escape (String c s)) with (escape_char c +:+ escape s).
  rewrite string_app_assoc, read_str_escape_char, IH. reflexivity.
Qed.

Lemma print_str_app s rest :
  print_str s +:+ rest = String quote_c (escape s +:+ String quote_c rest).
Proof. unfold print_str, str1. rewrite string_app_cons, string_app_assoc. reflexivity. Qed.

(** Numbers: the digits [dec_digits] writes are read back greedily, up to
    the first byte that is not a digit. *)

Lemma digit_val_digit n : (n < 10)%N -> digit_val (ascii_of_N (48 + n)) = Some n.
Proof.
  intros H. unfold digit_val, nat_of_ascii. rewrite N_ascii_embedding by lia.
  replace ((48 <=? _) && (_ <=? 57))%nat with true
    by (symmetry; apply andb_true_iff; split; apply Nat.leb_le; lia).
  f_equal. lia.
Qed.

Lemma read_digits_stop s m : starts_digit s = false -> read_digits s m true = Some (m, s).
Proof.
  destruct s as [|c s]; [reflexivity|]. cbn. intros H.
  destruct (digit_val c); [discriminate|reflexivity].
Qed.

Lemma read_dec_digits f n acc :
  (0 < f)%nat -> (n < 10 ^ N.of_nat f)%N ->
  exists k, forall s a seen,
    read_digits (dec_digits f n acc +:+ s) a seen = read_digits (acc +:+ s) (a * 10 ^ k + n)%N true.
Proof.
  revert n acc. induction f as [|f IH]; intros n acc Hf Hn; [lia|]. cbn [dec_digits].
  assert (Hd : digit_val (ascii_of_N (48 + n mod 10)) = Some (n mod 10)%N)
    by (apply digit_val_digit, N.mod_lt; lia).
  pose proof (N.div_mod n 10) as Hdm.
  destruct (N.ltb_spec n 10) as [Hlt|Hlt].
  - exists 1%N. intros s a seen. rewrite string_app_cons. cbn [read_digits]. rewrite Hd.
    now rewrite N.mod_small by lia.
  - destruct f as [|f'].
    { rewrite Nat2N.inj_succ, N.pow_succ_r', N.pow_0_r in Hn. lia. }
    assert (Hq : (n / 10 < 10 ^ N.of_nat (S f'))%N).
    { rewrite Nat2N.inj_succ, N.pow_succ_r' in Hn. apply N.Div0.div_lt_upper_bound; lia. }
    destruct (IH (n / 10)%N (String (ascii_of_N (48 + n mod 10)) acc) ltac:(lia) Hq) as [k Hk].
    exists (N.succ k). intros s a seen. rewrite Hk, string_app_cons. cbn [read_digits].
    rewrite Hd, N.pow_succ_r'. f_equal. nia.
Qed.

Lemma pos_lt_size_nat p : (Npos p < 2 ^ N.of_nat (Pos.size_nat p))%N.
Proof.
  induction p as [p IH|p IH|]; cbn [Pos.size_nat]; rewrite ?Nat2N.inj_succ, ?N.pow_succ_r';
    try reflexivity; lia.
Qed.

(** The fuel [print_N] gives [dec_digits] is enough for all the digits. *)
Lemma print_N_fuel n : (n < 10 ^ N.of_nat (S (N.size_nat n)))%N.
Proof.
  rewrite Nat2N.inj_succ, N.pow_succ_r'. destruct n as [|p]; [cbn; lia|].
  pose proof (pos_lt_size_nat p).
  assert (2 ^ N.of_nat (N.size_nat (Npos p)) <= 10 ^ N.of_nat (N.size_nat (Npos p)))%N
    by (apply N.pow_le_mono_l; lia).
  cbn [N.size_nat] in *. lia.
Qed.

Lemma read_print_N n s :
  starts_digit s = false -> read_digits (print_N n +:+ s) 0 false = Some (n, s).
Proof.
  intros Hs. unfold print_N.
  destruct (read_dec_digits (S (N.size_nat n)) n EmptyString ltac:(lia) (print_N_fuel n))
    as [k Hk].
  rewrite Hk, string_app_nil_l, read_digits_stop by exact Hs. reflexivity.
Qed.

Lemma starts_digit_app s t : starts_digit s = true -> starts_digit (s +:+ t) = true.
Proof. by destruct s. Qed.

Lemma dec_digits_starts_digit f n acc :
  starts_digit acc = true \/ (0 < f)%nat -> starts_digit (dec_digits f n acc) = true.
Proof.
  revert n acc. induction f as [|f IH]; intros n acc H; cbn [dec_digits].
  - destruct H; [done | lia].
  - assert (Hd : starts_digit (String (ascii_of_N (48 + n mod 10)) acc) = true).
    { cbn. rewrite digit_val_digit by (apply N.mod_lt; lia). reflexivity. }
    destruct (n <? 10)%N; auto.
Qed.

Lemma read_number_digits t n r :
  starts_digit t = true -> read_digits t 0 false = Some (n, r) ->
  read_number t = Some (JNum (Z.of_N n), r).
Proof.
  destruct t as [|c t]; [discriminate|]. cbn [starts_digit read_number]. intros Hst Hr.
  unfold digit_val in Hst. case_match; [|discriminate].
  apply andb_true_iff in H. rewrite !Nat.leb_le in H.
  destruct (Nat.eqb_spec (nat_of_ascii c) 45); [lia|]. now rewrite Hr.
Qed.

Lemma read_print_Z z s :
  starts_digit s = false -> read_number (print_Z z +:+ s) = Some (JNum z, s).
Proof.
  intros Hs. destruct z as [|p|p]; cbn [print_Z].
  - apply (read_number_digits _ 0%N); [|by apply read_print_N].
    apply starts_digit_app, dec_digits_starts_digit; lia.
  - apply (read_number_digits _ (Npos p)); [|by apply read_print_N].
    apply starts_digit_app, dec_digits_starts_digit; lia.
  - rewrite string_app_assoc, string_app_cons, string_app_nil_l. unfold read_number.
    rewrite read_print_N by exact Hs. reflexivity.
Qed.

(** White space and layout. *)

Lemma skip_ws_idem t : skip_ws (skip_ws t) = skip_ws t.
Proof.
  induction t as [|c t IH]; [reflexivity|]. cbn [skip_ws].
  destruct (is_ws c) eqn:E; [exact IH|]. cbn [skip_ws]. now rewrite E.
Qed.

Lemma skip_ws_indent k t : skip_ws (indent k +:+ t) = skip_ws t.
Proof. induction k as [|k IH]; [reflexivity|]. cbn [indent]. rewrite string_app_assoc. exact IH. Qed.

Lemma skip_ws_nl_indent k t : skip_ws (nl_indent k +:+ t) = skip_ws t.
Proof. apply skip_ws_indent. Qed.

Lemma skip_ws_nonws c t : is_ws c = false -> skip_ws (String c t) = String c t.
Proof. intros H. cbn. now rewrite H. Qed.

Lemma parse_value_skip_ws f t : parse_value f (skip_ws t) = parse_value f t.
Proof. destruct f; [reflexivity|]. cbn [parse_value]. now rewrite skip_ws_idem. Qed.

Lemma parse_value_nl_indent f k t : parse_value f (nl_indent k +:+ t) = parse_value f t.
Proof. now rewrite <- parse_value_skip_ws, skip_ws_nl_indent, parse_value_skip_ws. Qed.

Lemma parse_members_skip_ws f t : parse_members f (skip_ws t) = parse_members f t.
Proof. destruct f; [reflexivity|]. cbn [parse_members]. now rewrite skip_ws_idem. Qed.

Lemma parse_members_nl_indent f k t : parse_members f (nl_indent k +:+ t) = parse_members f t.
Proof. now rewrite <- parse_members_skip_ws, skip_ws_nl_indent, parse_members_skip_ws. Qed.

Lemma starts_digit_head t :
  starts_digit t = true -> exists c r, t = String c r /\ (48 <= nat_of_ascii c <= 57)%nat.
Proof.
  destruct t as [|c r]; [discriminate|]. cbn. unfold digit_val. intros H.
  case_match; [|discriminate]. apply andb_true_iff in H0. rewrite !Nat.leb_le in H0. eauto.
Qed.

(** The first byte of a printed value opens it: it is no white space and
    no closing bracket. *)
Lemma json_print_head lvl v s :
  exists c r, json_print lvl v +:+ s = String c r /\ is_ws c = false /\
    (nat_of_ascii c <> 93 /\ nat_of_ascii c <> 125)%nat /\
    (match v with JNum _ => nat_of_ascii c = 45 \/ (48 <= nat_of_ascii c <= 57) | _ => True end)%nat.
Proof.
  destruct v as [| [] |z| |[]|[]]; cbn [json_print];
    try (eexists _, _; split; [reflexivity|]; repeat split; try reflexivity; vm_compute; congruence).
  destruct z as [|p|p]; cbn [print_Z].
  3: { eexists _, _; split; [reflexivity|]; repeat split; try reflexivity; try (left; reflexivity); vm_compute; congruence. }
  all: match goal with |- context [print_N ?n +:+ ?t] =>
         destruct (starts_digit_head (print_N n +:+ t)) as (c & r & -> & Hc) end;
    [apply starts_digit_app, dec_digits_starts_digit; lia|];
    exists c, r; split; [reflexivity|]; unfold is_ws; repeat split; try lia;
    rewrite !(proj2 (Nat.eqb_neq _ _)) by lia; reflexivity.
Qed.

Lemma parse_value_open_str f t :
  parse_value (S f) (String quote_c t) =
  match read_str t with Some (str, r') => Some (JStr str, r') | None => None end.
Proof. reflexivity. Qed.

Lemma parse_value_open_arr f t :
  parse_value (S f) (String "[" t) =
  match skip_ws t with
  | String c' r' =>
      if (nat_of_ascii c' =? 93)%nat then Some (JArr [], r')
      else match parse_elems f t with Some (l, r'') => Some (JArr l, r'') | None => None end
  | EmptyString => None
  end.
Proof. reflexivity. Qed.

Lemma parse_value_open_obj f t :
  parse_value (S f) (String "{" t) =
  match skip_ws t with
  | String c' r' =>
      if (nat_of_ascii c' =? 125)%nat then Some (JObj [], r')
      else match parse_members f t with Some (l, r'') => Some (JObj l, r'') | None => None end
  | EmptyString => None
  end.
Proof. reflexivity. Qed.

Lemma parse_value_num f z s :
  starts_digit s = false -> parse_value (S f) (print_Z z +:+ s) = Some (JNum z, s).
Proof.
  intros Hs. destruct (json_print_head 0 (JNum z) s) as (c & r & E & Hws & _ & Hc).
  cbn [json_print] in E. rewrite E. cbn [parse_value]. rewrite (skip_ws_nonws c r Hws).
  cbv beta iota zeta. rewrite !(proj2 (Nat.eqb_neq (nat_of_ascii c) _)) by lia.
  rewrite <- E. apply read_print_Z, Hs.
Qed.

Lemma parse_elems_print k lvl xs x f s :
  Forall parses (x :: xs) ->
  (fold_right (fun x acc => S (json_size x + acc)) 0%nat (x :: xs) <= f)%nat ->
  parse_elems f (nl_indent k +:+ (json_print k x +:+
    (print_items (json_print k) k xs +:+ (nl_indent lvl +:+ ("]" +:+ s))))) = Some (x :: xs, s).
Proof.
  revert x f. induction xs as [|y ys IH]; intros x f Hall Hf;
    destruct f as [|f]; cbn [fold_right] in Hf; try lia;
    apply Forall_cons_1 in Hall as [Hx Hrest]; cbn [parse_elems];
    rewrite parse_value_nl_indent, Hx by (reflexivity || lia).
  - cbn [print_items]. rewrite string_app_nil_l, skip_ws_nl_indent. reflexivity.
  - cbn [print_items]. rewrite !string_app_assoc. change ("," +:+ ?X) with (String "," X).
    rewrite skip_ws_nonws by reflexivity. cbv beta iota zeta.
    vm_compute (nat_of_ascii "," =? 44)%nat. cbv beta iota.
    rewrite IH by (done || cbn; lia). reflexivity.
Qed.

Lemma parse_value_space f t : parse_value f (String " " t) = parse_value f t.
Proof. rewrite <- (parse_value_skip_ws f (String " " t)). exact (parse_value_skip_ws f t). Qed.

Lemma parse_members_print k lvl kv gs f s :
  Forall (fun kv => parses (snd kv)) (kv :: gs) ->
  (fold_right (fun kv acc => S (json_size (snd kv) + acc)) 0%nat (kv :: gs) <= f)%nat ->
  parse_members f (nl_indent k +:+ (print_member (json_print k) kv +:+
    (print_members (json_print k) k gs +:+ (nl_indent lvl +:+ ("}" +:+ s))))) = Some (kv :: gs, s).
Proof.
  revert kv f. induction gs as [|kv' gs IH]; intros [key v] f Hall Hf;
    destruct f as [|f]; cbn [fold_right snd] in Hf; try lia;
    apply Forall_cons_1 in Hall as [Hv Hrest];
    rewrite parse_members_nl_indent; unfold print_member; cbn [fst snd];
    rewrite !string_app_assoc, print_str_app; cbn [parse_members];
    rewrite skip_ws_nonws by reflexivity; cbv beta iota zeta;
    vm_compute (nat_of_ascii quote_c =? 34)%nat; cbv beta iota;
    rewrite read_str_escape; cbv beta iota zeta;
    change (": " +:+ ?X) with (String ":" (String " " X));
    rewrite skip_ws_nonws by reflexivity; cbv beta iota zeta;
    vm_compute (nat_of_ascii ":" =? 58)%nat; cbv beta iota;
    cbn [snd] in Hv; rewrite parse_value_space, Hv by (reflexivity || lia).
  - cbn [print_members]. rewrite string_app_nil_l, skip_ws_nl_indent. reflexivity.
  - cbn [print_members]. rewrite !string_app_assoc. change ("," +:+ ?X) with (String "," X).
    rewrite skip_ws_nonws by reflexivity. cbv beta iota zeta.
    vm_compute (nat_of_ascii "," =? 44)%nat. cbv beta iota.
    rewrite IH by (done || cbn; lia). reflexivity.
Qed.

Lemma print_member_app pr kv t :
  print_member pr kv +:+ t =
  String quote_c (escape (fst kv) +:+ String quote_c (": " +:+ (pr (snd kv) +:+ t))).
Proof. unfold print_member. now rewrite !string_app_assoc, print_str_app. Qed.

Lemma json_print_parses v : parses v.
Proof.
  induction v as [| b | z | str | l IH | fs IH] using json_ind;
    intros lvl f s Hf Hs; (destruct f as [|f]; [cbn in Hf; lia|]).
  - reflexivity.
  - destruct b; reflexivity.
  - apply parse_value_num, Hs.
  - cbn [json_print]. now rewrite print_str_app, parse_value_open_str, read_str_escape.
  - destruct l as [|x xs]; [reflexivity|]. cbn [json_print]. rewrite !string_app_assoc.
    change ("[" +:+ ?X) with (String "[" X). rewrite parse_value_open_arr, skip_ws_nl_indent.
    destruct (json_print_head (S lvl) x (print_items (json_print (S lvl)) (S lvl) xs +:+
      (nl_indent lvl +:+ ("]" +:+ s)))) as (c & r & E & Hws & [H93 _] & _).
    rewrite E, skip_ws_nonws by exact Hws. cbv beta iota zeta.
    rewrite (proj2 (Nat.eqb_neq _ 93)) by exact H93.
    rewrite <- E, parse_elems_print by (done || cbn [json_size] in Hf; lia). reflexivity.
  - destruct fs as [|kv fs]; [reflexivity|]. cbn [json_print]. rewrite !string_app_assoc.
    change ("{" +:+ ?X) with (String "{" X). rewrite parse_value_open_obj, skip_ws_nl_indent.
    rewrite print_member_app, skip_ws_nonws by reflexivity. cbv beta iota zeta.
    vm_compute (nat_of_ascii quote_c =? 125)%nat. cbv beta iota.
    rewrite <- print_member_app, parse_members_print by (done || cbn [json_size] in Hf; lia).
    reflexivity.
Qed.

Lemma print_items_size pr k xs :
  Forall (fun x => json_size x <= String.length (pr x))%nat xs ->
  (fold_right (fun x acc => S (json_size x + acc)) 0 xs <= String.length (print_items pr k xs))%nat.
Proof.
  induction 1 as [|y ys Hy _ IH]; [cbn; lia|]. cbn [print_items fold_right].
  rewrite !length_string_app. cbn [String.length nl_indent]. lia.
Qed.

Lemma print_members_size pr k fs :
  Forall (fun kv => json_size (snd kv) <= String.length (pr (snd kv)))%nat fs ->
  (fold_right (fun kv acc => S (json_size (snd kv) + acc)) 0 fs <=
   String.length (print_members pr k fs))%nat.
Proof.
  induction 1 as [|kv gs Hkv _ IH]; [cbn; lia|]. cbn [print_members fold_right].
  unfold print_member. rewrite !length_string_app. cbn [String.length nl_indent]. lia.
Qed.

Lemma json_size_le_length v lvl : (json_size v <= String.length (json_print lvl v))%nat.
Proof.
  revert lvl. induction v as [| b | z | str | l IH | fs IH] using json_ind; intros lvl.
  - cbn; lia.
  - destruct b; cbn; lia.
  - destruct (json_print_head lvl (JNum z) EmptyString) as (c & r & E & _).
    rewrite string_app_nil_r in E. rewrite E. cbn; lia.
  - cbn. lia.
  - destruct l as [|x xs]; [cbn; lia|]. apply Forall_cons_1 in IH as [Hx Hxs].
    pose proof (print_items_size (json_print (S lvl)) (S lvl) xs
      (Forall_impl _ _ _ Hxs (fun y H => H (S lvl)))).
    specialize (Hx (S lvl)). cbn [json_print json_size fold_right].
    rewrite !length_string_app. cbn [String.length nl_indent]. lia.
  - destruct fs as [|kv gs]; [cbn; lia|]. apply Forall_cons_1 in IH as [Hkv Hgs].
    pose proof (print_members_size (json_print (S lvl)) (S lvl) gs
      (Forall_impl _ _ _ Hgs (fun y H => H (S lvl)))).
    specialize (Hkv (S lvl)). cbn [json_print json_size fold_right]. unfold print_member.
    rewrite !length_string_app. cbn [String.length nl_indent]. lia.
Qed.

Lemma parse_json_pretty v : parse_json (json_pretty v) = Some v.
Proof.
  unfold parse_json, json_pretty.
  pose proof (json_print_parses v 0%nat _ EmptyString (json_size_le_length v 0%nat) eq_refl) as H.
  rewrite string_app_nil_r in H. now rewrite H.
Qed.

(** ** The text of a value reads back as the value *)

(** C27: reading the text [serde_json::to_writer_pretty] writes for any
    JSON value, with the JSON grammar, gives back that value: the escapes
    of strings, the decimal integers and the layout of arrays and objects
    lose nothing. *)
Theorem json_pretty_parse v : parse_json (json_pretty v) = Some v.
Proof. apply parse_json_pretty. Qed.
