(* ===== verification/Csv.v ===== *)
(** * Csv: the two CSV readers of main.rs

    main.rs 48 opens the UTXO dump with [csv::Reader::from_path] (the
    default reader: headers on, delimiter [,], the quote byte 34, doubled quotes
    inside a quoted field, CRLF terminator, no comments, no trimming, not
    flexible) and main.rs 69-71 opens the position dump the same way with
    [has_headers(false)].  [deserialize()] (main.rs 51, 79) reads each
    record and turns it into a [UtxoDump] or an [IterateDump] with the
    derived [Deserialize].

    - Module [CsvCore] is the record reader of [csv-core]: its automaton
      [trans] over the bytes of the input, with the states [StartRecord],
      [StartField], [InField], [InQuotedField] and [InDoubleEscapedQuote]
      of [csv_core::reader::NfaState].  The states csv-core passes through
      without reading a byte ([EndFieldDelim], [EndFieldTerm],
      [InRecordTerm], [CRLF], [EndRecord]) are folded into the transitions
      that reach them: under the CRLF terminator, [CRLF] behaves as
      [StartRecord], which discards a further [\n] as a blank line.
      [records] runs the automaton over a whole text; the end of the input
      ends the record being read, as [transition_final_nfa] does.
    - Module [RustInt] is [u16], [u32] and [u64::from_str_radix] of
      Rust's core library, with the [0x] prefix by which the [csv]
      deserializer selects base 16.
    - Module [CsvRead] is the [csv] crate's [Reader]: the header record,
      the check that every record has as many fields as the first
      ([UnequalLengths]), the UTF-8 check of each field, and the derived
      [Deserialize] of the two row types: by header name through
      [visit_map] for [UtxoDump], by position through [visit_seq] for
      [IterateDump].  The readers [read_utxo_dump_csv] and
      [read_bitcoin_iterate_csv] are what [Pipeline.main] takes as its two
      reader parameters, over a directory of file contents.

    The error messages are not csv's text: [csv_error] keeps the kind of
    each error and [csv_msg] names it. *)

From S2P Require Import Prelude Types JsonText.
From Stdlib Require Import Ascii.

Open Scope Z_scope.

Module CsvCore.

Definition dquote : ascii := ascii_of_nat 34.
Definition comma : ascii := ascii_of_nat 44.

Definition is_quote (c : ascii) : bool := (nat_of_ascii c =? 34)%nat.
Definition is_delim (c : ascii) : bool := (nat_of_ascii c =? 44)%nat.

(** [Terminator::CRLF]: either byte of [\r\n] ends a record. *)
Definition is_term (c : ascii) : bool := (nat_of_ascii c =? 13)%nat || (nat_of_ascii c =? 10)%nat.

(** The states of [NfaState] that read a byte. *)
Inductive state := StartRecord | StartField | InField | InQuotedField | InDoubleEscapedQuote.

#[export] Instance state_eq_dec : EqDecision state.
Proof. solve_decision. Defined.

(** [NfaInputAction], with the ends of a field and of a record that the
    folded states [EndFieldDelim] and [EndFieldTerm]/[InRecordTerm]
    perform. *)
Inductive action := Discard | CopyToOutput | EndField | EndRecord.

(** [StartField]: a quote opens a quoted field, the delimiter ends an
    empty field, a terminator ends the record. *)
Definition start_field (c : ascii) : state * action :=
  if is_quote c then (InQuotedField, Discard)
  else if is_delim c then (StartField, EndField)
  else if is_term c then (StartRecord, EndRecord)
  else (InField, CopyToOutput).

(** [transition_nfa] of csv-core for the default reader. *)
Definition trans (st : state) (c : ascii) : state * action :=
  match st with
  | StartRecord => if is_term c then (StartRecord, Discard) else start_field c
  | StartField => start_field c
  | InField =>
      if is_delim c then (StartField, EndField)
      else if is_term c then (StartRecord, EndRecord)
      else (InField, CopyToOutput)
  | InQuotedField =>
      if is_quote c then (InDoubleEscapedQuote, Discard) else (InQuotedField, CopyToOutput)
  | InDoubleEscapedQuote =>
      if is_quote c then (InQuotedField, CopyToOutput)
      else if is_delim c then (StartField, EndField)
      else if is_term c then (StartRecord, EndRecord)
      else (InField, CopyToOutput)
  end.

(** The automaton over a text, from state [st], with the field [fld] and
    the fields [flds] of the current record read so far. *)
Fixpoint run (st : state) (s : string) (fld : string) (flds : list string)
    : list (list string) :=
  match s with
  | EmptyString =>
      match st with
      | StartRecord => []
      | _ => [flds ++ [fld]]
      end
  | String c s' =>
      let '(st', a) := trans st c in
      match a with
      | Discard => run st' s' fld flds
      | CopyToOutput => run st' s' (fld +:+ String c EmptyString) flds
      | EndField => run st' s' EmptyString (flds ++ [fld])
      | EndRecord => (flds ++ [fld]) :: run st' s' EmptyString []
      end
  end.

(** The records of a text. *)
Definition records (s : string) : list (list string) := run StartRecord s EmptyString [].

End CsvCore.

Module RustInt.

(** [IntErrorKind] of a failed [from_str_radix] of an unsigned type. *)
Inductive int_error := Empty | InvalidDigit | PosOverflow.

#[export] Instance int_error_eq_dec : EqDecision int_error.
Proof. solve_decision. Defined.

(** [char::to_digit] for the bases 10 and 16. *)
Definition to_digit (radix : Z) (c : ascii) : option Z :=
  let n := Z.of_nat (nat_of_ascii c) in
  let d := if (48 <=? n) && (n <=? 57) then n - 48
           else if (97 <=? n) && (n <=? 122) then n - 87
           else if (65 <=? n) && (n <=? 90) then n - 55
           else radix in
  if d <? radix then Some d else None.

(** The digit loop: each byte must be a digit of the base, and every
    intermediate value must fit in [bits] bits ([checked_mul] and
    [checked_add]). *)
Fixpoint digits (bits radix : Z) (s : string) (acc : Z) : result int_error Z :=
  match s with
  | EmptyString => Ok acc
  | String c s' =>
      match to_digit radix c with
      | None => Err InvalidDigit
      | Some d =>
          let acc' := acc * radix + d in
          if acc' <? 2 ^ bits then digits bits radix s' acc' else Err PosOverflow
      end
  end.

(** [from_str_radix] of an unsigned type of [bits] bits: the empty string
    is [Empty]; a lone sign is an invalid digit; a leading [+] is skipped;
    a [-] is left to the digit loop, which refuses it. *)
Definition from_str_radix (bits radix : Z) (s : string) : result int_error Z :=
  match s with
  | EmptyString => Err Empty
  | String c rest =>
      if (nat_of_ascii c =? 43)%nat || (nat_of_ascii c =? 45)%nat then
        match rest with
        | EmptyString => Err InvalidDigit
        | _ => if (nat_of_ascii c =? 43)%nat then digits bits radix rest 0
               else digits bits radix s 0
        end
      else digits bits radix s 0
  end.

(** The [csv] deserializer's integers: a field starting with [0x] is read
    in base 16 from its third byte, any other with [str::parse], base 10. *)
Definition parse_field (bits : Z) (field : string) : result int_error Z :=
  match field with
  | String z (String x rest) =>
      if (nat_of_ascii z =? 48)%nat && (nat_of_ascii x =? 120)%nat
      then from_str_radix bits 16 rest
      else from_str_radix bits 10 field
  | _ => from_str_radix bits 10 field
  end.

End RustInt.

Module CsvRead.
Import CsvCore RustInt.

(** The errors of [csv::Error] the readers can give, by kind. *)
Inductive csv_error :=
| Utf8 (field : nat)
| UnequalLengths (expected_len len : nat)
| ParseInt (field : nat) (e : int_error)
| UnexpectedEndOfRow
| DuplicateField (name : string)
| MissingField (name : string)
| InvalidLength (n : nat).

#[export] Instance csv_error_eq_dec : EqDecision csv_error.
Proof. solve_decision. Defined.

Definition csv_msg (e : csv_error) : string :=
  match e with
  | Utf8 _ => "invalid utf-8"
  | UnequalLengths _ _ => "found record with a different number of fields"
  | ParseInt _ Empty => "cannot parse integer from empty string"
  | ParseInt _ InvalidDigit => "invalid digit found in string"
  | ParseInt _ PosOverflow => "number too large to fit in target type"
  | UnexpectedEndOfRow => "expected field, but got end of row"
  | DuplicateField name => "duplicate field " +:+ name
  | MissingField name => "missing field " +:+ name
  | InvalidLength _ => "invalid length"
  end.

(** [anyhow::Error] of a [csv::Error], as [result?] in main.rs 52, 80
    passes it on. *)
Definition to_error (e : csv_error) : error := CsvError (csv_msg e).

Definition field_utf8 (f : string) : bool := utf8_valid (string_bytes f).

(** The index of the first field that is not UTF-8. *)
Fixpoint bad_utf8 (i : nat) (r : list string) : option nat :=
  match r with
  | [] => None
  | f :: r' => if field_utf8 f then bad_utf8 (S i) r' else Some i
  end.

(** [read_record] into a [StringRecord]: the record must have as many
    fields as the first record read ([flexible] is off), then every field
    must be UTF-8. *)
Definition check_record (expected : nat) (r : list string) : result csv_error (list string) :=
  if (length r =? expected)%nat then
    match bad_utf8 0 r with
    | None => Ok r
    | Some i => Err (Utf8 i)
    end
  else Err (UnequalLengths expected (length r)).

(** The header fields the [Deserialize] of [UtxoDump] knows ([__Field]). *)
Inductive utxo_field := F_txid | F_vout | F_height | F_amount | F_ignore.

#[export] Instance utxo_field_eq_dec : EqDecision utxo_field.
Proof. solve_decision. Defined.

Definition utxo_field_of (h : string) : utxo_field :=
  if String.eqb h "txid" then F_txid
  else if String.eqb h "vout" then F_vout
  else if String.eqb h "height" then F_height
  else if String.eqb h "amount" then F_amount
  else F_ignore.

(** The locals [__field0 .. __field3] of the derived [visit_map]. *)
Record utxo_slots := mkSlots {
  sl_txid : option string; sl_vout : option Z; sl_height : option Z; sl_amount : option Z
}.

Definition empty_slots : utxo_slots := mkSlots None None None None.

Definition is_set {A} (o : option A) : bool := match o with Some _ => true | None => false end.

(** [next_value] of the [csv] deserializer: the next field of the record. *)
Definition next_field (r : list string) : result csv_error (string * list string) :=
  match r with
  | [] => Err UnexpectedEndOfRow
  | f :: r' => Ok (f, r')
  end.

Definition int_value (bits : Z) (i : nat) (f : string) : result csv_error Z :=
  match parse_field bits f with
  | Ok n => Ok n
  | Err e => Err (ParseInt i e)
  end.

(** The derived [visit_map] over the header names [hs] and the fields [r],
    the [i]-th field next: a known field already set is a duplicate, an
    unknown one is read and ignored. *)
Fixpoint visit_map (hs r : list string) (i : nat) (sl : utxo_slots)
    : result csv_error utxo_slots :=
  match hs with
  | [] => Ok sl
  | h :: hs' =>
      match utxo_field_of h with
      | F_txid =>
          if is_set (sl_txid sl) then Err (DuplicateField "txid") else
          fr <-? next_field r ;; let '(f, r') := fr in
          visit_map hs' r' (S i) (mkSlots (Some f) (sl_vout sl) (sl_height sl) (sl_amount sl))
      | F_vout =>
          if is_set (sl_vout sl) then Err (DuplicateField "vout") else
          fr <-? next_field r ;; let '(f, r') := fr in
          n <-? int_value U16_BITS i f ;;
          visit_map hs' r' (S i) (mkSlots (sl_txid sl) (Some n) (sl_height sl) (sl_amount sl))
      | F_height =>
          if is_set (sl_height sl) then Err (DuplicateField "height") else
          fr <-? next_field r ;; let '(f, r') := fr in
          n <-? int_value U32_BITS i f ;;
          visit_map hs' r' (S i) (mkSlots (sl_txid sl) (sl_vout sl) (Some n) (sl_amount sl))
      | F_amount =>
          if is_set (sl_amount sl) then Err (DuplicateField "amount") else
          fr <-? next_field r ;; let '(f, r') := fr in
          n <-? int_value USIZE_BITS i f ;;
          visit_map hs' r' (S i) (mkSlots (sl_txid sl) (sl_vout sl) (sl_height sl) (Some n))
      | F_ignore =>
          fr <-? next_field r ;; let r' := snd fr in
          visit_map hs' r' (S i) sl
      end
  end.

(** The end of the derived [visit_map]: a field never set is missing, in
    the order of declaration. *)
Definition finish_utxo (sl : utxo_slots) : result csv_error UtxoDump.t :=
  match sl_txid sl, sl_vout sl, sl_height sl, sl_amount sl with
  | None, _, _, _ => Err (MissingField "txid")
  | _, None, _, _ => Err (MissingField "vout")
  | _, _, None, _ => Err (MissingField "height")
  | _, _, _, None => Err (MissingField "amount")
  | Some t, Some v, Some h, Some a => Ok (UtxoDump.mk t v h a)
  end.

(** The derived [visit_seq] of [UtxoDump]: the fields in order. *)
Definition visit_seq_utxo (r : list string) : result csv_error UtxoDump.t :=
  match r with
  | t :: v :: h :: a :: _ =>
      v' <-? int_value U16_BITS 1 v ;;
      h' <-? int_value U32_BITS 2 h ;;
      a' <-? int_value USIZE_BITS 3 a ;;
      Ok (UtxoDump.mk t v' h' a')
  | [t; v; h] =>
      v' <-? int_value U16_BITS 1 v ;; h' <-? int_value U32_BITS 2 h ;; Err (InvalidLength 3)
  | [t; v] => v' <-? int_value U16_BITS 1 v ;; Err (InvalidLength 2)
  | [t] => Err (InvalidLength 1)
  | [] => Err (InvalidLength 0)
  end.

(** [deserialize_string_record] for [UtxoDump]: by header name when the
    headers were read as UTF-8, by position otherwise. *)
Definition deserialize_utxo (hdr : option (list string)) (r : list string)
    : result csv_error UtxoDump.t :=
  match hdr with
  | Some hs => sl <-? visit_map hs r 0 empty_slots ;; finish_utxo sl
  | None => visit_seq_utxo r
  end.

(** The derived [visit_seq] of [IterateDump], the reader having no
    headers. *)
Definition deserialize_iterate (r : list string) : result csv_error IterateDump.t :=
  match r with
  | t :: p :: _ =>
      p' <-? int_value U16_BITS 1 p ;;
      Ok (IterateDump.mk t p')
  | [_] => Err (InvalidLength 1)
  | [] => Err (InvalidLength 0)
  end.

(** [reader.deserialize()] of the UTXO dump: the first record is the
    header ([headers()], kept only if it is UTF-8); every later record is
    checked and deserialized, each giving its own result. *)
Definition utxo_rows (text : string) : list (result error UtxoDump.t) :=
  match records text with
  | [] => []
  | h :: rs =>
      let hdr := if forallb field_utf8 h then Some h else None in
      map (fun r => match rbind (check_record (length h) r) (deserialize_utxo hdr) with
                    | Ok u => Ok u
                    | Err e => Err (to_error e)
                    end) rs
  end.

(** [deserialize()] of the position dump, read with [has_headers(false)]:
    the first record only fixes the number of fields. *)
Definition iterate_rows (text : string) : list (result error IterateDump.t) :=
  match records text with
  | [] => []
  | r0 :: _ =>
      map (fun r => match rbind (check_record (length r0) r) deserialize_iterate with
                    | Ok it => Ok it
                    | Err e => Err (to_error e)
                    end) (records text)
  end.

(** [csv::Reader::from_path] and [deserialize()] over a directory of file
    contents: a missing file is the I/O error of [from_path]. *)
Definition read_utxo_dump_csv (files : gmap string string) (path : string)
    : result error (list (result error UtxoDump.t)) :=
  match files !! path with
  | Some text => Ok (utxo_rows text)
  | None => Err (IoError path)
  end.

Definition read_bitcoin_iterate_csv (files : gmap string string) (path : string)
    : result error (list (result error IterateDump.t)) :=
  match files !! path with
  | Some text => Ok (iterate_rows text)
  | None => Err (IoError path)
  end.

End CsvRead.

(** ** A writer of CSV text

    The dumps main.rs reads are written by other tools; [CsvWrite] is the
    reference writer the readers are checked against: every field quoted,
    a quote inside a field doubled, [,] between fields and [\n] after each
    record. *)
Module CsvWrite.
Import CsvCore.

Definition nl : ascii := ascii_of_nat 10.

Fixpoint quote_body (f : string) : string :=
  match f with
  | EmptyString => EmptyString
  | String c f' =>
      if is_quote c then String c (String c (quote_body f')) else String c (quote_body f')
  end.

Definition write_field (f : string) : string := String dquote (quote_body f +:+ String dquote EmptyString).

Fixpoint write_fields (r : list string) : string :=
  match r with
  | [] => EmptyString
  | [f] => write_field f
  | f :: r' => write_field f +:+ String comma (write_fields r')
  end.

Fixpoint write_records (rs : list (list string)) : string :=
  match rs with
  | [] => EmptyString
  | r :: rs' => write_fields r +:+ String nl (write_records rs')
  end.

(** The dumps as CSV text: the UTXO dump with its header row, the
    position dump without; integers in decimal. *)
Definition utxo_header : list string := ["txid"; "vout"; "height"; "amount"].

Definition utxo_record (u : UtxoDump.t) : list string :=
  [UtxoDump.txid u; print_Z (UtxoDump.vout u); print_Z (UtxoDump.height u);
   print_Z (UtxoDump.amount u)].

Definition utxo_csv (rows : list UtxoDump.t) : string :=
  write_records (utxo_header :: map utxo_record rows).

Definition iterate_record (it : IterateDump.t) : list string :=
  [IterateDump.txid it; print_Z (IterateDump.tx_height it)].

Definition iterate_csv (rows : list IterateDump.t) : string :=
  write_records (map iterate_record rows).

End CsvWrite.

(** ** A reference for text without quotes

    Without a quote byte, CSV is text split into lines at [\r] and [\n],
    blank lines left out, and each line split at [,]. *)
Module CsvRef.
Import CsvCore.

Fixpoint str_forall (p : ascii -> bool) (s : string) : bool :=
  match s with
  | EmptyString => true
  | String c s' => p c && str_forall p s'
  end.

(** The pieces of [s] between the bytes [p] holds for; at least one. *)
Fixpoint split_on (p : ascii -> bool) (s : string) : list string :=
  match s with
  | EmptyString => [EmptyString]
  | String c s' =>
      if p c then EmptyString :: split_on p s'
      else match split_on p s' with
           | [] => [String c EmptyString]
           | x :: xs => String c x :: xs
           end
  end.

Definition lines_records (ls : list string) : list (list string) :=
  map (split_on is_delim) (filter (fun l => negb (String.eqb l EmptyString)) ls).

Definition records_ref (s : string) : list (list string) := lines_records (split_on is_term s).

End CsvRef.

Import CsvCore RustInt CsvRead CsvWrite CsvRef.

(** Text made of decimal digits only. *)
Fixpoint all_dec (s : string) : bool :=
  match s with
  | EmptyString => true
  | String c s' => bool_decide (is_Some (to_digit 10 c)) && all_dec s'
  end.

(** The values held in the slots of [visit_map] came from the fields of
    [r] and have their types' ranges. *)
Definition slots_in (r : list string) (sl : utxo_slots) : Prop :=
  (forall t, sl_txid sl = Some t -> In t r) /\
  (forall v, sl_vout sl = Some v -> 0 <= v < 2 ^ U16_BITS) /\
  (forall h, sl_height sl = Some h -> 0 <= h < 2 ^ U32_BITS) /\
  (forall a, sl_amount sl = Some a -> 0 <= a < 2 ^ USIZE_BITS).

(** Whether the slot of a known field is set, and how many headers name
    it. *)
Definition slot_of (k : utxo_field) (sl : utxo_slots) : bool :=
  match k with
  | F_txid => is_set (sl_txid sl)
  | F_vout => is_set (sl_vout sl)
  | F_height => is_set (sl_height sl)
  | F_amount => is_set (sl_amount sl)
  | F_ignore => false
  end.

Definition header_count (k : utxo_field) (hs : list string) : nat :=
  length (filter (fun h => bool_decide (utxo_field_of h = k)) hs).

(** ** Lemmas *)

(** *** Decimal integers *)

Lemma to_digit_dec d : (d < 10)%N -> to_digit 10 (ascii_of_N (48 + d)) = Some (Z.of_N d).
Proof.
  intros H. unfold to_digit, nat_of_ascii. rewrite N_ascii_embedding by lia.
  replace ((48 <=? Z.of_nat (N.to_nat (48 + d))) && (Z.of_nat (N.to_nat (48 + d)) <=? 57))
    with true by (symmetry; apply andb_true_iff; split; apply Z.leb_le; lia).
  rewrite (proj2 (Z.ltb_lt _ _)) by lia. f_equal. lia.
Qed.

Lemma digits_dec_digits f n acc :
  (0 < f)%nat -> (n < 10 ^ N.of_nat f)%N ->
  exists k, 0 <= k /\ forall bits a, 0 <= a -> a * 10 ^ k + Z.of_N n < 2 ^ bits ->
    digits bits 10 (dec_digits f n acc) a = digits bits 10 acc (a * 10 ^ k + Z.of_N n).
Proof.
  revert n acc. induction f as [|f IH]; intros n acc Hf Hn; [lia|]. cbn [dec_digits].
  assert (Hd : to_digit 10 (ascii_of_N (48 + n mod 10)) = Some (Z.of_N (n mod 10)))
    by (apply to_digit_dec, N.mod_lt; lia).
  pose proof (N.div_mod n 10) as Hdm.
  destruct (N.ltb_spec n 10) as [Hlt|Hlt].
  - exists 1. split; [lia|]. intros bits a Ha Hb. cbn [digits]. rewrite Hd, N.mod_small by lia.
    rewrite Z.pow_1_r in *. rewrite (proj2 (Z.ltb_lt _ _)) by lia. reflexivity.
  - destruct f as [|f'].
    { rewrite Nat2N.inj_succ, N.pow_succ_r', N.pow_0_r in Hn. lia. }
    assert (Hq : (n / 10 < 10 ^ N.of_nat (S f'))%N).
    { rewrite Nat2N.inj_succ, N.pow_succ_r' in Hn. apply N.Div0.div_lt_upper_bound; lia. }
    destruct (IH (n / 10)%N (String (ascii_of_N (48 + n mod 10)) acc) ltac:(lia) Hq)
      as (k & Hk0 & Hk).
    exists (Z.succ k). split; [lia|]. intros bits a Ha Hb.
    rewrite Z.pow_succ_r in Hb by lia.
    pose proof (Z.pow_nonneg 10 k ltac:(lia)).
    assert (Hsplit : Z.of_N n = 10 * Z.of_N (n / 10) + Z.of_N (n mod 10)) by lia.
    assert (Hlt' : Z.of_N (n mod 10) < 10) by (pose proof (N.mod_lt n 10); lia).
    assert (0 <= Z.of_N (n / 10) /\ 0 <= Z.of_N (n mod 10)) by (split; apply N2Z.is_nonneg).
    set (P := 10 ^ k) in *. set (q := Z.of_N (n / 10)) in *. set (r := Z.of_N (n mod 10)) in *.
    rewrite Hk by nia. cbn [digits]. rewrite Hd.
    rewrite (proj2 (Z.ltb_lt _ _)) by nia. f_equal. rewrite Z.pow_succ_r by lia. fold P. nia.
Qed.

Lemma dec_digits_all_dec f n acc : all_dec acc = true -> all_dec (dec_digits f n acc) = true.
Proof.
  revert n acc. induction f as [|f IH]; intros n acc H; cbn [dec_digits]; [exact H|].
  assert (Hc : all_dec (String (ascii_of_N (48 + n mod 10)) acc) = true).
  { cbn [all_dec]. rewrite to_digit_dec by (apply N.mod_lt; lia). now rewrite H. }
  destruct (n <? 10)%N; auto.
Qed.

Lemma print_N_all_dec n : all_dec (print_N n) = true.
Proof. apply dec_digits_all_dec. reflexivity. Qed.

Lemma print_N_nonempty n : print_N n <> EmptyString.
Proof.
  pose proof (dec_digits_starts_digit (S (N.size_nat n)) n EmptyString ltac:(lia)) as H.
  unfold print_N. intros E. rewrite E in H. discriminate.
Qed.

(** A nonempty run of digits is read by [parse_field] in base 10: it
    does not start with a sign or with [0x]. *)
Lemma parse_field_all_dec bits s :
  all_dec s = true -> s <> EmptyString -> parse_field bits s = digits bits 10 s 0.
Proof.
  intros H Hne. destruct s as [|z s]; [contradiction|].
  cbn [all_dec] in H. apply andb_true_iff in H as [Hz Hs]. apply bool_decide_eq_true in Hz.
  assert (Hzn : (48 <= nat_of_ascii z <= 57)%nat).
  { unfold to_digit in Hz. repeat case_match; destruct Hz as [d Hd]; simplify_eq/=;
      rewrite ?andb_true_iff, ?Z.leb_le in *; lia. }
  assert (Hsign : ((nat_of_ascii z =? 43) || (nat_of_ascii z =? 45))%nat = false).
  { apply orb_false_iff. split; apply Nat.eqb_neq; lia. }
  destruct s as [|x s]; unfold parse_field; cbv beta iota; unfold from_str_radix; cbv beta iota;
    rewrite ?Hsign; [reflexivity|].
  cbn [all_dec] in Hs. apply andb_true_iff in Hs as [Hx _]. apply bool_decide_eq_true in Hx.
  assert (Hxn : (nat_of_ascii x =? 120)%nat = false).
  { apply Nat.eqb_neq. intros E. unfold to_digit in Hx. rewrite E in Hx. cbn in Hx.
    destruct Hx; discriminate. }
  rewrite Hxn, andb_false_r. reflexivity.
Qed.

(** [str::parse] reads back the decimal text of a value of the type. *)
Lemma parse_field_print bits n : 0 <= n < 2 ^ bits -> parse_field bits (print_Z n) = Ok n.
Proof.
  intros Hn. assert (Hp : print_Z n = print_N (Z.to_N n)) by (destruct n; [reflexivity..|lia]).
  rewrite Hp, parse_field_all_dec by (apply print_N_all_dec || apply print_N_nonempty).
  unfold print_N.
  destruct (digits_dec_digits (S (N.size_nat (Z.to_N n))) (Z.to_N n) EmptyString
              ltac:(lia) (print_N_fuel _)) as (k & Hk0 & Hk).
  rewrite Hk by lia. cbn [digits]. f_equal. lia.
Qed.

(** *** Records *)

Lemma run_cons st c s fld flds :
  run st (String c s) fld flds =
  let '(st', a) := trans st c in
  match a with
  | Discard => run st' s fld flds
  | CopyToOutput => run st' s (fld +:+ String c EmptyString) flds
  | EndField => run st' s EmptyString (flds ++ [fld])
  | EndRecord => (flds ++ [fld]) :: run st' s EmptyString []
  end.
Proof. reflexivity. Qed.

Lemma trans_StartField_quote : trans StartField dquote = (InQuotedField, Discard).
Proof. reflexivity. Qed.
Lemma trans_closed_comma : trans InDoubleEscapedQuote comma = (StartField, EndField).
Proof. reflexivity. Qed.
Lemma trans_closed_nl : trans InDoubleEscapedQuote nl = (StartRecord, EndRecord).
Proof. reflexivity. Qed.

(** Out of a blank line, a record starts as a field does. *)
Lemma run_StartRecord_start c s fld flds :
  is_term c = false -> run StartRecord (String c s) fld flds = run StartField (String c s) fld flds.
Proof. intros H. rewrite !run_cons. cbn [trans]. now rewrite H. Qed.

Lemma write_field_app f s :
  write_field f +:+ s = String dquote (quote_body f +:+ String dquote s).
Proof. unfold write_field. rewrite string_app_cons, string_app_assoc. reflexivity. Qed.

(** The body of a quoted field, up to its closing quote, is read back as
    the field. *)
Lemma run_quote_body f rest fld flds :
  run InQuotedField (quote_body f +:+ String dquote rest) fld flds =
  run InDoubleEscapedQuote rest (fld +:+ f) flds.
Proof.
  revert fld. induction f as [|c f IH]; intros fld.
  - rewrite string_app_nil_r. reflexivity.
  - cbn [quote_body]. destruct (is_quote c) eqn:Q; rewrite !string_app_cons, run_cons;
      cbn [trans]; rewrite Q; [rewrite run_cons; cbn [trans]; rewrite Q|];
      rewrite IH, string_app_assoc; reflexivity.
Qed.

(** The fields of a record, up to its new line. *)
Lemma run_write_fields f r rest flds :
  run StartField (write_fields (f :: r) +:+ String nl rest) EmptyString flds =
  (flds ++ f :: r) :: run StartRecord rest EmptyString [].
Proof.
  revert f flds. induction r as [|g r IH]; intros f flds.
  - cbn [write_fields]. rewrite write_field_app, run_cons, trans_StartField_quote.
    rewrite run_quote_body, run_cons, trans_closed_nl. reflexivity.
  - change (write_fields (f :: g :: r)) with (write_field f +:+ String comma (write_fields (g :: r))).
    rewrite string_app_assoc, write_field_app, run_cons, trans_StartField_quote.
    rewrite run_quote_body, string_app_cons, run_cons, trans_closed_comma.
    rewrite IH, <- app_assoc. reflexivity.
Qed.

Lemma records_write_records rs :
  Forall (fun r => r <> []) rs -> records (write_records rs) = rs.
Proof.
  unfold records. induction 1 as [|r rs Hr _ IH]; [reflexivity|].
  destruct r as [|f r]; [contradiction|]. cbn [write_records].
  assert (E : exists t, write_fields (f :: r) +:+ String nl (write_records rs) = String dquote t).
  { destruct r; cbn [write_fields]; rewrite ?string_app_assoc, write_field_app; eauto. }
  destruct E as [t E]. rewrite E, run_StartRecord_start by reflexivity.
  rewrite <- E, run_write_fields, IH. reflexivity.
Qed.

(** *** Rows *)

Lemma utf8_valid_ascii7 c s :
  (nat_of_ascii c < 128)%nat ->
  utf8_valid (string_bytes (String c s)) = utf8_valid (string_bytes s).
Proof.
  intros Hc. change (string_bytes (String c s)) with (byte_of_ascii c :: string_bytes s).
  assert (Hb : byte_val (byte_of_ascii c) = Z.of_nat (nat_of_ascii c)).
  { unfold byte_val, nat_of_ascii. rewrite N_nat_Z.
    rewrite <- (ascii_of_byte_of_ascii c) at 2. rewrite ascii_of_byte_via_N, N_ascii_embedding;
      [reflexivity | pose proof (Byte.to_N_bounded (byte_of_ascii c)); lia]. }
  cbn [utf8_valid]. rewrite Hb. rewrite (proj2 (Z.ltb_lt _ _)) by lia. reflexivity.
Qed.

Lemma to_digit_10_range c d : to_digit 10 c = Some d -> (48 <= nat_of_ascii c <= 57)%nat.
Proof.
  unfold to_digit. intros H. repeat case_match; simplify_eq/=;
    rewrite ?andb_true_iff, ?Z.leb_le, ?Z.ltb_lt in *; lia.
Qed.

Lemma all_dec_utf8 s : all_dec s = true -> field_utf8 s = true.
Proof.
  unfold field_utf8. induction s as [|c s IH]; [reflexivity|]. cbn [all_dec].
  intros [Hc Hs]%andb_true_iff. apply bool_decide_eq_true in Hc as [d Hd].
  apply to_digit_10_range in Hd. rewrite utf8_valid_ascii7 by lia. auto.
Qed.

Lemma print_Z_utf8 n : 0 <= n -> field_utf8 (print_Z n) = true.
Proof.
  intros Hn. apply all_dec_utf8.
  replace (print_Z n) with (print_N (Z.to_N n)) by (destruct n; [reflexivity..|lia]).
  apply print_N_all_dec.
Qed.

Lemma int_value_print bits i n : 0 <= n < 2 ^ bits -> int_value bits i (print_Z n) = Ok n.
Proof. intros Hn. unfold int_value. now rewrite parse_field_print. Qed.

Lemma UtxoDump_wf_parts u :
  UtxoDump.wf u = true ->
  field_utf8 (UtxoDump.txid u) = true /\ 0 <= UtxoDump.vout u < 2 ^ U16_BITS /\
  0 <= UtxoDump.height u < 2 ^ U32_BITS /\ 0 <= UtxoDump.amount u < 2 ^ USIZE_BITS.
Proof.
  unfold UtxoDump.wf, string_wf, field_utf8. intros H. repeat (apply andb_prop in H as [H ?]).
  unfold_fits. auto.
Qed.

Lemma IterateDump_wf_parts it :
  IterateDump.wf it = true ->
  field_utf8 (IterateDump.txid it) = true /\ 0 <= IterateDump.tx_height it < 2 ^ U16_BITS.
Proof.
  unfold IterateDump.wf, string_wf, field_utf8. intros H. repeat (apply andb_prop in H as [H ?]).
  unfold_fits. auto.
Qed.

Lemma deserialize_utxo_record u :
  UtxoDump.wf u = true ->
  rbind (check_record 4 (utxo_record u)) (deserialize_utxo (Some utxo_header)) = Ok u.
Proof.
  intros (Ht & Hv & Hh & Ha)%UtxoDump_wf_parts. unfold check_record, utxo_record.
  cbn [length Nat.eqb bad_utf8]. rewrite Ht, !print_Z_utf8 by lia. cbn [rbind].
  unfold deserialize_utxo. cbn. rewrite !int_value_print by assumption. cbn.
  destruct u; reflexivity.
Qed.

Lemma deserialize_iterate_record it :
  IterateDump.wf it = true ->
  rbind (check_record 2 (iterate_record it)) deserialize_iterate = Ok it.
Proof.
  intros (Ht & Hp)%IterateDump_wf_parts. unfold check_record, iterate_record.
  cbn [length Nat.eqb bad_utf8]. rewrite Ht, print_Z_utf8 by lia. cbn [rbind].
  unfold deserialize_iterate. rewrite int_value_print by assumption. cbn.
  destruct it; reflexivity.
Qed.

Lemma utxo_rows_csv rows :
  Forall (fun u => UtxoDump.wf u = true) rows -> utxo_rows (utxo_csv rows) = map Ok rows.
Proof.
  intros Hw. unfold utxo_rows, utxo_csv.
  rewrite records_write_records.
  2: { constructor; [discriminate|]. clear Hw. induction rows; constructor; [discriminate|auto]. }
  change (forallb field_utf8 utxo_header) with true. cbv zeta iota.
  induction Hw as [|u rows Hu _ IH]; [reflexivity|]. cbn [map].
  change (length utxo_header) with 4%nat. rewrite deserialize_utxo_record by exact Hu.
  f_equal. exact IH.
Qed.

Lemma iterate_rows_csv rows :
  Forall (fun it => IterateDump.wf it = true) rows -> iterate_rows (iterate_csv rows) = map Ok rows.
Proof.
  intros Hw. unfold iterate_rows, iterate_csv.
  rewrite records_write_records.
  2: { clear Hw. induction rows; constructor; [discriminate|auto]. }
  destruct rows as [|it0 rows0]; [reflexivity|].
  change (map iterate_record (it0 :: rows0)) with (iterate_record it0 :: map iterate_record rows0).
  cbv iota. change (length (iterate_record it0)) with 2%nat.
  change (iterate_record it0 :: map iterate_record rows0) with (map iterate_record (it0 :: rows0)).
  revert Hw. generalize (it0 :: rows0) as l. intros l Hw.
  induction Hw as [|it rows Hit _ IH]; [reflexivity|]. cbn [map].
  rewrite deserialize_iterate_record by exact Hit. f_equal. exact IH.
Qed.

(** *** What a successful read guarantees *)

Lemma run_field_length st s fld flds n :
  Forall (fun f => String.length f <= n)%nat flds -> (String.length fld + String.length s <= n)%nat ->
  Forall (Forall (fun f => String.length f <= n)%nat) (run st s fld flds).
Proof.
  revert st fld flds. induction s as [|c s IH]; intros st fld flds Hf Hl.
  - destruct st; repeat constructor; try (apply Forall_app; split; [exact Hf|constructor; [cbn in Hl; lia|constructor]]).
  - rewrite run_cons. destruct (trans st c) as [st' []]; cbn [String.length] in Hl.
    + apply IH; [exact Hf | lia].
    + apply IH; [exact Hf|]. rewrite length_string_app. cbn [String.length]. lia.
    + apply IH; [|cbn; lia]. apply Forall_app. split; [exact Hf|]. constructor; [lia|constructor].
    + constructor; [|apply IH; [constructor|cbn; lia]].
      apply Forall_app. split; [exact Hf|]. constructor; [lia|constructor].
Qed.

Lemma records_field_length s :
  Forall (Forall (fun f => String.length f <= String.length s)%nat) (records s).
Proof. apply run_field_length; [constructor | cbn; lia]. Qed.

Lemma to_digit_nonneg radix c d : to_digit radix c = Some d -> 0 <= d.
Proof.
  unfold to_digit. intros H. repeat case_match; simplify_eq/=;
    rewrite ?andb_true_iff, ?Z.leb_le, ?Z.ltb_lt in *; lia.
Qed.

Lemma digits_range bits radix s acc n :
  0 <= radix -> 0 <= acc < 2 ^ bits -> digits bits radix s acc = Ok n -> 0 <= n < 2 ^ bits.
Proof.
  revert acc. induction s as [|c s IH]; intros acc Hr Ha H; cbn [digits] in H; [congruence|].
  destruct (to_digit radix c) as [d|] eqn:Hd; [|discriminate].
  pose proof (to_digit_nonneg _ _ _ Hd).
  destruct (Z.ltb_spec (acc * radix + d) (2 ^ bits)); [|discriminate].
  apply (IH (acc * radix + d)); [exact Hr | nia | exact H].
Qed.

(** [str::parse] and [from_str_radix] give values of their type. *)
Lemma parse_field_range bits f n : 0 <= bits -> parse_field bits f = Ok n -> 0 <= n < 2 ^ bits.
Proof.
  intros Hb. assert (H0 : 0 <= 0 < 2 ^ bits) by (pose proof (Z.pow_pos_nonneg 2 bits); lia).
  assert (Hr : forall radix s, 0 <= radix -> from_str_radix bits radix s = Ok n -> 0 <= n < 2 ^ bits).
  { intros radix [|c s] Hr H; cbn [from_str_radix] in H; [discriminate|].
    repeat case_match; simplify_eq; eapply digits_range; eauto. }
  unfold parse_field. repeat case_match; eapply Hr; eauto; lia.
Qed.

Lemma int_value_range bits i f n : 0 <= bits -> int_value bits i f = Ok n -> 0 <= n < 2 ^ bits.
Proof. unfold int_value. intros Hb H. case_match; simplify_eq. eapply parse_field_range; eauto. Qed.

Lemma next_field_incl r0 r f r' :
  incl r r0 -> next_field r = Ok (f, r') -> In f r0 /\ incl r' r0.
Proof.
  destruct r as [|g r]; intros Hs H; cbn in H; simplify_eq. split.
  - apply Hs. left. reflexivity.
  - intros x Hx. apply Hs. right. exact Hx.
Qed.

Lemma visit_map_slots r0 hs r i sl sl' :
  incl r r0 -> slots_in r0 sl -> visit_map hs r i sl = Ok sl' -> slots_in r0 sl'.
Proof.
  revert r i sl. induction hs as [|h hs IH]; intros r i sl Hr Hsl H; cbn [visit_map] in H;
    [congruence|].
  destruct Hsl as (Ht & Hv & Hh & Ha).
  destruct (utxo_field_of h); repeat case_match; simplify_eq/=;
    repeat match goal with
    | E : rbind _ _ = Ok _ |- _ => apply rbind_Ok_inv in E as (? & ? & ?)
    | p : (string * list string)%type |- _ => destruct p; cbn in *
    | E : next_field _ = Ok _ |- _ => apply (next_field_incl r0) in E as [? ?]; [|assumption]
    | E : int_value _ _ _ = Ok _ |- _ => apply int_value_range in E; [|unfold U16_BITS, U32_BITS, USIZE_BITS; lia]
    end;
    (eapply IH; [eassumption| |eassumption]);
    refine (conj _ (conj _ (conj _ _))); cbn; intros; simplify_eq; eauto.
Qed.

Lemma finish_utxo_ok r sl u :
  slots_in r sl -> finish_utxo sl = Ok u ->
  In (UtxoDump.txid u) r /\ 0 <= UtxoDump.vout u < 2 ^ U16_BITS /\
  0 <= UtxoDump.height u < 2 ^ U32_BITS /\ 0 <= UtxoDump.amount u < 2 ^ USIZE_BITS.
Proof.
  intros (Ht & Hv & Hh & Ha) H. unfold finish_utxo in H. repeat case_match; simplify_eq/=.
  eauto 10.
Qed.

Lemma int_ranges : 0 <= U16_BITS /\ 0 <= U32_BITS /\ 0 <= USIZE_BITS.
Proof. unfold U16_BITS, U32_BITS, USIZE_BITS. lia. Qed.

(** A record deserialized as a [UtxoDump], by header or by position, has
    its id among the record's fields and its integers in their types. *)
Lemma deserialize_utxo_ok hdr r u :
  deserialize_utxo hdr r = Ok u ->
  In (UtxoDump.txid u) r /\ 0 <= UtxoDump.vout u < 2 ^ U16_BITS /\
  0 <= UtxoDump.height u < 2 ^ U32_BITS /\ 0 <= UtxoDump.amount u < 2 ^ USIZE_BITS.
Proof.
  pose proof int_ranges as (H16 & H32 & H64).
  destruct hdr as [hs|]; cbn [deserialize_utxo]; intros H.
  - apply rbind_Ok_inv in H as (sl & Hv & Hf). apply (finish_utxo_ok r sl); [|exact Hf].
    apply (visit_map_slots r hs r 0 empty_slots); [apply incl_refl | |exact Hv].
    refine (conj _ (conj _ (conj _ _))); cbn; discriminate.
  - unfold visit_seq_utxo in H. repeat case_match; simplify_eq;
      repeat match goal with
      | E : rbind _ _ = Ok _ |- _ => apply rbind_Ok_inv in E as (? & ? & ?)
      | E : int_value _ _ _ = Ok _ |- _ => apply int_value_range in E; [|assumption]
      | E : Ok _ = Ok _ |- _ => injection E as <-
      | E : Err _ = Ok _ |- _ => discriminate E
      end; cbn; try split; auto with datatypes.
Qed.

Lemma deserialize_iterate_ok r it :
  deserialize_iterate r = Ok it ->
  In (IterateDump.txid it) r /\ 0 <= IterateDump.tx_height it < 2 ^ U16_BITS.
Proof.
  pose proof int_ranges as (H16 & _ & _).
  unfold deserialize_iterate. intros H. repeat case_match; simplify_eq.
  apply rbind_Ok_inv in H as (p & Hp & E). injection E as <-.
  apply int_value_range in Hp; [|assumption]. cbn. auto with datatypes.
Qed.

Lemma bad_utf8_none i r : bad_utf8 i r = None -> Forall (fun f => field_utf8 f = true) r.
Proof.
  revert i. induction r as [|f r IH]; intros i H; [constructor|]. cbn in H.
  destruct (field_utf8 f) eqn:E; [|discriminate]. constructor; eauto.
Qed.

Lemma check_record_ok n r r' :
  check_record n r = Ok r' -> r' = r /\ Forall (fun f => field_utf8 f = true) r.
Proof.
  unfold check_record. intros H. repeat case_match; simplify_eq.
  split; [reflexivity|]. eapply bad_utf8_none; eassumption.
Qed.

Lemma length_string_bytes s : length (string_bytes s) = String.length s.
Proof. induction s as [|c s IH]; [reflexivity|]. cbn. f_equal. exact IH. Qed.

(** A field of a text shorter than [2^64] bytes that is valid UTF-8 is a
    Rust [String]. *)
Lemma field_string_wf text f :
  Z.of_nat (String.length text) < 2 ^ 64 -> (String.length f <= String.length text)%nat ->
  field_utf8 f = true -> string_wf f = true.
Proof.
  intros Hl Hf Hu. unfold string_wf. unfold field_utf8 in Hu. rewrite Hu. cbn. unfold_fits.
  all: rewrite length_string_bytes; unfold USIZE_BITS; lia.
Qed.

Lemma to_error_Ok {A} (x : result csv_error A) v :
  match x with Ok u => Ok u | Err e => Err (to_error e) end = Ok v -> x = Ok v.
Proof. destruct x; cbn; congruence. Qed.

Lemma records_field_in text r f :
  In r (records text) -> In f r -> (String.length f <= String.length text)%nat.
Proof.
  intros Hr Hf. pose proof (records_field_length text) as H.
  rewrite Forall_forall in H. specialize (H r). rewrite <- list_elem_of_In in Hr.
  specialize (H Hr). rewrite Forall_forall in H. apply H. apply list_elem_of_In, Hf.
Qed.

(** ** The readers *)

(** C28: the CSV text of the two dumps, as a writer that quotes every
    field writes it (the UTXO dump with its header row), is read by
    [deserialize()] back into the rows it was written from, whatever
    bytes the transaction ids hold. *)
Theorem csv_dumps_roundtrip rows_u rows_i :
  Forall (fun u => UtxoDump.wf u = true) rows_u ->
  Forall (fun it => IterateDump.wf it = true) rows_i ->
  utxo_rows (utxo_csv rows_u) = map Ok rows_u /\
  iterate_rows (iterate_csv rows_i) = map Ok rows_i.
Proof. intros Hu Hi. split; [apply utxo_rows_csv, Hu | apply iterate_rows_csv, Hi]. Qed.

(** C12: every row the readers give as [Ok] is a value of its Rust type:
    its transaction id is a UTF-8 [String] and its integers are within
    [u16], [u32] and [usize], for a file shorter than [2^64] bytes. *)
Theorem csv_rows_well_typed text :
  Z.of_nat (String.length text) < 2 ^ 64 ->
  (forall u, In (Ok u) (utxo_rows text) -> UtxoDump.wf u = true) /\
  (forall it, In (Ok it) (iterate_rows text) -> IterateDump.wf it = true).
Proof.
  intros Hl. unfold utxo_rows, iterate_rows. split.
  - intros u Hin. destruct (records text) as [|h rs] eqn:E; [contradiction|].
    apply in_map_iff in Hin as (r & Hr & Hrs). apply to_error_Ok, rbind_Ok_inv in Hr
      as (r' & Hc & Hd). apply check_record_ok in Hc as [-> Hutf].
    apply deserialize_utxo_ok in Hd as (Ht & Hv & Hh & Ha).
    assert (Hrec : In r (records text)) by (rewrite E; right; exact Hrs).
    rewrite Forall_forall in Hutf. rewrite <- list_elem_of_In in Ht.
    unfold UtxoDump.wf. rewrite (field_string_wf text); [|exact Hl
      | apply (records_field_in text r); [exact Hrec|apply list_elem_of_In, Ht] | apply Hutf, Ht].
    cbn. repeat (apply andb_true_intro; split); unfold_fits; lia.
  - intros it Hin. destruct (records text) as [|h rs] eqn:E; [contradiction|].
    apply in_map_iff in Hin as (r & Hr & Hrs). apply to_error_Ok, rbind_Ok_inv in Hr
      as (r' & Hc & Hd). apply check_record_ok in Hc as [-> Hutf].
    apply deserialize_iterate_ok in Hd as (Ht & Hp).
    assert (Hrec : In r (records text)) by (rewrite E; exact Hrs).
    rewrite Forall_forall in Hutf. rewrite <- list_elem_of_In in Ht.
    unfold IterateDump.wf. rewrite (field_string_wf text); [|exact Hl
      | apply (records_field_in text r); [exact Hrec|apply list_elem_of_In, Ht] | apply Hutf, Ht].
    cbn. unfold_fits; lia.
Qed.

(** *** The header of the UTXO dump *)

Lemma header_count_cons k h hs :
  header_count k (h :: hs) = ((if bool_decide (utxo_field_of h = k) then 1 else 0) + header_count k hs)%nat.
Proof. unfold header_count. cbn. case_bool_decide; reflexivity. Qed.

(** [visit_map] accepts a known field once: set before or named twice,
    it is a duplicate; named once, its slot is set at the end. *)
Lemma visit_map_count hs r i sl sl' k :
  visit_map hs r i sl = Ok sl' -> k <> F_ignore ->
  (Nat.b2n (slot_of k sl) + header_count k hs <= 1)%nat /\
  slot_of k sl' = slot_of k sl || (0 <? header_count k hs)%nat.
Proof.
  intros H Hk. revert r i sl H. induction hs as [|h hs IH]; intros r i sl H.
  - cbn in H. simplify_eq. unfold header_count. cbn. rewrite orb_false_r.
    split; [destruct (slot_of k sl'); cbn; lia | reflexivity].
  - rewrite header_count_cons. cbn [visit_map] in H.
    destruct (utxo_field_of h) eqn:Eh;
      repeat match goal with
      | E : (if ?b then Err _ else _) = Ok _ |- _ => destruct b eqn:?; [discriminate|]
      | E : rbind _ _ = Ok _ |- _ => apply rbind_Ok_inv in E as (? & ? & ?)
      | p : (string * list string)%type |- _ => destruct p; cbn in *
      end;
      match goal with E : visit_map hs _ _ _ = Ok sl' |- _ => apply IH in E as [Hc Hs] end;
      rewrite Hs; destruct k; try congruence; cbn in *; simplify_eq;
      repeat match goal with E : is_set _ = _ |- _ => rewrite E in * end; cbn in *;
      repeat case_bool_decide; simplify_eq; cbn in *;
      destruct (header_count _ hs); cbn in *; try lia; rewrite ?orb_false_r; auto.
Qed.

Lemma finish_utxo_slots sl u k : finish_utxo sl = Ok u -> k <> F_ignore -> slot_of k sl = true.
Proof. unfold finish_utxo. intros H Hk. destruct sl as [[] [] [] []]; cbn in H; try discriminate; destruct k; cbn; congruence. Qed.

(** C34: the UTXO dump is read by header name, so a header that leaves out
    one of [txid], [vout], [height], [amount] or names one twice makes
    every row an error: a row is read only when its UTF-8 header names
    each of the four fields exactly once (other columns are ignored). *)
Theorem utxo_rows_header text hs rs u k :
  records text = hs :: rs -> forallb field_utf8 hs = true ->
  In (Ok u) (utxo_rows text) -> k <> F_ignore -> header_count k hs = 1%nat.
Proof.
  intros E Hh Hin Hk. unfold utxo_rows in Hin. rewrite E, Hh in Hin.
  apply in_map_iff in Hin as (r & Hr & _). apply to_error_Ok, rbind_Ok_inv in Hr as (r' & _ & Hd).
  cbn [deserialize_utxo] in Hd. apply rbind_Ok_inv in Hd as (sl & Hv & Hf).
  destruct (visit_map_count _ _ _ _ _ k Hv Hk) as [Hc Hs].
  rewrite (finish_utxo_slots _ _ _ Hf Hk) in Hs.
  destruct (Nat.ltb_spec 0 (header_count k hs)); [|rewrite orb_false_r in Hs];
    destruct k; try congruence; cbn in Hc, Hs; lia.
Qed.

(** *** Text without quotes *)

Lemma str_forall_app p s t : str_forall p (s +:+ t) = str_forall p s && str_forall p t.
Proof. induction s as [|c s IH]; [reflexivity|]. rewrite string_app_cons. cbn [str_forall]. rewrite IH. apply andb_assoc. Qed.

Lemma split_on_ne p s : split_on p s <> [].
Proof.
  destruct s as [|c s]; cbn; [discriminate|].
  destruct (p c); [discriminate|]. destruct (split_on p s); discriminate.
Qed.

Lemma split_on_hd_tl p s : split_on p s = hd EmptyString (split_on p s) :: tl (split_on p s).
Proof. pose proof (split_on_ne p s). destruct (split_on p s); [contradiction|reflexivity]. Qed.

Lemma split_on_nonsep p c s :
  p c = false ->
  split_on p (String c s) = String c (hd EmptyString (split_on p s)) :: tl (split_on p s).
Proof. intros H. cbn. rewrite H, split_on_hd_tl. reflexivity. Qed.

Lemma split_on_app_free p fld x :
  str_forall (fun c => negb (p c)) fld = true ->
  split_on p (fld +:+ x) = (fld +:+ hd EmptyString (split_on p x)) :: tl (split_on p x).
Proof.
  induction fld as [|c fld IH]; intros H.
  - rewrite !string_app_nil_l. apply split_on_hd_tl.
  - cbn [str_forall] in H. apply andb_true_iff in H as [Hc H]. apply negb_true_iff in Hc.
    rewrite string_app_cons, split_on_nonsep, IH by assumption. reflexivity.
Qed.

Lemma run_StartField_InField s fld flds :
  str_forall (fun c => negb (is_quote c)) s = true ->
  run StartField s fld flds = run InField s fld flds.
Proof.
  destruct s as [|c s]; [reflexivity|]. cbn [str_forall]. intros [Hc _]%andb_true_iff.
  apply negb_true_iff in Hc. rewrite !run_cons. cbn [trans]. unfold start_field. now rewrite Hc.
Qed.

(** The automaton in a field without quotes: the rest of the line is
    split at the delimiters, after the field read so far. *)
Lemma run_unquoted s :
  str_forall (fun c => negb (is_quote c)) s = true ->
  (forall fld flds, str_forall (fun c => negb (is_delim c)) fld = true ->
     run InField s fld flds =
     (flds ++ split_on is_delim (fld +:+ hd EmptyString (split_on is_term s)))
       :: lines_records (tl (split_on is_term s))) /\
  run StartRecord s EmptyString [] = records_ref s.
Proof.
  induction s as [|c s IH]; intros Hq.
  - split; [|reflexivity]. intros fld flds Hf. cbn [split_on hd tl].
    rewrite (split_on_app_free _ fld EmptyString Hf), string_app_nil_r. reflexivity.
  - cbn [str_forall] in Hq. apply andb_true_iff in Hq as [Hc Hq]. apply negb_true_iff in Hc.
    destruct (IH Hq) as [IHf IHr].
    assert (HA : forall fld flds, str_forall (fun c => negb (is_delim c)) fld = true ->
      run InField (String c s) fld flds =
      (flds ++ split_on is_delim (fld +:+ hd EmptyString (split_on is_term (String c s))))
        :: lines_records (tl (split_on is_term (String c s)))).
    { intros fld flds Hf. rewrite run_cons. cbn [trans].
      destruct (is_delim c) eqn:Hd.
      - assert (Ht : is_term c = false)
          by (unfold is_delim in Hd; apply Nat.eqb_eq in Hd; unfold is_term; rewrite Hd; reflexivity).
        rewrite split_on_nonsep by exact Ht. cbn [hd tl].
        rewrite run_StartField_InField, IHf by (reflexivity || exact Hq).
        rewrite string_app_nil_l, <- app_assoc.
        rewrite (split_on_app_free _ fld (String c _)) by exact Hf. cbn [split_on]. rewrite Hd.
        cbn [hd tl]. rewrite string_app_nil_r. reflexivity.
      - destruct (is_term c) eqn:Ht.
        + cbn [split_on]. rewrite Ht. cbn [hd tl]. rewrite IHr.
          rewrite (split_on_app_free _ fld EmptyString Hf). cbn [hd tl split_on].
          rewrite !string_app_nil_r. reflexivity.
        + rewrite IHf.
          2: { rewrite str_forall_app, Hf. cbn. now rewrite Hd. }
          rewrite split_on_nonsep by exact Ht. cbn [hd tl].
          rewrite string_app_assoc. reflexivity. }
    split; [exact HA|].
    rewrite run_cons. cbn [trans]. destruct (is_term c) eqn:Ht.
    + rewrite IHr. unfold records_ref. cbn [split_on]. rewrite Ht. reflexivity.
    + change (run StartField (String c s) EmptyString [] = records_ref (String c s)).
      rewrite run_StartField_InField by (cbn; rewrite Hc; exact Hq).
      rewrite HA by reflexivity. unfold records_ref. rewrite split_on_nonsep by exact Ht.
      cbn [hd tl]. unfold lines_records at 2. cbn [filter map String.eqb negb]. reflexivity.
Qed.

(** C7: on a text without a quote byte, the automaton of csv-core is
    plain splitting: the records are the lines (cut at [\r] or [\n],
    blank lines left out), each cut at [,]. *)
Theorem records_unquoted s :
  str_forall (fun c => negb (is_quote c)) s = true -> records s = records_ref s.
Proof. intros H. exact (proj2 (run_unquoted s H)). Qed.

(** The integer columns as the [csv] deserializer reads them: base 16
    after [0x], a leading [+] accepted, and the widths checked. *)
Example parse_field_forms :
  parse_field U16_BITS "0x10" = Ok 16 /\ parse_field U16_BITS "+16" = Ok 16 /\
  parse_field U16_BITS "65536" = Err PosOverflow /\ parse_field U16_BITS "-1" = Err InvalidDigit /\
  parse_field U16_BITS " 1" = Err InvalidDigit /\ parse_field U16_BITS "" = Err Empty.
Proof. vm_compute. repeat split. Qed.

(** ** Witnesses *)

Definition csv_fixture_utxo : UtxoDump.t := UtxoDump.mk "abc" 2 100 5000.
Definition csv_fixture_row : IterateDump.t := IterateDump.mk "abc" 7.
Definition csv_fixture_text : string :=
  "txid,vout,height,amount" +:+ String nl ("abc,2,100,5000" +:+ String nl EmptyString).

Lemma csv_dumps_roundtrip_witness :
  Forall (fun u => UtxoDump.wf u = true) [csv_fixture_utxo] /\
  Forall (fun it => IterateDump.wf it = true) [csv_fixture_row] /\
  utxo_rows (utxo_csv [csv_fixture_utxo]) = map Ok [csv_fixture_utxo] /\
  iterate_rows (iterate_csv [csv_fixture_row]) = map Ok [csv_fixture_row].
Proof.
  assert (Hu : Forall (fun u => UtxoDump.wf u = true) [csv_fixture_utxo]) by (repeat constructor).
  assert (Hi : Forall (fun it => IterateDump.wf it = true) [csv_fixture_row]) by (repeat constructor).
  split; [exact Hu|]. split; [exact Hi|]. exact (csv_dumps_roundtrip _ _ Hu Hi).
Defined.

Lemma csv_rows_well_typed_witness :
  Z.of_nat (String.length csv_fixture_text) < 2 ^ 64 /\
  (forall u, In (Ok u) (utxo_rows csv_fixture_text) -> UtxoDump.wf u = true).
Proof.
  assert (H : Z.of_nat (String.length csv_fixture_text) < 2 ^ 64) by (vm_compute; reflexivity).
  split; [exact H|]. exact (proj1 (csv_rows_well_typed _ H)).
Defined.

Lemma utxo_rows_header_witness :
  records csv_fixture_text = utxo_header :: [["abc"; "2"; "100"; "5000"]] /\
  forallb field_utf8 utxo_header = true /\
  In (Ok csv_fixture_utxo) (utxo_rows csv_fixture_text) /\ F_vout <> F_ignore /\
  header_count F_vout utxo_header = 1%nat.
Proof.
  assert (E : records csv_fixture_text = utxo_header :: [["abc"; "2"; "100"; "5000"]])
    by (vm_compute; reflexivity).
  assert (Hh : forallb field_utf8 utxo_header = true) by (vm_compute; reflexivity).
  assert (Hin : In (Ok csv_fixture_utxo) (utxo_rows csv_fixture_text)) by (vm_compute; left; reflexivity).
  assert (Hk : F_vout <> F_ignore) by discriminate.
  split; [exact E|]. split; [exact Hh|]. split; [exact Hin|]. split; [exact Hk|].
  exact (utxo_rows_header _ _ _ _ _ E Hh Hin Hk).
Defined.

Lemma records_unquoted_witness :
  str_forall (fun c => negb (is_quote c)) csv_fixture_text = true /\
  records csv_fixture_text = records_ref csv_fixture_text.
Proof.
  assert (H : str_forall (fun c => negb (is_quote c)) csv_fixture_text = true) by (vm_compute; reflexivity).
  split; [exact H|]. exact (records_unquoted _ H).
Defined.
