(* ===== verification/Artifact.v ===== *)
(** * Artifact: the files of a run, read back

    [main] in [bin] mode (main.rs 135-139) writes [p2wsh-utxo.bin] with
    [bincode::serialize_into] of the records of the run; the library's
    [UTXOResults::new] (lib.rs 53-58) decodes such a file.  In [json] mode
    (main.rs 111-122, 130-134) it writes [part-<n>.json] files with
    [serde_json::to_writer_pretty].  This file composes the run of
    Pipeline.v (through [main_run] and [main_json_run] of PipelineProofs)
    with the codecs of Bincode.v, Json.v and JsonText.v: the binary file is
    the bincode encoding of the join of the two dumps, which decodes back
    in [full] mode, does not decode in minimized mode, and is never the
    vector [UTXOResults::new] returns; the text of the JSON parts, read and
    decoded in order, is the join. *)

From S2P Require Import Prelude Types Index Pipeline PipelineProofs Bincode Json JsonText.
From Stdlib Require Import Strings.Byte Ascii.

Open Scope Z_scope.

(** The bytes of an artifact written by [bincode::serialize_into]. *)
Definition bin_bytes (a : artifact) : option (list byte) :=
  match a with
  | BinFile l => Some (serialize_results l)
  | JsonFile _ => None
  end.

(** Lines of text, with a new line between two lines and none at the end,
    and a name between quotes; they write the expected text of a file. *)
Definition text_lines (ls : list string) : string := String.concat (String (ascii_of_nat 10) EmptyString) ls.
Definition quoted (s : string) : string :=
  String (ascii_of_nat 34) (s +:+ String (ascii_of_nat 34) EmptyString).

(** A reader of the JSON output: parts [p, p+1, ...], [k] of them, the
    text of each read as JSON and decoded as a [Vec<UTXO>], their records
    concatenated. *)
Fixpoint read_json_parts (fs : gmap string artifact) (loc : string) (p : Z) (k : nat)
    : option (list UTXO) :=
  match k with
  | O => Some []
  | S k =>
      match (fs !! part_path loc p ≫= json_text) ≫= parse_json with
      | Some v =>
          match from_json_results v, read_json_parts fs loc (p + 1) k with
          | Ok l, Some rest => Some (l ++ rest)
          | _, _ => None
          end
      | None => None
      end
  end.

(** ** Lemmas *)

Lemma read_json_write_parts fs loc p bs :
  Forall (Forall (fun u => UTXO_wf u = true)) bs ->
  read_json_parts (write_parts fs loc p bs) loc p (length bs) = Some (concat bs).
Proof.
  intros Hbs. revert fs p. induction Hbs as [|b bs Hb _ IH]; intros fs p; [reflexivity|].
  cbn [write_parts length read_json_parts concat].
  rewrite lookup_write_parts_ne.
  - rewrite lookup_insert_eq. cbn [mbind option_bind json_text].
    rewrite parse_json_pretty. simpl. rewrite from_to_json_list by exact Hb. rewrite IH. reflexivity.
  - intros q Hq Heq. apply part_path_inj in Heq. lia.
Qed.


Lemma make_result_full it u :
  IterateDump.wf it = true -> UtxoDump.wf u = true -> full_record (make_result "full" it u).
Proof.
  intros Hit Hu. split; [apply make_result_wf; assumption|].
  unfold make_result. simpl. split; eexists; reflexivity.
Qed.

Lemma make_result_minimized mt it u :
  mt <> "full" -> id (make_result mt it u) = None /\ amount (make_result mt it u) = None.
Proof. intros Hmt. unfold make_result. destruct (decide _); [contradiction | split; reflexivity]. Qed.

Section Main.
Context (overflow_checks : bool) (can_create : string -> bool).
Context (read_utxo_dump : string -> result error (list (result error UtxoDump.t))).
Context (read_bitcoin_iterate : string -> result error (list (result error IterateDump.t))).

(** A run in [bin] mode writes the join to [p2wsh-utxo.bin]. *)
Lemma main_bin_run prog pu pi mt loc extra rows_u rows_i st0 :
  read_utxo_dump pu = Ok (map Ok rows_u) ->
  read_bitcoin_iterate pi = Ok (map Ok rows_i) ->
  can_create (bin_path loc) = true ->
  Z.of_nat (length rows_i) <= i32_MAX ->
  Z.of_nat (length (join_spec mt rows_u rows_i)) <= i32_MAX ->
  exists st,
    main overflow_checks can_create read_utxo_dump read_bitcoin_iterate
      (prog :: pu :: pi :: "bin" :: mt :: loc :: extra) st0 = (st, Ok tt) /\
    fs st !! bin_path loc = Some (BinFile (join_spec mt rows_u rows_i)).
Proof.
  intros Hu Hi Hc Hn Hmax.
  destruct (main_run overflow_checks can_create read_utxo_dump read_bitcoin_iterate
              prog pu pi "bin" mt loc extra rows_u rows_i st0 Hu Hi)
    as (st & Hrun & Hw & _); auto.
  - split; [discriminate | intros _; exact Hc].
  - exists st. split; [exact Hrun|]. unfold outputs_written in Hw. simpl in Hw.
    rewrite Hw. apply lookup_insert_eq.
Qed.

(** ** Theorems *)

(** C24: end to end, a [full]-mode run in [bin] mode on well-formed dumps
    writes [p2wsh-utxo.bin], and the bytes of that file decode with the
    derived bincode deserializer to exactly the join of the two dumps,
    every record with its id and amount, no byte left over. *)
Theorem main_bin_full_roundtrip prog pu pi loc extra rows_u rows_i st0 :
  read_utxo_dump pu = Ok (map Ok rows_u) ->
  read_bitcoin_iterate pi = Ok (map Ok rows_i) ->
  Forall (fun u => UtxoDump.wf u = true) rows_u ->
  Forall (fun it => IterateDump.wf it = true) rows_i ->
  can_create (bin_path loc) = true ->
  Z.of_nat (length rows_i) <= i32_MAX ->
  Z.of_nat (length (join_spec "full" rows_u rows_i)) <= i32_MAX ->
  exists st bytes,
    main overflow_checks can_create read_utxo_dump read_bitcoin_iterate
      (prog :: pu :: pi :: "bin" :: "full" :: loc :: extra) st0 = (st, Ok tt) /\
    fs st !! bin_path loc ≫= bin_bytes = Some bytes /\
    read_vec deserialize_UTXO bytes = Ok (join_spec "full" rows_u rows_i, []).
Proof.
  intros Hu Hi Hwu Hwi Hc Hn Hmax.
  destruct (main_bin_run prog pu pi "full" loc extra rows_u rows_i st0 Hu Hi Hc Hn Hmax)
    as (st & Hrun & Hf).
  exists st, (serialize_results (join_spec "full" rows_u rows_i)).
  rewrite Hf. split; [exact Hrun|]. split; [reflexivity|].
  pose proof (decode_encode (A := list UTXO) (join_spec "full" rows_u rows_i) []) as H.
  rewrite app_nil_r in H. apply H. split; [|unfold i32_MAX in *; zlia].
  apply Forall_join_spec_in. intros it u Hit Hu'.
  apply make_result_full; [exact (proj1 (Forall_forall _ _) Hwi it Hit)
                          | exact (proj1 (Forall_forall _ _) Hwu u Hu')].
Qed.

(** C25: end to end, a minimized run in [bin] mode that matches any
    record writes a [p2wsh-utxo.bin] that does not decode: bincode reports
    an error on the file's bytes. *)
Theorem main_bin_minimized_unreadable prog pu pi mt loc extra rows_u rows_i st0 :
  mt <> "full" ->
  read_utxo_dump pu = Ok (map Ok rows_u) ->
  read_bitcoin_iterate pi = Ok (map Ok rows_i) ->
  can_create (bin_path loc) = true ->
  Z.of_nat (length rows_i) <= i32_MAX ->
  Z.of_nat (length (join_spec mt rows_u rows_i)) <= i32_MAX ->
  join_spec mt rows_u rows_i <> [] ->
  exists st bytes e,
    main overflow_checks can_create read_utxo_dump read_bitcoin_iterate
      (prog :: pu :: pi :: "bin" :: mt :: loc :: extra) st0 = (st, Ok tt) /\
    fs st !! bin_path loc ≫= bin_bytes = Some bytes /\
    read_vec deserialize_UTXO bytes = Err e.
Proof.
  intros Hmt Hu Hi Hc Hn Hmax Hne.
  destruct (main_bin_run prog pu pi mt loc extra rows_u rows_i st0 Hu Hi Hc Hn Hmax)
    as (st & Hrun & Hf).
  destruct (read_vec_serialize_minimized (join_spec mt rows_u rows_i)) as [e He].
  - exact Hne.
  - apply Forall_join_spec. intros it u. apply make_result_minimized, Hmt.
  - unfold i32_MAX in *. zlia.
  - exists st, (serialize_results (join_spec mt rows_u rows_i)), e.
    rewrite Hf. auto.
Qed.

(** End to end, whatever the minimization mode, the library cannot
    load the file a [bin] run writes: [UTXOResults::new] on its bytes
    never returns the records the run wrote. *)
Theorem main_bin_not_loadable prog pu pi mt loc extra rows_u rows_i st0 :
  read_utxo_dump pu = Ok (map Ok rows_u) ->
  read_bitcoin_iterate pi = Ok (map Ok rows_i) ->
  can_create (bin_path loc) = true ->
  Z.of_nat (length rows_i) <= i32_MAX ->
  Z.of_nat (length (join_spec mt rows_u rows_i)) <= i32_MAX ->
  exists st bytes,
    main overflow_checks can_create read_utxo_dump read_bitcoin_iterate
      (prog :: pu :: pi :: "bin" :: mt :: loc :: extra) st0 = (st, Ok tt) /\
    fs st !! bin_path loc ≫= bin_bytes = Some bytes /\
    UTXOResults_new bytes <> Some (mkUTXOResults (join_spec mt rows_u rows_i)).
Proof.
  intros Hu Hi Hc Hn Hmax.
  destruct (main_bin_run prog pu pi mt loc extra rows_u rows_i st0 Hu Hi Hc Hn Hmax)
    as (st & Hrun & Hf).
  exists st, (serialize_results (join_spec mt rows_u rows_i)). rewrite Hf.
  split; [exact Hrun|]. split; [reflexivity|].
  apply UTXOResults_new_serialize_results. unfold i32_MAX in *. zlia.
Qed.

(** A JSON run on well-formed dumps: the text of its parts, read in order,
    gives the join. *)
Lemma main_json_read_parts prog pu pi mt loc extra rows_u rows_i st0 :
  read_utxo_dump pu = Ok (map Ok rows_u) ->
  read_bitcoin_iterate pi = Ok (map Ok rows_i) ->
  Forall (fun u => UtxoDump.wf u = true) rows_u ->
  Forall (fun it => IterateDump.wf it = true) rows_i ->
  (forall p, can_create (part_path loc p) = true) ->
  Z.of_nat (length rows_i) <= i32_MAX ->
  Z.of_nat (length (join_spec mt rows_u rows_i)) <= i32_MAX ->
  exists st,
    main overflow_checks can_create read_utxo_dump read_bitcoin_iterate
      (prog :: pu :: pi :: "json" :: mt :: loc :: extra) st0 = (st, Ok tt) /\
    read_json_parts (fs st) loc 1
      (Z.to_nat (Z.of_nat (length (join_spec mt rows_u rows_i)) / BATCH) + 1)
    = Some (join_spec mt rows_u rows_i).
Proof.
  intros Hu Hi Hwu Hwi Hc Hn Hmax.
  destruct (main_json_run overflow_checks can_create read_utxo_dump read_bitcoin_iterate
              prog pu pi mt loc extra rows_u rows_i st0 Hu Hi Hc Hn Hmax)
    as (st & fl & last & Hrun & Hfs & Hcat & Hfl & _ & _).
  exists st. split; [exact Hrun|]. rewrite Hfs, <- Hfl, Nat2Z.id.
  replace (length fl + 1)%nat with (length (fl ++ [last])) by (rewrite length_app; reflexivity).
  rewrite read_json_write_parts, Hcat; [reflexivity|].
  apply Forall_concat. rewrite Hcat. apply Forall_join_spec_wf; assumption.
Qed.

(** C26: end to end, a JSON run on well-formed dumps writes parts whose
    text, read with the JSON grammar in part order ([part-1] to
    [part-(n/10000+1)]) and decoded with the derived [Deserialize], gives
    exactly the join of the two dumps. *)
Theorem main_json_readback prog pu pi mt loc extra rows_u rows_i st0 :
  read_utxo_dump pu = Ok (map Ok rows_u) ->
  read_bitcoin_iterate pi = Ok (map Ok rows_i) ->
  Forall (fun u => UtxoDump.wf u = true) rows_u ->
  Forall (fun it => IterateDump.wf it = true) rows_i ->
  (forall p, can_create (part_path loc p) = true) ->
  Z.of_nat (length rows_i) <= i32_MAX ->
  Z.of_nat (length (join_spec mt rows_u rows_i)) <= i32_MAX ->
  exists st,
    main overflow_checks can_create read_utxo_dump read_bitcoin_iterate
      (prog :: pu :: pi :: "json" :: mt :: loc :: extra) st0 = (st, Ok tt) /\
    read_json_parts (fs st) loc 1
      (Z.to_nat (Z.of_nat (length (join_spec mt rows_u rows_i)) / BATCH) + 1)
    = Some (join_spec mt rows_u rows_i).
Proof. apply main_json_read_parts. Qed.
End Main.

(** ** Witnesses *)

Lemma main_bin_full_roundtrip_witness :
  read_fixture_utxos 1 "utxo.csv" = Ok (map Ok (fixture_utxos 1)) /\
  read_fixture_rows "iterate.csv" = Ok (map Ok fixture_rows) /\
  Forall (fun u => UtxoDump.wf u = true) (fixture_utxos 1) /\
  Forall (fun it => IterateDump.wf it = true) fixture_rows /\
  (fun _ : string => true) (bin_path "out") = true /\
  Z.of_nat (length fixture_rows) <= i32_MAX /\
  Z.of_nat (length (join_spec "full" (fixture_utxos 1) fixture_rows)) <= i32_MAX /\
  exists st bytes,
    main true (fun _ => true) (read_fixture_utxos 1) read_fixture_rows
      (fixture_args "bin" "full") fixture_state = (st, Ok tt) /\
    fs st !! bin_path "out" ≫= bin_bytes = Some bytes /\
    read_vec deserialize_UTXO bytes = Ok (join_spec "full" (fixture_utxos 1) fixture_rows, []).
Proof.
  split; [reflexivity|]. split; [reflexivity|].
  split; [simpl; repeat constructor|]. split; [simpl; repeat constructor|].
  split; [reflexivity|]. split; [vm_compute; congruence|]. split; [vm_compute; congruence|].
  apply (main_bin_full_roundtrip true (fun _ => true) (read_fixture_utxos 1) read_fixture_rows _ _ _ _ _ (fixture_utxos 1) fixture_rows); [reflexivity | reflexivity | simpl; repeat constructor
    | simpl; repeat constructor | reflexivity | vm_compute; congruence | vm_compute; congruence].
Defined.

Lemma main_bin_minimized_unreadable_witness :
  "minimized" <> "full" /\
  read_fixture_utxos 1 "utxo.csv" = Ok (map Ok (fixture_utxos 1)) /\
  read_fixture_rows "iterate.csv" = Ok (map Ok fixture_rows) /\
  (fun _ : string => true) (bin_path "out") = true /\
  Z.of_nat (length fixture_rows) <= i32_MAX /\
  Z.of_nat (length (join_spec "minimized" (fixture_utxos 1) fixture_rows)) <= i32_MAX /\
  join_spec "minimized" (fixture_utxos 1) fixture_rows <> [] /\
  exists st bytes e,
    main true (fun _ => true) (read_fixture_utxos 1) read_fixture_rows
      (fixture_args "bin" "minimized") fixture_state = (st, Ok tt) /\
    fs st !! bin_path "out" ≫= bin_bytes = Some bytes /\
    read_vec deserialize_UTXO bytes = Err e.
Proof.
  split; [discriminate|]. split; [reflexivity|]. split; [reflexivity|]. split; [reflexivity|].
  split; [vm_compute; congruence|]. split; [vm_compute; congruence|].
  split; [vm_compute; discriminate|].
  apply (main_bin_minimized_unreadable true (fun _ => true) (read_fixture_utxos 1) read_fixture_rows _ _ _ "minimized" _ _ (fixture_utxos 1) fixture_rows); [discriminate | reflexivity | reflexivity | reflexivity
    | vm_compute; congruence | vm_compute; congruence | vm_compute; discriminate].
Defined.

Lemma main_bin_not_loadable_witness :
  read_fixture_utxos 1 "utxo.csv" = Ok (map Ok (fixture_utxos 1)) /\
  read_fixture_rows "iterate.csv" = Ok (map Ok fixture_rows) /\
  (fun _ : string => true) (bin_path "out") = true /\
  Z.of_nat (length fixture_rows) <= i32_MAX /\
  Z.of_nat (length (join_spec "full" (fixture_utxos 1) fixture_rows)) <= i32_MAX /\
  exists st bytes,
    main true (fun _ => true) (read_fixture_utxos 1) read_fixture_rows
      (fixture_args "bin" "full") fixture_state = (st, Ok tt) /\
    fs st !! bin_path "out" ≫= bin_bytes = Some bytes /\
    UTXOResults_new bytes <> Some (mkUTXOResults (join_spec "full" (fixture_utxos 1) fixture_rows)).
Proof.
  split; [reflexivity|]. split; [reflexivity|]. split; [reflexivity|].
  split; [vm_compute; congruence|]. split; [vm_compute; congruence|].
  apply (main_bin_not_loadable true (fun _ => true) (read_fixture_utxos 1) read_fixture_rows _ _ _ "full" _ _ (fixture_utxos 1) fixture_rows); [reflexivity | reflexivity | reflexivity
    | vm_compute; congruence | vm_compute; congruence].
Defined.

Lemma main_json_readback_witness :
  read_fixture_utxos 1 "utxo.csv" = Ok (map Ok (fixture_utxos 1)) /\
  read_fixture_rows "iterate.csv" = Ok (map Ok fixture_rows) /\
  Forall (fun u => UtxoDump.wf u = true) (fixture_utxos 1) /\
  Forall (fun it => IterateDump.wf it = true) fixture_rows /\
  (forall p, (fun _ : string => true) (part_path "out" p) = true) /\
  Z.of_nat (length fixture_rows) <= i32_MAX /\
  Z.of_nat (length (join_spec "full" (fixture_utxos 1) fixture_rows)) <= i32_MAX /\
  exists st,
    main true (fun _ => true) (read_fixture_utxos 1) read_fixture_rows
      (fixture_args "json" "full") fixture_state = (st, Ok tt) /\
    read_json_parts (fs st) "out" 1
      (Z.to_nat (Z.of_nat (length (join_spec "full" (fixture_utxos 1) fixture_rows)) / BATCH) + 1)
    = Some (join_spec "full" (fixture_utxos 1) fixture_rows).
Proof.
  split; [reflexivity|]. split; [reflexivity|].
  split; [simpl; repeat constructor|]. split; [simpl; repeat constructor|].
  split; [intros; reflexivity|]. split; [vm_compute; congruence|]. split; [vm_compute; congruence|].
  apply (main_json_readback true (fun _ => true) (read_fixture_utxos 1) read_fixture_rows
           _ _ _ _ _ _ (fixture_utxos 1) fixture_rows);
    [reflexivity | reflexivity | simpl; repeat constructor | simpl; repeat constructor
    | intros; reflexivity | vm_compute; congruence | vm_compute; congruence].
Defined.
