(* ===== verification/Output.v ===== *)
(** * Output: the bytes that reach the disk through [BufWriter<File>]

    main.rs writes every artifact the same way (lines 114-118, 132-134,
    137-139): [File::create(path).unwrap()], wrapped in [BufWriter::new],
    handed by value to [serde_json::to_writer_pretty] or
    [bincode::serialize_into], whose result is unwrapped.  Neither
    serializer flushes the writer: it is dropped when the call returns, and
    [BufWriter]'s [Drop] flushes and discards the result.

    - [Disk]: a directory of files ([files], path to bytes) on a device
      with [free] bytes left; [File::create] truncates, and [File::write]
      writes as much as fits or fails with [StorageFull] when nothing does
      (write(2) and ENOSPC).  [write_loop] is std's retry loop (the body of
      [BufWriter::flush_buf] and of [Write::write_all]); [disk_append] is
      its reference, an unbuffered append that keeps the first [free]
      bytes.
    - [BufWriter]: std's buffered writer with [DEFAULT_BUF_SIZE] = 8192,
      its state ([wbuf], the disk), [flush_buf], [write_all] with its fast
      path and its cold path, and [drop].
    - [Emit]: the serializers as a sequence of [write_all] calls whose
      concatenation is the text (any fragmentation), the write of one
      artifact, and the writes of [main] in order.

    The theorems: [write_loop] ends within [length data] rounds and is
    [disk_append]; a buffered write refines the unbuffered one (the disk
    once flushed); the buffer never exceeds its capacity; hence the file
    always holds the first [free] bytes of the text, the call succeeds when
    the text fits, also whenever the text is shorter than 8192 bytes, and
    fails when more than [free + 8192] bytes are written. *)

From S2P Require Import Prelude Types Pipeline PipelineProofs Json JsonText Bincode.
From Stdlib Require Import Strings.Byte Ascii.

Open Scope nat_scope.

Module Disk.

(** The error kinds a write to a file returns here. *)
Inductive io_error := StorageFull | WriteZero.

(** The output directory and the space left on its device. *)
Record disk := mkDisk {
  files : gmap string (list byte);
  free : nat
}.

Definition content (p : string) (d : disk) : list byte := default [] (files d !! p).

(** [File::create]: the file is created empty or truncated, and the bytes
    it held are free again. *)
Definition file_create (p : string) (d : disk) : disk :=
  mkDisk (<[p := []]> (files d)) (free d + length (content p d)).

(** [<File as Write>::write]: write(2) writes as much as the device holds
    and reports the count; with no space left a nonempty write fails. *)
Definition file_write (p : string) (data : list byte) (d : disk)
    : result io_error (nat * disk) :=
  match data, free d with
  | [], _ => Ok (0%nat, d)
  | _ :: _, O => Err StorageFull
  | _ :: _, S _ =>
      let n := Nat.min (free d) (length data) in
      Ok (n, mkDisk (<[p := content p d ++ take n data]> (files d)) (free d - n))
  end.

(** std's loop [while !buf.is_empty() { match self.write(buf) ... }]:
    [Ok(0)] is [WriteZero], [Ok(n)] drops [n] bytes, an error stops it.
    It returns the disk, the bytes not written and the result.  Every
    round writes a byte or stops, so [length data] rounds are enough
    ([write_loop_spec]). *)
Fixpoint write_loop (fuel : nat) (p : string) (data : list byte) (d : disk)
    : disk * list byte * result io_error unit :=
  match data with
  | [] => (d, [], Ok tt)
  | _ :: _ =>
      match fuel with
      | O => (d, data, Err WriteZero)
      | S fuel' =>
          match file_write p data d with
          | Err e => (d, data, Err e)
          | Ok (O, d') => (d', data, Err WriteZero)
          | Ok (n, d') => write_loop fuel' p (drop n data) d'
          end
      end
  end.

(** The reference: an append that keeps the first [free d] bytes. *)
Definition disk_append (p : string) (data : list byte) (d : disk) : disk :=
  mkDisk (<[p := content p d ++ take (free d) data]> (files d))
         (free d - Nat.min (free d) (length data)).

(** ** The reference append *)

Lemma content_disk_append p data d :
  content p (disk_append p data d) = content p d ++ take (free d) data.
Proof. unfold content, disk_append. cbn. rewrite lookup_insert_eq. reflexivity. Qed.

Lemma lookup_disk_append p data d :
  files (disk_append p data d) !! p = Some (content p d ++ take (free d) data).
Proof. apply lookup_insert_eq. Qed.

Lemma lookup_disk_append_ne p q data d :
  p <> q -> files (disk_append q data d) !! p = files d !! p.
Proof. intros H. apply lookup_insert_ne. congruence. Qed.

Lemma free_disk_append p data d :
  free (disk_append p data d) = free d - Nat.min (free d) (length data).
Proof. reflexivity. Qed.

(** Appending to a full device, or appending nothing, changes nothing. *)
Lemma disk_append_id p data d c :
  files d !! p = Some c -> free d = 0%nat \/ data = [] -> disk_append p data d = d.
Proof.
  intros Hc Hd. destruct d as [m f]; unfold disk_append, content in *; cbn in *.
  rewrite Hc. cbn. destruct Hd as [-> | ->];
    rewrite ?take_0, ?take_nil, app_nil_r, insert_id by exact Hc;
    cbn [length]; f_equal; lia.
Qed.

(** Appending is a homomorphism from concatenation to composition. *)
Lemma disk_append_app p a b d :
  disk_append p (a ++ b) d = disk_append p b (disk_append p a d).
Proof.
  destruct d as [m f]. unfold disk_append, content; cbn.
  rewrite lookup_insert_eq, insert_insert_eq, take_app, length_app. cbn.
  rewrite <- app_assoc. f_equal; [do 4 f_equal | ]; lia.
Qed.

#[export] Hint Rewrite content_disk_append free_disk_append : p2wsh_rw.

(** An append that fits loses nothing. *)
Lemma disk_append_fits p data d :
  length data <= free d ->
  content p (disk_append p data d) = content p d ++ data /\
  free (disk_append p data d) = free d - length data.
Proof. intros H. rewrite content_disk_append, take_ge by exact H. cbn. split; [reflexivity | lia]. Qed.

Lemma disk_append_nil p d : is_Some (files d !! p) -> disk_append p [] d = d.
Proof. intros [c Hc]. apply (disk_append_id p [] d c Hc). auto. Qed.

Lemma disk_append_full p data d :
  is_Some (files d !! p) -> free d = 0 -> disk_append p data d = d.
Proof. intros [c Hc] H0. apply (disk_append_id p data d c Hc). auto. Qed.

(** Appending to a file just created writes the first bytes that fit in the
    space left plus the space the old content freed. *)
Lemma disk_append_created p data d :
  disk_append p data (file_create p d)
  = mkDisk (<[p := take (free d + length (content p d)) data]> (files d))
           (free d + length (content p d) - Nat.min (free d + length (content p d)) (length data)).
Proof.
  unfold disk_append, file_create, content at 1. cbn.
  rewrite lookup_insert_eq, insert_insert_eq. reflexivity.
Qed.

Lemma file_create_is_Some p d : is_Some (files (file_create p d) !! p).
Proof. unfold file_create. cbn. rewrite lookup_insert_eq. eauto. Qed.

(** ** The write loop *)

(** A write on a device with room writes the first [min free (length data)]
    bytes: it is the reference append of those bytes. *)
Lemma file_write_append p data d :
  data <> [] -> free d <> 0%nat ->
  file_write p data d
  = Ok (Nat.min (free d) (length data), disk_append p (take (Nat.min (free d) (length data)) data) d).
Proof.
  intros Hd Hf. unfold file_write, disk_append.
  destruct data as [|x data]; [congruence|]. destruct (free d) as [|k] eqn:Hk; [congruence|].
  rewrite take_take, length_take. do 3 f_equal; [do 3 f_equal|]; lia.
Qed.

(** std's write loop ends within [length data] rounds, and then it is the
    reference append; it leaves unwritten the bytes past the free space,
    and fails exactly when there are some. *)
Lemma write_loop_spec fuel p data d c :
  files d !! p = Some c -> (length data <= fuel)%nat ->
  write_loop fuel p data d
  = (disk_append p data d, drop (free d) data,
     if Nat.leb (length data) (free d) then Ok tt else Err StorageFull).
Proof.
  revert data d c. induction fuel as [|fuel IH]; intros data d c Hc Hlen.
  - destruct data; [|cbn in Hlen; lia]. rewrite (disk_append_id p [] d c), drop_nil by auto. reflexivity.
  - destruct data as [|x data']; [rewrite (disk_append_id p [] d c), drop_nil by auto; reflexivity|].
    assert (Hne : x :: data' <> []) by congruence.
    assert (H1 : 1 <= length (x :: data')) by (cbn; lia).
    cbn [write_loop].
    destruct (decide (free d = 0)) as [Hf|Hf].
    + unfold file_write. rewrite Hf. cbn. rewrite (disk_append_id p _ d c) by auto. reflexivity.
    + rewrite file_write_append by assumption.
      assert (Hn : 1 <= Nat.min (free d) (length (x :: data'))) by lia.
      set (data := x :: data') in *. set (n := Nat.min (free d) (length data)) in *.
      destruct n as [|n'] eqn:En; [lia|]. rewrite <- En.
      rewrite (IH (drop n data) _ _ (lookup_disk_append p _ d)) by (rewrite length_drop; lia).
      rewrite <- disk_append_app, take_drop, free_disk_append, length_take, drop_drop.
      f_equal; [f_equal; f_equal; lia|].
      rewrite length_drop. destruct (Nat.leb_spec (length data) (free d));
        destruct (Nat.leb_spec (length data - n) (free d - Nat.min (free d) (Nat.min n (length data))));
        reflexivity || lia.
Qed.

End Disk.

Module BufWriter.
Import Disk.

(** std's [DEFAULT_BUF_SIZE], the capacity [BufWriter::new] allocates. *)
Definition DEFAULT_BUF_SIZE : nat := 8 * 1024.

Lemma DEFAULT_BUF_SIZE_pos : 0 < DEFAULT_BUF_SIZE.
Proof. unfold DEFAULT_BUF_SIZE. lia. Qed.

(** The proofs treat the capacity as a number of their own; the kernel
    would otherwise unfold its 8192 in unary. *)
#[global] Opaque DEFAULT_BUF_SIZE.

(** A [BufWriter<File>]: its buffer and the disk its file is on. *)
Record W := mkW {
  wbuf : list byte;
  wdisk : disk
}.

Abbreviation M := (StE W io_error).

(** [BufWriter::new(file)]. *)
Definition new (d : disk) : W := mkW [] d.

Definition spare_capacity (st : W) : nat := DEFAULT_BUF_SIZE - length (wbuf st).

(** [flush_buf]: the write loop on the buffer; its guard drains the bytes
    written and keeps the rest, also on an error. *)
Definition flush_buf (p : string) : M unit := fun st =>
  let '(d', rest, r) := write_loop (length (wbuf st)) p (wbuf st) (wdisk st) in
  (mkW rest d', r).

(** [self.get_mut().write_all(buf)]: [Write::write_all] on the file. *)
Definition inner_write_all (p : string) (data : list byte) : M unit := fun st =>
  let '(d', _, r) := write_loop (length data) p data (wdisk st) in
  (mkW (wbuf st) d', r).

Definition write_to_buffer (data : list byte) : M unit :=
  smodify (fun st => mkW (wbuf st ++ data) (wdisk st)).

(** [write_all_cold]: flush when the data does not fit in the spare
    capacity, then write data of a whole buffer or more to the file,
    and buffer anything shorter. *)
Definition write_all_cold (p : string) (data : list byte) : M unit :=
  st <- sget ;;
  (if Nat.ltb (spare_capacity st) (length data) then flush_buf p else sret tt) ;;;
  if Nat.leb DEFAULT_BUF_SIZE (length data) then inner_write_all p data
  else write_to_buffer data.

(** [<BufWriter as Write>::write_all]: the fast path buffers data shorter
    than the spare capacity. *)
Definition write_all (p : string) (data : list byte) : M unit :=
  st <- sget ;;
  if Nat.ltb (length data) (spare_capacity st) then write_to_buffer data
  else write_all_cold p data.

(** [<BufWriter as Drop>::drop]: [let _r = self.flush_buf();]. *)
Definition drop (p : string) (st : W) : disk := wdisk (fst (flush_buf p st)).

(** The disk as it is once the buffer is flushed. *)
Definition flushed (p : string) (st : W) : disk := disk_append p (wbuf st) (wdisk st).

(** The writer's file exists on its disk. *)
Definition has_file (p : string) (st : W) : Prop := is_Some (files (wdisk st) !! p).

(** The four ways [write_all] ends: buffered; a flush that fails; a flush
    and then buffered; a direct write of data of a whole buffer or more
    (after a flush, or with the buffer empty). *)
Inductive write_all_outcome (p : string) (data : list byte) (st : W)
    : W -> result io_error unit -> Prop :=
| wa_buffer :
    length data <= spare_capacity st -> length data < DEFAULT_BUF_SIZE ->
    write_all_outcome p data st (mkW (wbuf st ++ data) (wdisk st)) (Ok tt)
| wa_flush_err :
    spare_capacity st < length data -> free (wdisk st) < length (wbuf st) ->
    write_all_outcome p data st
      (mkW (List.skipn (free (wdisk st)) (wbuf st)) (flushed p st)) (Err StorageFull)
| wa_flush_buffer :
    spare_capacity st < length data -> length (wbuf st) <= free (wdisk st) ->
    length data < DEFAULT_BUF_SIZE ->
    write_all_outcome p data st (mkW data (flushed p st)) (Ok tt)
| wa_direct :
    DEFAULT_BUF_SIZE <= length data -> length (wbuf st) <= free (wdisk st) ->
    write_all_outcome p data st (mkW [] (disk_append p data (flushed p st)))
      (if Nat.leb (length data) (free (flushed p st)) then Ok tt else Err StorageFull).

(** ** The buffer flushes and direct writes *)

Lemma flush_buf_spec p st :
  has_file p st ->
  flush_buf p st
  = (mkW (List.skipn (free (wdisk st)) (wbuf st)) (flushed p st),
     if Nat.leb (length (wbuf st)) (free (wdisk st)) then Ok tt else Err StorageFull).
Proof.
  intros [c Hc]. unfold flush_buf. rewrite (write_loop_spec _ p _ _ c Hc) by lia. reflexivity.
Qed.

Lemma inner_write_all_spec p data st :
  has_file p st ->
  inner_write_all p data st
  = (mkW (wbuf st) (disk_append p data (wdisk st)),
     if Nat.leb (length data) (free (wdisk st)) then Ok tt else Err StorageFull).
Proof.
  intros [c Hc]. unfold inner_write_all. rewrite (write_loop_spec _ p _ _ c Hc) by lia. reflexivity.
Qed.
(** C17: [flush_buf] loses and duplicates no byte: what the file and the
    buffer hold together is the same before and after, the bytes the file
    gains are the space the device loses, the flush fails exactly when the
    buffer holds more than the space left, and a flush that succeeds leaves
    the buffer empty. *)
Theorem flush_buf_guard p st :
  has_file p st ->
  let st' := fst (flush_buf p st) in
  content p (wdisk st') ++ wbuf st' = content p (wdisk st) ++ wbuf st /\
  free (wdisk st') + length (content p (wdisk st')) = free (wdisk st) + length (content p (wdisk st)) /\
  (snd (flush_buf p st) = Ok tt <-> length (wbuf st) <= free (wdisk st)) /\
  (snd (flush_buf p st) = Ok tt -> wbuf st' = []).
Proof.
  intros Hf. rewrite flush_buf_spec by exact Hf. cbn [fst snd wbuf wdisk]. unfold flushed.
  rewrite content_disk_append, free_disk_append, <- app_assoc, take_drop, length_app, length_take.
  split; [reflexivity|]. split; [lia|].
  destruct (Nat.leb_spec (length (wbuf st)) (free (wdisk st))) as [Hle|Hgt].
  - split; [tauto|]. intros _. apply skipn_all2. exact Hle.
  - split; [split; [discriminate | lia] | discriminate].
Qed.


Lemma has_file_flushed_any p st b : has_file p (mkW b (flushed p st)).
Proof. unfold has_file. cbn [wdisk]. unfold flushed. rewrite lookup_disk_append. eauto. Qed.

Lemma flushed_empty p d : is_Some (files d !! p) -> flushed p (mkW [] d) = d.
Proof. intros [c Hc]. apply (disk_append_id p [] d c Hc). auto. Qed.

(** Every run of [write_all] is one of its four outcomes. *)
Lemma write_all_outcome_of p data st :
  has_file p st -> write_all_outcome p data st (fst (write_all p data st)) (snd (write_all p data st)).
Proof.
  intros Hf. pose proof Hf as [c Hc].
  unfold write_all, write_all_cold, write_to_buffer. run_ste.
  destruct (Nat.ltb_spec (length data) (spare_capacity st)).
  { apply wa_buffer; unfold spare_capacity in *; lia. }
  destruct (Nat.ltb_spec (spare_capacity st) (length data)) as [Hsp|Hsp].
  - rewrite (flush_buf_spec p st Hf).
    destruct (Nat.leb_spec (length (wbuf st)) (free (wdisk st))) as [Hle|Hgt];
      [|apply wa_flush_err; assumption].
    rewrite skipn_all2 by exact Hle.
    destruct (Nat.leb_spec DEFAULT_BUF_SIZE (length data)).
    + rewrite (inner_write_all_spec p data _ (has_file_flushed_any p st [])). cbn [fst snd wbuf wdisk].
      apply wa_direct; assumption.
    + apply wa_flush_buffer; assumption.
  - assert (Hspare : spare_capacity st = length data) by lia.
    destruct (Nat.leb_spec DEFAULT_BUF_SIZE (length data)).
    + assert (Hnil : wbuf st = []).
      { unfold spare_capacity in *. pose proof DEFAULT_BUF_SIZE_pos. apply nil_length_inv. lia. }
      destruct st as [buf d]. cbn in *. subst buf.
      rewrite (inner_write_all_spec p data _ Hf). cbn [fst snd wbuf wdisk].
      rewrite <- (flushed_empty p d (mk_is_Some _ _ Hc)) at 2 3. apply wa_direct; cbn; lia.
    + apply wa_buffer; lia.
Qed.

(** Case analysis of a run of [write_all]. *)
Ltac outcome_cases p data st Hf :=
  let Ho := fresh "Ho" in
  pose proof (write_all_outcome_of p data st Hf) as Ho;
  destruct (write_all p data st) as [?st' ?r]; cbn [fst snd] in *; destruct Ho.

Lemma flushed_is_Some p st : is_Some (files (flushed p st) !! p).
Proof. apply (has_file_flushed_any p st []). Qed.

Lemma has_file_append p b data d : is_Some (files d !! p) -> has_file p (mkW b (disk_append p data d)).
Proof. intros _. unfold has_file. cbn [wdisk]. rewrite lookup_disk_append. eauto. Qed.

#[export] Hint Resolve has_file_flushed_any has_file_append flushed_is_Some : core.

(** The writer's file stays on the disk. *)
Lemma write_all_has_file p data st :
  has_file p st -> has_file p (fst (write_all p data st)).
Proof. intros Hf. outcome_cases p data st Hf; auto. Qed.

(** Data shorter than the spare capacity only fills the buffer. *)
Lemma write_all_fast p data st :
  length (wbuf st) + length data < DEFAULT_BUF_SIZE ->
  write_all p data st = (mkW (wbuf st ++ data) (wdisk st), Ok tt).
Proof.
  intros H. unfold write_all, write_to_buffer. run_ste.
  destruct (Nat.ltb_spec (length data) (spare_capacity st)); [reflexivity|].
  unfold spare_capacity in *. lia.
Qed.

Lemma flushed_skip p st :
  free (wdisk st) < length (wbuf st) ->
  flushed p (mkW (List.skipn (free (wdisk st)) (wbuf st)) (flushed p st)) = flushed p st.
Proof.
  intros H. unfold flushed at 1. cbn [wbuf wdisk]. apply disk_append_full; [auto|].
  unfold flushed. rewrite free_disk_append. lia.
Qed.

(** Refinement: once flushed, a buffered [write_all] leaves the disk as
    the unbuffered append of its data does, whatever the buffer held and
    whether or not the write fails. *)
Lemma write_all_refines p data st :
  has_file p st ->
  flushed p (fst (write_all p data st)) = disk_append p data (flushed p st).
Proof.
  intros Hf. outcome_cases p data st Hf.
  - unfold flushed. cbn [wbuf wdisk]. apply disk_append_app.
  - rewrite flushed_skip by assumption. symmetry. apply disk_append_full; [auto|].
    unfold flushed. rewrite free_disk_append. lia.
  - reflexivity.
  - apply flushed_empty. rewrite lookup_disk_append. eauto.
Qed.

(** A failing [write_all] had more data than the flushed disk had room. *)
Lemma write_all_err p data st e :
  has_file p st -> snd (write_all p data st) = Err e -> free (flushed p st) < length data.
Proof.
  intros Hf. outcome_cases p data st Hf; intros Hr; try discriminate.
  - unfold flushed, spare_capacity in *. rewrite free_disk_append. lia.
  - destruct (Nat.leb_spec (length data) (free (flushed p st))); [discriminate | lia].
Qed.

(** A successful [write_all] loses no byte: what the file and the buffer
    hold grows by the data, and the file grows by what the device loses. *)
Lemma write_all_ok p data st :
  has_file p st -> snd (write_all p data st) = Ok tt ->
  let st' := fst (write_all p data st) in
  free (wdisk st') + length (content p (wdisk st')) = free (wdisk st) + length (content p (wdisk st)) /\
  length (content p (wdisk st')) + length (wbuf st')
  = length (content p (wdisk st)) + length (wbuf st) + length data.
Proof.
  intros Hf. outcome_cases p data st Hf; intros Hr; cbn [wbuf wdisk]; try discriminate.
  - rewrite length_app. lia.
  - unfold flushed. destruct (disk_append_fits p (wbuf st) (wdisk st)) as [-> ->]; [lia|].
    rewrite length_app. lia.
  - destruct (Nat.leb_spec (length data) (free (flushed p st))) as [Hd|]; [|discriminate].
    unfold flushed in *. destruct (disk_append_fits p (wbuf st) (wdisk st)) as [Hc1 Hf1]; [lia|].
    destruct (disk_append_fits p data (disk_append p (wbuf st) (wdisk st))) as [-> ->]; [lia|].
    rewrite Hc1, Hf1 in *. rewrite !length_app. cbn. lia.
Qed.

(** The buffer never holds more than its capacity. *)
Lemma write_all_buf_bound p data st :
  has_file p st -> length (wbuf st) <= DEFAULT_BUF_SIZE ->
  length (wbuf (fst (write_all p data st))) <= DEFAULT_BUF_SIZE.
Proof.
  intros Hf Hb. outcome_cases p data st Hf; cbn [wbuf length];
    unfold spare_capacity in *; rewrite ?length_app, ?length_skipn; lia.
Qed.

(** [write_all] fails only with [StorageFull]. *)
Lemma write_all_result p data st :
  has_file p st -> snd (write_all p data st) = Ok tt \/ snd (write_all p data st) = Err StorageFull.
Proof.
  intros Hf. outcome_cases p data st Hf; auto.
  destruct (Nat.leb (length data) (free (flushed p st))); auto.
Qed.

(** [Drop] leaves the disk flushed. *)
Lemma drop_flushed p st : has_file p st -> drop p st = flushed p st.
Proof. intros Hf. unfold drop. rewrite flush_buf_spec by exact Hf. reflexivity. Qed.

End BufWriter.

Module Emit.
Import Disk BufWriter.

(** A serializer's output as it reaches the writer: one [write_all] per
    piece, in order, the first error returned at once ([?] in serde_json's
    and bincode's serializers).  The pieces are any fragmentation of the
    text: the theorems hold for every one. *)
Fixpoint write_pieces (p : string) (ps : list (list byte)) : M unit :=
  match ps with
  | [] => sret tt
  | piece :: ps' => write_all p piece ;;; write_pieces p ps'
  end.

(** [serde_json::to_writer_pretty(writer, &v)] or
    [bincode::serialize_into(writer, &v)] with
    [writer = BufWriter::new(file)]: the writer is moved into the call and
    dropped when it returns, flushing without reporting. *)
Definition to_writer (p : string) (ps : list (list byte)) (d : disk)
    : disk * result io_error unit :=
  let '(st, r) := write_pieces p ps (new d) in (drop p st, r).

(** ** The serializer's writes *)

Lemma write_pieces_cons p piece ps st :
  write_pieces p (piece :: ps) st
  = match write_all p piece st with
    | (st1, Ok _) => write_pieces p ps st1
    | (st1, Err e) => (st1, Err e)
    end.
Proof. cbn [write_pieces]. unfold sbind. destruct (write_all p piece st) as [st1 [|]]; reflexivity. Qed.

Lemma write_all_split p piece st :
  write_all p piece st = (fst (write_all p piece st), snd (write_all p piece st)).
Proof. destruct (write_all p piece st); reflexivity. Qed.

(** Induction over the pieces, naming the state after the first. *)
Ltac pieces_step p piece st :=
  rewrite write_pieces_cons;
  pose proof (write_all_has_file p piece st ltac:(assumption)) as ?Hf1;
  rewrite (write_all_split p piece st);
  destruct (write_all_result p piece st ltac:(assumption)) as [?Hr | ?Hr]; rewrite Hr.

Lemma write_pieces_has_file p ps st :
  has_file p st -> has_file p (fst (write_pieces p ps st)).
Proof.
  revert st. induction ps as [|piece ps IH]; intros st Hf; [exact Hf|].
  pieces_step p piece st; [apply IH|]; assumption.
Qed.

(** The disk once flushed is the unbuffered append of all the pieces. *)
Lemma write_pieces_refines p ps st :
  has_file p st ->
  flushed p (fst (write_pieces p ps st)) = disk_append p (concat ps) (flushed p st).
Proof.
  revert st. induction ps as [|piece ps IH]; intros st Hf.
  - cbn. symmetry. apply disk_append_nil. auto.
  - cbn [concat]. rewrite disk_append_app, <- write_all_refines by assumption.
    pieces_step p piece st; cbn [fst]; [apply IH; assumption|].
    symmetry. apply disk_append_full; [apply (has_file_flushed_any p _ [])|].
    rewrite write_all_refines, free_disk_append by assumption.
    pose proof (write_all_err p piece st _ ltac:(assumption) Hr). lia.
Qed.

Lemma write_pieces_result p ps st :
  has_file p st ->
  snd (write_pieces p ps st) = Ok tt \/ snd (write_pieces p ps st) = Err StorageFull.
Proof.
  revert st. induction ps as [|piece ps IH]; intros st Hf; [auto|].
  pieces_step p piece st; [apply IH; assumption | auto].
Qed.

(** The serializer fails only when the pieces outgrow the flushed disk. *)
Lemma write_pieces_err p ps st e :
  has_file p st -> snd (write_pieces p ps st) = Err e -> free (flushed p st) < length (concat ps).
Proof.
  revert st. induction ps as [|piece ps IH]; intros st Hf He; [discriminate|].
  cbn [concat]. rewrite length_app. revert He. pieces_step p piece st; intros He.
  - pose proof (IH _ Hf1 He) as H. rewrite write_all_refines, free_disk_append in H by assumption.
    lia.
  - pose proof (write_all_err p piece st _ ltac:(assumption) Hr). lia.
Qed.

(** A serializer that succeeds loses no byte, and keeps the buffer within
    its capacity. *)
Lemma write_pieces_ok p ps st :
  has_file p st -> length (wbuf st) <= DEFAULT_BUF_SIZE -> snd (write_pieces p ps st) = Ok tt ->
  let st' := fst (write_pieces p ps st) in
  free (wdisk st') + length (content p (wdisk st')) = free (wdisk st) + length (content p (wdisk st)) /\
  length (content p (wdisk st')) + length (wbuf st')
  = length (content p (wdisk st)) + length (wbuf st) + length (concat ps) /\
  length (wbuf st') <= DEFAULT_BUF_SIZE.
Proof.
  revert st. induction ps as [|piece ps IH]; intros st Hf Hb Hok; [cbn [write_pieces concat length]; unfold sret; cbn [fst]; lia|].
  cbn [concat]. rewrite length_app. revert Hok. pieces_step p piece st; intros Hok; [|discriminate].
  pose proof (write_all_ok p piece st ltac:(assumption) Hr) as [H1 H2].
  pose proof (write_all_buf_bound p piece st ltac:(assumption) Hb) as H3.
  destruct (IH _ Hf1 H3 Hok) as (H4 & H5 & H6). cbn zeta in *. lia.
Qed.

(** Pieces that fit in the spare capacity stay in the buffer. *)
Lemma write_pieces_small p ps st :
  length (wbuf st) + length (concat ps) < DEFAULT_BUF_SIZE ->
  write_pieces p ps st = (mkW (wbuf st ++ concat ps) (wdisk st), Ok tt).
Proof.
  revert st. induction ps as [|piece ps IH]; intros st H.
  - cbn. rewrite app_nil_r. destruct st; reflexivity.
  - cbn [concat] in *. rewrite length_app in H. rewrite write_pieces_cons, write_all_fast by lia.
    rewrite IH; cbn [wbuf wdisk]; rewrite ?length_app, ?app_assoc; [reflexivity | lia].
Qed.

Lemma to_writer_eq p ps d :
  to_writer p ps d = (drop p (fst (write_pieces p ps (new d))), snd (write_pieces p ps (new d))).
Proof. unfold to_writer. destruct (write_pieces p ps (new d)); reflexivity. Qed.

(** ** One serializer call through a fresh writer *)

Lemma to_writer_disk p ps d :
  is_Some (files d !! p) -> fst (to_writer p ps d) = disk_append p (concat ps) d.
Proof.
  intros Hf. rewrite to_writer_eq. cbn [fst].
  rewrite drop_flushed by (apply write_pieces_has_file; exact Hf).
  rewrite write_pieces_refines by exact Hf. unfold new. rewrite flushed_empty by exact Hf.
  reflexivity.
Qed.

Lemma to_writer_fits p ps d :
  is_Some (files d !! p) -> length (concat ps) <= free d ->
  to_writer p ps d = (disk_append p (concat ps) d, Ok tt).
Proof.
  intros Hf Hle. rewrite <- (to_writer_disk p ps d Hf), to_writer_eq. f_equal.
  destruct (write_pieces_result p ps (new d) Hf) as [Hr|Hr]; [exact Hr|].
  pose proof (write_pieces_err p ps (new d) _ Hf Hr) as H.
  unfold new in H. rewrite flushed_empty in H by exact Hf. lia.
Qed.

Lemma to_writer_small p ps d :
  is_Some (files d !! p) -> length (concat ps) < DEFAULT_BUF_SIZE ->
  to_writer p ps d = (disk_append p (concat ps) d, Ok tt).
Proof.
  intros Hf Hlt. rewrite <- (to_writer_disk p ps d Hf), to_writer_eq. f_equal.
  rewrite write_pieces_small by (cbn [wbuf new length]; lia). reflexivity.
Qed.

Lemma to_writer_overflow p ps d :
  is_Some (files d !! p) -> free d + DEFAULT_BUF_SIZE < length (concat ps) ->
  snd (to_writer p ps d) = Err StorageFull.
Proof.
  intros Hf Hgt. rewrite to_writer_eq. cbn [snd].
  destruct (write_pieces_result p ps (new d) Hf) as [Hr|Hr]; [|exact Hr].
  destruct (write_pieces_ok p ps (new d) Hf ltac:(cbn; lia) Hr) as (H1 & H2 & H3).
  cbn [wbuf wdisk new length] in *. lia.
Qed.

(** C11: Refinement: whatever the fragmentation, one serializer call through a
    fresh [BufWriter] appends to its file the first [free d] bytes of the
    text, takes that much space, and leaves every other file as it was:
    the unbuffered append, also when the call fails. *)
Theorem to_writer_prefix p ps d :
  is_Some (files d !! p) ->
  content p (fst (to_writer p ps d)) = content p d ++ take (free d) (concat ps) /\
  free (fst (to_writer p ps d)) = free d - Nat.min (free d) (length (concat ps)) /\
  (forall q, q <> p -> files (fst (to_writer p ps d)) !! q = files d !! q).
Proof.
  intros Hf. rewrite to_writer_disk by exact Hf.
  split; [apply content_disk_append|]. split; [apply free_disk_append|].
  intros q Hq. apply lookup_disk_append_ne. exact Hq.
Qed.

(** C16: The buffer invariant over a whole serializer call: however the writes
    end, the buffer holds at most [DEFAULT_BUF_SIZE] bytes. *)
Theorem writer_buf_bound p ps st :
  has_file p st -> length (wbuf st) <= DEFAULT_BUF_SIZE ->
  length (wbuf (fst (write_pieces p ps st))) <= DEFAULT_BUF_SIZE.
Proof.
  revert st. induction ps as [|piece ps IH]; intros st Hf Hb; [exact Hb|].
  pieces_step p piece st; cbn [fst]; [apply IH; [assumption|]|]; apply write_all_buf_bound; assumption.
Qed.

Lemma concat_singletons (l : list byte) : concat (map (fun x => [x]) l) = l.
Proof. induction l as [|x l IH]; [reflexivity|]. cbn. rewrite IH. reflexivity. Qed.

(** ** The artifacts of [main] on the disk *)

(** The bytes of an artifact: serde_json's pretty text (JsonText.v), one
    byte per character, or bincode's encoding (Bincode.v). *)
Definition json_bytes (l : list UTXO) : list byte :=
  map byte_of_ascii (String.list_ascii_of_string (json_pretty (to_json_results l))).

Definition artifact_bytes (a : artifact) : list byte :=
  match a with
  | JsonFile l => json_bytes l
  | BinFile l => serialize_results l
  end.

(** A fragmentation into single bytes, and fixtures: the record of the
    specification's scenario and a part of 100 records, whose text is
    longer than the buffer. *)
Definition byte_pieces (a : artifact) : list (list byte) := map (fun x => [x]) (artifact_bytes a).

Definition scenario_utxo : UTXO := mkUTXO 100 (Some "abc") 7 2 (Some 5000%Z).

Definition big_part : list UTXO :=
  map (fun k => mkUTXO 100 (Some "abc") 7 (Z.of_nat k) (Some 5000%Z)) (seq 0 100).

Section Write.

(** [can_create] as in Pipeline.v; [frag] is how the serializer splits the
    bytes of an artifact into its [write_all] calls. *)
Context (can_create : string -> bool).
Context (frag : artifact -> list (list byte)).

(** main.rs 114-118, 132-134 and 137-139: [File::create(path).unwrap()],
    [BufWriter::new], the serializer, and its [.unwrap()]. *)
Definition write_file (path : string) (a : artifact) (d : disk) : disk * result error unit :=
  if can_create path then
    match to_writer path (frag a) (file_create path d) with
    | (d', Ok _) => (d', Ok tt)
    | (d', Err _) => (d', Err (Panic "called `Result::unwrap()` on an `Err` value"))
    end
  else (d, Err (Panic ("File::create failed: " +:+ path))).

(** The JSON parts in the order [main] writes them: [part-p], [part-(p+1)],
    ...; a panic ends the run. *)
Fixpoint write_parts_disk (loc : string) (p : Z) (bs : list (list UTXO)) (d : disk)
    : disk * result error unit :=
  match bs with
  | [] => (d, Ok tt)
  | b :: bs' =>
      match write_file (part_path loc p) (JsonFile b) d with
      | (d', Ok _) => write_parts_disk loc (p + 1) bs' d'
      | (d', Err e) => (d', Err e)
      end
  end.

Definition parts_size (bs : list (list UTXO)) : nat := sum_list_with (fun b => length (json_bytes b)) bs.

Hypothesis Hfrag : forall a, concat (frag a) = artifact_bytes a.

Lemma write_file_created path a d :
  can_create path = true ->
  fst (write_file path a d) = disk_append path (artifact_bytes a) (file_create path d).
Proof.
  intros Hc. unfold write_file. rewrite Hc, <- Hfrag, <- (to_writer_disk path (frag a)) by
    apply file_create_is_Some.
  destruct (to_writer path (frag a) (file_create path d)) as [d' [|]]; reflexivity.
Qed.

(** With room for the bytes of the artifact, the file holds exactly them. *)
Lemma write_file_fits path a d :
  can_create path = true -> length (artifact_bytes a) <= free d + length (content path d) ->
  write_file path a d
  = (mkDisk (<[path := artifact_bytes a]> (files d))
            (free d + length (content path d) - length (artifact_bytes a)), Ok tt).
Proof.
  intros Hc Hle. unfold write_file. rewrite Hc, to_writer_fits, Hfrag, disk_append_created
    by (apply file_create_is_Some || (rewrite Hfrag; unfold file_create; cbn; lia)).
  rewrite take_ge by lia. do 2 f_equal. lia.
Qed.

(** C22: The writes of the last buffer are never checked: when the bytes of
    an artifact are fewer than [DEFAULT_BUF_SIZE], [write_file] succeeds
    whatever the space left (the [.unwrap()] does not panic, [main] goes
    on and reports the part as written), and the file holds only the first
    bytes that fit: the append of the reference, cut at the free space. *)
Theorem write_file_short path a d :
  can_create path = true -> length (artifact_bytes a) < DEFAULT_BUF_SIZE ->
  write_file path a d = (disk_append path (artifact_bytes a) (file_create path d), Ok tt).
Proof.
  intros Hc Hlt. unfold write_file. rewrite Hc, to_writer_small, Hfrag
    by (apply file_create_is_Some || (rewrite Hfrag; exact Hlt)).
  reflexivity.
Qed.

(** C23: More bytes than the free space plus one buffer cannot all be handed
    to the file before the serializer returns: the write fails and the
    [.unwrap()] panics. *)
Theorem write_file_overflow path a d :
  can_create path = true ->
  free d + length (content path d) + DEFAULT_BUF_SIZE < length (artifact_bytes a) ->
  snd (write_file path a d) = Err (Panic "called `Result::unwrap()` on an `Err` value").
Proof.
  intros Hc Hgt. unfold write_file. rewrite Hc.
  pose proof (to_writer_overflow path (frag a) (file_create path d) (file_create_is_Some path d))
    as H.
  rewrite Hfrag in H. unfold file_create in H at 1. cbn [free] in H.
  destruct (to_writer path (frag a) (file_create path d)) as [d' r]. cbn [snd] in H |- *.
  rewrite H by lia. reflexivity.
Qed.

(** With room for every part, the disk holds the bytes of the directory
    [write_parts] describes. *)
Lemma write_parts_disk_realizes loc p bs fs0 d :
  (forall q, can_create (part_path loc q) = true) ->
  files d = artifact_bytes <$> fs0 -> parts_size bs <= free d ->
  exists d', write_parts_disk loc p bs d = (d', Ok tt) /\
             files d' = artifact_bytes <$> write_parts fs0 loc p bs.
Proof.
  revert p fs0 d. induction bs as [|b bs IH]; intros p fs0 d Hc Hd Hs; [eauto|].
  cbn [write_parts_disk write_parts parts_size sum_list_with] in *. unfold parts_size in *.
  cbn [sum_list_with] in Hs.
  rewrite write_file_fits by (exact (Hc p) || (cbn [artifact_bytes]; lia)).
  apply IH; [exact Hc | cbn; rewrite Hd, fmap_insert; reflexivity | cbn [free artifact_bytes]; lia].
Qed.

(** C3: The composition with [main]: a JSON run writes its parts in order;
    when the disk holds the bytes of the directory the run started from and
    has room for the text of every part, the disk written holds exactly the
    bytes of the directory the run describes. *)
Theorem main_json_disk overflow_checks read_u read_i prog pu pi mt loc extra rows_u rows_i st0 :
  read_u pu = Ok (map Ok rows_u) -> read_i pi = Ok (map Ok rows_i) ->
  (forall q, can_create (part_path loc q) = true) ->
  (Z.of_nat (length rows_i) <= i32_MAX)%Z ->
  (Z.of_nat (length (join_spec mt rows_u rows_i)) <= i32_MAX)%Z ->
  exists st parts,
    main overflow_checks can_create read_u read_i (prog :: pu :: pi :: "json" :: mt :: loc :: extra) st0
      = (st, Ok tt) /\
    concat parts = join_spec mt rows_u rows_i /\
    forall d, files d = artifact_bytes <$> fs st0 -> parts_size parts <= free d ->
      exists d', write_parts_disk loc 1 parts d = (d', Ok tt) /\ files d' = artifact_bytes <$> fs st.
Proof.
  intros Hu Hi Hc Hn Hmax.
  destruct (main_json_parts overflow_checks can_create read_u read_i prog pu pi mt loc extra
              rows_u rows_i st0 Hu Hi Hc Hn Hmax) as (st & fl & last & Hrun & Hfs & Hcat & _).
  exists st, (fl ++ [last]). split; [exact Hrun|]. split; [exact Hcat|].
  intros d Hd Hs. rewrite Hfs. apply write_parts_disk_realizes; assumption.
Qed.

End Write.

End Emit.

(** ** Witnesses *)

Import Disk BufWriter Emit.

Lemma byte_pieces_concat a : concat (byte_pieces a) = artifact_bytes a.
Proof. apply concat_singletons. Qed.

Lemma flush_buf_guard_witness :
  has_file "f" (mkW [Byte.x61; Byte.x62; Byte.x63] (mkDisk {[ "f" := [Byte.x30] ]} 2)) /\
  let st := mkW [Byte.x61; Byte.x62; Byte.x63] (mkDisk {[ "f" := [Byte.x30] ]} 2) in
  let st' := fst (flush_buf "f" st) in
  content "f" (wdisk st') ++ wbuf st' = content "f" (wdisk st) ++ wbuf st /\
  free (wdisk st') + length (content "f" (wdisk st')) = free (wdisk st) + length (content "f" (wdisk st)) /\
  (snd (flush_buf "f" st) = Ok tt <-> length (wbuf st) <= free (wdisk st)) /\
  (snd (flush_buf "f" st) = Ok tt -> wbuf st' = []).
Proof.
  assert (Hf : has_file "f" (mkW [Byte.x61; Byte.x62; Byte.x63] (mkDisk {[ "f" := [Byte.x30] ]} 2)))
    by (exists [Byte.x30]; reflexivity).
  split; [exact Hf|]. exact (flush_buf_guard "f" _ Hf).
Defined.

(** The specification's record written to a device with 16 bytes left:
    the write reports success, and [part-1.json] holds 16 bytes that are
    not JSON. *)
Example scenario_part_truncated :
  let '(d', r) := write_file (fun _ => true) byte_pieces "out/part-1.json" (JsonFile [scenario_utxo])
                    (mkDisk ∅ 16) in
  (r, length (content "out/part-1.json" d'),
   parse_json (String.string_of_list_ascii (map ascii_of_byte (content "out/part-1.json" d'))))
  = (Ok tt, 16, None).
Proof. vm_compute. reflexivity. Qed.

Lemma to_writer_prefix_witness :
  is_Some (files (mkDisk {[ "f" := [] ]} 3) !! "f") /\
  content "f" (fst (to_writer "f" [[Byte.x61]; [Byte.x62; Byte.x63; Byte.x64]] (mkDisk {[ "f" := [] ]} 3)))
  = content "f" (mkDisk {[ "f" := [] ]} 3) ++ take 3 (concat [[Byte.x61]; [Byte.x62; Byte.x63; Byte.x64]]) /\
  free (fst (to_writer "f" [[Byte.x61]; [Byte.x62; Byte.x63; Byte.x64]] (mkDisk {[ "f" := [] ]} 3)))
  = 3 - Nat.min 3 (length (concat [[Byte.x61]; [Byte.x62; Byte.x63; Byte.x64]])) /\
  (forall q, q <> "f" ->
   files (fst (to_writer "f" [[Byte.x61]; [Byte.x62; Byte.x63; Byte.x64]] (mkDisk {[ "f" := [] ]} 3))) !! q
   = files (mkDisk {[ "f" := [] ]} 3) !! q).
Proof.
  assert (Hf : is_Some (files (mkDisk {[ "f" := [] ]} 3) !! "f")) by (cbn; eauto).
  split; [exact Hf|]. apply (to_writer_prefix "f" _ _ Hf).
Defined.

Lemma writer_buf_bound_witness :
  has_file "f" (new (mkDisk {[ "f" := [] ]} 0)) /\
  length (wbuf (new (mkDisk {[ "f" := [] ]} 0))) <= DEFAULT_BUF_SIZE /\
  length (wbuf (fst (write_pieces "f" (byte_pieces (JsonFile big_part)) (new (mkDisk {[ "f" := [] ]} 0)))))
  <= DEFAULT_BUF_SIZE.
Proof.
  assert (Hf : has_file "f" (new (mkDisk {[ "f" := [] ]} 0))) by (exists []; reflexivity).
  assert (Hb : length (wbuf (new (mkDisk {[ "f" := [] ]} 0))) <= DEFAULT_BUF_SIZE) by (cbn; lia).
  split; [exact Hf|]. split; [exact Hb|]. apply (writer_buf_bound _ _ _ Hf Hb).
Defined.

Lemma write_file_short_witness :
  (forall a, concat (byte_pieces a) = artifact_bytes a) /\
  (fun _ : string => true) "out/part-1.json" = true /\
  length (artifact_bytes (JsonFile [scenario_utxo])) < DEFAULT_BUF_SIZE /\
  write_file (fun _ => true) byte_pieces "out/part-1.json" (JsonFile [scenario_utxo]) (mkDisk ∅ 16)
  = (disk_append "out/part-1.json" (artifact_bytes (JsonFile [scenario_utxo]))
       (file_create "out/part-1.json" (mkDisk ∅ 16)), Ok tt).
Proof.
  split; [exact byte_pieces_concat|]. split; [reflexivity|].
  assert (Hl : length (artifact_bytes (JsonFile [scenario_utxo])) < DEFAULT_BUF_SIZE)
    by (vm_compute; lia).
  split; [exact Hl|].
  apply (write_file_short (fun _ => true) byte_pieces byte_pieces_concat); [reflexivity | exact Hl].
Defined.

Lemma write_file_overflow_witness :
  (forall a, concat (byte_pieces a) = artifact_bytes a) /\
  (fun _ : string => true) "out/part-1.json" = true /\
  free (mkDisk ∅ 0) + length (content "out/part-1.json" (mkDisk ∅ 0)) + DEFAULT_BUF_SIZE
  < length (artifact_bytes (JsonFile big_part)) /\
  snd (write_file (fun _ => true) byte_pieces "out/part-1.json" (JsonFile big_part) (mkDisk ∅ 0))
  = Err (Panic "called `Result::unwrap()` on an `Err` value").
Proof.
  split; [exact byte_pieces_concat|]. split; [reflexivity|].
  assert (Hl : free (mkDisk ∅ 0) + length (content "out/part-1.json" (mkDisk ∅ 0)) + DEFAULT_BUF_SIZE
               < length (artifact_bytes (JsonFile big_part))) by (vm_compute; lia).
  split; [exact Hl|].
  apply (write_file_overflow (fun _ => true) byte_pieces byte_pieces_concat); [reflexivity | exact Hl].
Defined.

Lemma main_json_disk_witness :
  (forall a, concat (byte_pieces a) = artifact_bytes a) /\
  read_fixture_utxos 1 "utxo.csv" = Ok (map Ok (fixture_utxos 1)) /\
  read_fixture_rows "iterate.csv" = Ok (map Ok fixture_rows) /\
  (forall q, (fun _ : string => true) (part_path "out" q) = true) /\
  (Z.of_nat (length fixture_rows) <= i32_MAX)%Z /\
  (Z.of_nat (length (join_spec "full" (fixture_utxos 1) fixture_rows)) <= i32_MAX)%Z /\
  exists st parts,
    main true (fun _ => true) (read_fixture_utxos 1) read_fixture_rows
      (fixture_args "json" "full") fixture_state = (st, Ok tt) /\
    concat parts = join_spec "full" (fixture_utxos 1) fixture_rows /\
    forall d, files d = artifact_bytes <$> fs fixture_state -> parts_size parts <= free d ->
      exists d', write_parts_disk (fun _ => true) byte_pieces "out" 1 parts d = (d', Ok tt) /\
                 files d' = artifact_bytes <$> fs st.
Proof.
  assert (Hu : read_fixture_utxos 1 "utxo.csv" = Ok (map Ok (fixture_utxos 1))) by reflexivity.
  assert (Hi : read_fixture_rows "iterate.csv" = Ok (map Ok fixture_rows)) by reflexivity.
  split; [exact byte_pieces_concat|]. split; [exact Hu|]. split; [exact Hi|].
  split; [intros; reflexivity|].
  assert (Hn : (Z.of_nat (length fixture_rows) <= i32_MAX)%Z) by (vm_compute; congruence).
  assert (Hm : (Z.of_nat (length (join_spec "full" (fixture_utxos 1) fixture_rows)) <= i32_MAX)%Z)
    by (vm_compute; congruence).
  split; [exact Hn|]. split; [exact Hm|].
  exact (main_json_disk (fun _ => true) byte_pieces byte_pieces_concat true _ _ _ _ _ _ _ _ _ _
           fixture_state Hu Hi (fun _ => eq_refl) Hn Hm).
Defined.
