(* ===== verification/Run.v ===== *)
(** * Run: the program from its input files to its output files

    [main] (Pipeline.v) takes its two CSV readers as parameters; here they
    are the readers of Csv.v over a directory of file contents, so that a
    run goes from the text of [utxo_dump_location] and
    [bitcoin_iterate_location] to the text of the [part-<n>.json] files
    (JsonText.v) read back with the reader of Artifact.v.  The theorems
    compose the row round trip of Csv.v with the run of PipelineProofs.v
    and the JSON text round trip. *)

From S2P Require Import Prelude Types Pipeline PipelineProofs Json JsonText Csv Artifact.
From Stdlib Require Import Ascii.

Open Scope Z_scope.

Import CsvRead CsvWrite.

(** The same dumps as the quoting writer of Csv.v writes them. *)
Definition written_files : gmap string string :=
  <["utxo.csv" := utxo_csv [csv_fixture_utxo]]> (<["iterate.csv" := iterate_csv [csv_fixture_row]]> ∅).

(** ** Lemmas *)

Lemma read_utxo_dump_csv_rows files path rows :
  files !! path = Some (utxo_csv rows) -> Forall (fun u => UtxoDump.wf u = true) rows ->
  read_utxo_dump_csv files path = Ok (map Ok rows).
Proof. intros Hf Hw. unfold read_utxo_dump_csv. rewrite Hf, utxo_rows_csv by exact Hw. reflexivity. Qed.

Lemma read_bitcoin_iterate_csv_rows files path rows :
  files !! path = Some (iterate_csv rows) -> Forall (fun it => IterateDump.wf it = true) rows ->
  read_bitcoin_iterate_csv files path = Ok (map Ok rows).
Proof.
  intros Hf Hw. unfold read_bitcoin_iterate_csv. rewrite Hf, iterate_rows_csv by exact Hw.
  reflexivity.
Qed.

(** ** The whole run *)

(** C2: end to end, from text to text: when the UTXO dump and the
    position dump hold the CSV text of well-formed rows, a JSON run of
    [main] with the [csv] readers succeeds and the text of the parts it
    writes, read with the JSON grammar in part order and decoded with the
    derived [Deserialize], is exactly the join of the rows. *)
Theorem main_csv_json_text overflow_checks can_create files prog pu pi mt loc extra
    rows_u rows_i st0 :
  files !! pu = Some (utxo_csv rows_u) ->
  files !! pi = Some (iterate_csv rows_i) ->
  Forall (fun u => UtxoDump.wf u = true) rows_u ->
  Forall (fun it => IterateDump.wf it = true) rows_i ->
  (forall p, can_create (part_path loc p) = true) ->
  Z.of_nat (length rows_i) <= i32_MAX ->
  Z.of_nat (length (join_spec mt rows_u rows_i)) <= i32_MAX ->
  exists st,
    main overflow_checks can_create (read_utxo_dump_csv files) (read_bitcoin_iterate_csv files)
      (prog :: pu :: pi :: "json" :: mt :: loc :: extra) st0 = (st, Ok tt) /\
    read_json_parts (fs st) loc 1
      (Z.to_nat (Z.of_nat (length (join_spec mt rows_u rows_i)) / BATCH) + 1)
    = Some (join_spec mt rows_u rows_i).
Proof.
  intros Hu Hi Hwu Hwi. apply main_json_read_parts; auto.
  - apply read_utxo_dump_csv_rows; assumption.
  - apply read_bitcoin_iterate_csv_rows; assumption.
Qed.

(** ** Witnesses *)

Lemma main_csv_json_text_witness :
  written_files !! "utxo.csv" = Some (utxo_csv [csv_fixture_utxo]) /\
  written_files !! "iterate.csv" = Some (iterate_csv [csv_fixture_row]) /\
  exists st,
    main true (fun _ => true) (read_utxo_dump_csv written_files)
      (read_bitcoin_iterate_csv written_files) (fixture_args "json" "full") fixture_state
      = (st, Ok tt) /\
    read_json_parts (fs st) "out" 1
      (Z.to_nat (Z.of_nat (length (join_spec "full" [csv_fixture_utxo] [csv_fixture_row])) / BATCH) + 1)
    = Some (join_spec "full" [csv_fixture_utxo] [csv_fixture_row]).
Proof.
  assert (Hu : written_files !! "utxo.csv" = Some (utxo_csv [csv_fixture_utxo]))
    by (vm_compute; reflexivity).
  assert (Hi : written_files !! "iterate.csv" = Some (iterate_csv [csv_fixture_row]))
    by (vm_compute; reflexivity).
  split; [exact Hu|]. split; [exact Hi|].
  apply (main_csv_json_text true (fun _ => true) written_files _ _ _ _ _ _
           [csv_fixture_utxo] [csv_fixture_row] fixture_state Hu Hi);
    [repeat constructor | repeat constructor | intros; reflexivity
    | vm_compute; congruence | vm_compute; congruence].
Defined.
